(** * hydrateflash: the modified van der Waals-Platteeuw hydrate EOS

    A shallow embedding of [h_vdwpm_eos.py].  Python floats and numpy
    float64 values are idealised as real numbers; the IEEE special values
    that the unguarded division of the convergence measure produces are
    kept explicit ([npfloat]).  The dynamic type of a scalar (Python float
    against numpy float64) is kept where the code depends on it ([scalar]).
    The arguments [T] and [P] of the methods are Python floats, as every
    docstring types them ([T : float], [P : float]): dividing by a zero of
    that type raises ZeroDivisionError.  (A numpy float64 zero divides to
    inf or nan instead, values the real arrays of this model do not hold;
    calls with such a [T] are outside the model.)
    Exceptions are values of [exn]; a method returns a [result].  [quad]
    (scipy) and the [Component] records are external: [quad] is a section
    variable, [Component] a record of the attributes the code reads. *)

From Stdlib Require Import Reals Lra Lia List String Ascii ZArith Bool.
From Stdlib Require Import DecimalString.
From Stdlib Require DecimalPos DecimalZ.
Import ListNotations.
Open Scope R_scope.

(** ** Exceptions and results *)

Inductive exn : Set :=
| RuntimeError | IndexError | ValueError | NameError
| AttributeError | TypeError | ZeroDivisionError.

Definition exn_eqb (a b : exn) : bool :=
  match a, b with
  | RuntimeError, RuntimeError | IndexError, IndexError
  | ValueError, ValueError | NameError, NameError
  | AttributeError, AttributeError | TypeError, TypeError
  | ZeroDivisionError, ZeroDivisionError => true
  | _, _ => false
  end.

Inductive result (A : Type) : Type :=
| Ret (a : A)
| Raise (e : exn).
Arguments Ret {A} a.
Arguments Raise {A} e.

Definition bind {A B} (r : result A) (f : A -> result B) : result B :=
  match r with
  | Ret a => f a
  | Raise e => Raise e
  end.

Notation "x <- c ;; k" := (bind c (fun x => k))
  (at level 61, c at next level, right associativity).

(** [try: body except e: handler] *)
Definition try_except {A} (body : result A) (e : exn) (handler : result A)
  : result A :=
  match body with
  | Ret a => Ret a
  | Raise e' => if exn_eqb e' e then handler else Raise e'
  end.

(** ** Module constants *)

Definition R_gas : R := 8.3144621.
Definition T_0 : R := 298.15.
Definition P_0 : R := 1.
Definition k_B : R := 1.3806488e-23.

(** ** numpy arrays of floats *)

Definition array := list R.

Definition np_zeros (n : nat) : array := repeat 0 n.
Definition np_sum (a : array) : R := fold_right Rplus 0 a.

Fixpoint map2 (f : R -> R -> R) (a b : array) : array :=
  match a, b with
  | x :: a', y :: b' => f x y :: map2 f a' b'
  | _, _ => []
  end.

Definition arr_mul : array -> array -> array := map2 Rmult.
Definition arr_scale (c : R) (a : array) : array := map (Rmult c) a.

(** [min] of a non-empty array; shells are never empty in the tables. *)
Definition arr_min (a : array) : R :=
  match a with
  | [] => 0
  | x :: a' => fold_left Rmin a' x
  end.

(** A scalar with the dynamic type Python gives it. *)
Inductive scalar : Type :=
| PyFloat (v : R)
| NpFloat (v : R).

Definition sval (s : scalar) : R :=
  match s with PyFloat v | NpFloat v => v end.

(** [s.copy()]: numpy scalars have the method, Python floats do not. *)
Definition scalar_copy (s : scalar) : result scalar :=
  match s with
  | NpFloat v => Ret (NpFloat v)
  | PyFloat _ => Raise AttributeError
  end.

(** float64 values of the convergence measure, with the IEEE specials
    that a division by zero yields. *)
Inductive npfloat : Type :=
| Fin (v : R)
| PInf
| NaN.

Definition is_finite (e : npfloat) : Prop :=
  match e with Fin _ => True | _ => False end.

Definition Req_b (a b : R) : bool := if Req_dec_T a b then true else false.
Definition Rgt_b (a b : R) : bool := if Rgt_dec a b then true else false.

(** [abs(a)/b] on float64: the numerator is non-negative, so the
    quotient by zero is [+inf], or [nan] when the numerator is zero too. *)
Definition np_absdiv (a b : R) : npfloat :=
  if Req_b b 0 then (if Req_b a 0 then NaN else PInf)
  else Fin (Rabs a / b).

Definition np_add (a b : npfloat) : npfloat :=
  match a, b with
  | Fin x, Fin y => Fin (x + y)
  | NaN, _ | _, NaN => NaN
  | _, _ => PInf
  end.

(** [e > tol]; every comparison with [nan] is false. *)
Definition np_gt (e : npfloat) (tol : R) : bool :=
  match e with
  | Fin v => Rgt_b v tol
  | PInf => true
  | NaN => false
  end.

(** ** Components (external records, read only) *)

Inductive hydstruc_t : Set := s1 | s2 | sH.

Record Kihara := { kih_a : R; kih_epsk : R; kih_sig : R }.

(** [comp.HvdWPM[structure]]: compressibility and repulsion constants. *)
Record StructParams := { sp_kappa : R; sp_rep_small : R; sp_rep_large : R }.

Record Component := {
  compname : string;
  diam : R;
  stdst_fug : R;
  HvdWPM : hydstruc_t -> StructParams;
  kih : Kihara;
  gibbs_ideal : R -> R -> R
}.

Definition is_h2o (c : Component) : bool := String.eqb (compname c) "h2o".

(** ** HydrateStructure *)

(** The value passed as [hyd_type]: a string, or an integer (the menu
    lists [1] and [2]). *)
Inductive pyval : Type :=
| PyStr (s : string)
| PyInt (z : Z).

Definition pyval_eqb (a b : pyval) : bool :=
  match a, b with
  | PyStr x, PyStr y => String.eqb x y
  | PyInt x, PyInt y => Z.eqb x y
  | _, _ => false
  end.

(** [str(v)] *)
Definition py_str (v : pyval) : string :=
  match v with
  | PyStr s => s
  | PyInt z => NilZero.string_of_int (Z.to_int z)
  end.

Definition lower_ascii (c : ascii) : ascii :=
  let n := nat_of_ascii c in
  if (65 <=? n)%nat && (n <=? 90)%nat then ascii_of_nat (n + 32) else c.

Fixpoint lower (s : string) : string :=
  match s with
  | EmptyString => EmptyString
  | String c s' => String (lower_ascii c) (lower s')
  end.

(** [x in tuple] *)
Definition py_in (x : pyval) (t : list pyval) : bool := existsb (pyval_eqb x) t.

Definition menu (key : hydstruc_t) : list pyval :=
  match key with
  | s1 => [PyStr "s1"; PyStr "1"; PyInt 1; PyStr "si"; PyStr "i"; PyStr "one"]
  | s2 => [PyStr "s2"; PyStr "2"; PyInt 2; PyStr "sii"; PyStr "ii"; PyStr "two"]
  | sH => [PyStr "sh"; PyStr "h"]
  end.

(** The shells of the two cage types: [R] and [z] of the table. *)
Record Shells := { sm : array; lg : array }.

(** [eos['hvdwpm']]; the sH table has no [a_norm], [R] and [z]. *)
Record EosTable := {
  v0 : R; kappa : R; a0_ast : R; gw_0beta : R; hw_0beta : R;
  a_fit : R; b_fit : R; alf1 : R; alf2 : R; alf3 : R;
  a_norm : option R; R_tab : option Shells; z_tab : option Shells
}.

Record HydrateStructure := {
  hydstruc : hydstruc_t;
  eos : EosTable;
  Nm_small : R; Nm_large : R;
  etam_small : R; etam_large : R;
  Num_h2o : R
}.

Definition table_s1 : EosTable := {|
  v0 := 22.7712; kappa := 3e-5; a0_ast := 11.99245;
  gw_0beta := -235537.85; hw_0beta := -291758.77;
  a_fit := 25.74; b_fit := -481.32;
  alf1 := 3.38496e-4; alf2 := 5.40099e-7; alf3 := -4.76946e-11;
  a_norm := Some 12.03;
  R_tab := Some {| sm := [3.83; 3.96]; lg := [4.47; 4.06; 4.645; 4.25] |};
  z_tab := Some {| sm := [8; 12]; lg := [8; 8; 4; 4] |} |}.

Definition table_s2 : EosTable := {|
  v0 := 22.9456; kappa := 3e-6; a0_ast := 17.10000;
  gw_0beta := -235627.53; hw_0beta := -292044.10;
  a_fit := 260; b_fit := -68.64;
  alf1 := 2.029776e-4; alf2 := 1.851168e-7; alf3 := -1.879455e-10;
  a_norm := Some 17.1;
  R_tab := Some {| sm := [3.748; 3.845; 3.956]; lg := [4.729; 4.715; 4.635] |};
  z_tab := Some {| sm := [2; 6; 12]; lg := [4; 12; 12] |} |}.

Definition table_sH : EosTable := {|
  v0 := 24.2126; kappa := 3e-7; a0_ast := 11.09826;
  gw_0beta := -2355491.02; hw_0beta := -291979.26;
  a_fit := 0; b_fit := 0;
  alf1 := 3.575490e-4; alf2 := 6.294390e-7; alf3 := 0;
  a_norm := None; R_tab := None; z_tab := None |}.

Definition structure_of (h : hydstruc_t) : HydrateStructure :=
  match h with
  | s1 => {| hydstruc := s1; eos := table_s1; Nm_small := 2; Nm_large := 6;
             etam_small := 20; etam_large := 24; Num_h2o := 46 |}
  | s2 => {| hydstruc := s2; eos := table_s2; Nm_small := 16; Nm_large := 8;
             etam_small := 20; etam_large := 28; Num_h2o := 136 |}
  | sH => {| hydstruc := sH; eos := table_sH; Nm_small := 3; Nm_large := 1;
             etam_small := 20; etam_large := 36; Num_h2o := 46 |}
  end.

(** [HydrateStructure.__init__]; in the [else] branch the message is
    built with [hyd_type + "..."], a TypeError for an integer. *)
Definition HydrateStructure_init (hyd_type : pyval) : result HydrateStructure :=
  let key := PyStr (lower (py_str hyd_type)) in
  if py_in key (menu s1) then Ret (structure_of s1)
  else if py_in key (menu s2) then Ret (structure_of s2)
  else if py_in key (menu sH) then Ret (structure_of sH)
  else match hyd_type with
       | PyStr _ => Raise RuntimeError
       | PyInt _ => Raise TypeError
       end.

(** ** The EOS instance *)

(** [self.fug] is the integer [0] until the first fugacity vector is
    stored. *)
Inductive fugval : Type :=
| FugInt0
| FugArr (a : array).

(** The attributes of a [HvdwpmEos] object that its methods read.  The
    attributes created after [__init__] started are options: reading one
    that does not exist yet is an AttributeError.  [n_solves] is a ghost
    counter of the calls of [find_hydrate_properties]. *)
Record Eos := {
  water_ind : nat; comps : list Component; num_comps : nat;
  T : R; P : R; gw0_RT : R; Hs : HydrateStructure;
  Y_small : array; Y_large : array; fug : fugval;
  R_sm : array; z_sm : array; R_lg : array; z_lg : array;
  kappa0 : R; a0_cubed : R;
  kappa_vec : array; rep_sm_vec : array; rep_lg_vec : array; D_vec : array;
  Y_small_0 : array; Y_large_0 : array; eq_fug : array; stdstate_fug : array;
  gwbeta_RT : R; vol_Tfactor : R; lattice_Tfactor : R;
  repulsive_small : array; repulsive_large : array;
  kappa_tmp : option scalar; a_0 : option R; v_H_0 : option R;
  C_small : option array; C_large : option array; v_H : option R;
  n_solves : nat
}.

Definition set_constant_mats (s : Eos) (T' P' gw0 gwbeta volT latT : R) : Eos :=
  Build_Eos (water_ind s) (comps s) (num_comps s) T' P' gw0 (Hs s)
    (Y_small s) (Y_large s) (fug s) (R_sm s) (z_sm s) (R_lg s) (z_lg s)
    (kappa0 s) (a0_cubed s) (kappa_vec s) (rep_sm_vec s) (rep_lg_vec s)
    (D_vec s) (Y_small_0 s) (Y_large_0 s) (eq_fug s) (stdstate_fug s)
    gwbeta volT latT (repulsive_small s) (repulsive_large s)
    (kappa_tmp s) (a_0 s) (v_H_0 s) (C_small s) (C_large s) (v_H s)
    (n_solves s).

Definition set_R (s : Eos) (Rs Rl : array) : Eos :=
  Build_Eos (water_ind s) (comps s) (num_comps s) (T s) (P s) (gw0_RT s)
    (Hs s) (Y_small s) (Y_large s) (fug s) Rs (z_sm s) Rl (z_lg s)
    (kappa0 s) (a0_cubed s) (kappa_vec s) (rep_sm_vec s) (rep_lg_vec s)
    (D_vec s) (Y_small_0 s) (Y_large_0 s) (eq_fug s) (stdstate_fug s)
    (gwbeta_RT s) (vol_Tfactor s) (lattice_Tfactor s)
    (repulsive_small s) (repulsive_large s)
    (kappa_tmp s) (a_0 s) (v_H_0 s) (C_small s) (C_large s) (v_H s)
    (n_solves s).

Definition set_Y_0 (s : Eos) (Ys Yl : array) : Eos :=
  Build_Eos (water_ind s) (comps s) (num_comps s) (T s) (P s) (gw0_RT s)
    (Hs s) (Y_small s) (Y_large s) (fug s) (R_sm s) (z_sm s) (R_lg s) (z_lg s)
    (kappa0 s) (a0_cubed s) (kappa_vec s) (rep_sm_vec s) (rep_lg_vec s)
    (D_vec s) Ys Yl (eq_fug s) (stdstate_fug s)
    (gwbeta_RT s) (vol_Tfactor s) (lattice_Tfactor s)
    (repulsive_small s) (repulsive_large s)
    (kappa_tmp s) (a_0 s) (v_H_0 s) (C_small s) (C_large s) (v_H s)
    (n_solves s).

Definition set_repulsive (s : Eos) (rs rl : array) : Eos :=
  Build_Eos (water_ind s) (comps s) (num_comps s) (T s) (P s) (gw0_RT s)
    (Hs s) (Y_small s) (Y_large s) (fug s) (R_sm s) (z_sm s) (R_lg s) (z_lg s)
    (kappa0 s) (a0_cubed s) (kappa_vec s) (rep_sm_vec s) (rep_lg_vec s)
    (D_vec s) (Y_small_0 s) (Y_large_0 s) (eq_fug s) (stdstate_fug s)
    (gwbeta_RT s) (vol_Tfactor s) (lattice_Tfactor s) rs rl
    (kappa_tmp s) (a_0 s) (v_H_0 s) (C_small s) (C_large s) (v_H s)
    (n_solves s).

Definition set_stdstate (s : Eos) (kt : scalar) (a0 vH0 : R) : Eos :=
  Build_Eos (water_ind s) (comps s) (num_comps s) (T s) (P s) (gw0_RT s)
    (Hs s) (Y_small s) (Y_large s) (fug s) (R_sm s) (z_sm s) (R_lg s) (z_lg s)
    (kappa0 s) (a0_cubed s) (kappa_vec s) (rep_sm_vec s) (rep_lg_vec s)
    (D_vec s) (Y_small_0 s) (Y_large_0 s) (eq_fug s) (stdstate_fug s)
    (gwbeta_RT s) (vol_Tfactor s) (lattice_Tfactor s)
    (repulsive_small s) (repulsive_large s)
    (Some kt) (Some a0) (Some vH0) (C_small s) (C_large s) (v_H s)
    (n_solves s).

Definition set_Y (s : Eos) (Ys Yl : array) : Eos :=
  Build_Eos (water_ind s) (comps s) (num_comps s) (T s) (P s) (gw0_RT s)
    (Hs s) Ys Yl (fug s) (R_sm s) (z_sm s) (R_lg s) (z_lg s)
    (kappa0 s) (a0_cubed s) (kappa_vec s) (rep_sm_vec s) (rep_lg_vec s)
    (D_vec s) (Y_small_0 s) (Y_large_0 s) (eq_fug s) (stdstate_fug s)
    (gwbeta_RT s) (vol_Tfactor s) (lattice_Tfactor s)
    (repulsive_small s) (repulsive_large s)
    (kappa_tmp s) (a_0 s) (v_H_0 s) (C_small s) (C_large s) (v_H s)
    (n_solves s).

Definition set_properties (s : Eos) (Cs Cl : array) (kt : scalar) (vH : R)
  : Eos :=
  Build_Eos (water_ind s) (comps s) (num_comps s) (T s) (P s) (gw0_RT s)
    (Hs s) (Y_small s) (Y_large s) (fug s) (R_sm s) (z_sm s) (R_lg s) (z_lg s)
    (kappa0 s) (a0_cubed s) (kappa_vec s) (rep_sm_vec s) (rep_lg_vec s)
    (D_vec s) (Y_small_0 s) (Y_large_0 s) (eq_fug s) (stdstate_fug s)
    (gwbeta_RT s) (vol_Tfactor s) (lattice_Tfactor s)
    (repulsive_small s) (repulsive_large s)
    (Some kt) (a_0 s) (v_H_0 s) (Some Cs) (Some Cl) (Some vH)
    (n_solves s).

Definition set_fug (s : Eos) (f : array) : Eos :=
  Build_Eos (water_ind s) (comps s) (num_comps s) (T s) (P s) (gw0_RT s)
    (Hs s) (Y_small s) (Y_large s) (FugArr f) (R_sm s) (z_sm s) (R_lg s)
    (z_lg s)
    (kappa0 s) (a0_cubed s) (kappa_vec s) (rep_sm_vec s) (rep_lg_vec s)
    (D_vec s) (Y_small_0 s) (Y_large_0 s) (eq_fug s) (stdstate_fug s)
    (gwbeta_RT s) (vol_Tfactor s) (lattice_Tfactor s)
    (repulsive_small s) (repulsive_large s)
    (kappa_tmp s) (a_0 s) (v_H_0 s) (C_small s) (C_large s) (v_H s)
    (n_solves s).

Definition count_solve (s : Eos) : Eos :=
  Build_Eos (water_ind s) (comps s) (num_comps s) (T s) (P s) (gw0_RT s)
    (Hs s) (Y_small s) (Y_large s) (fug s) (R_sm s) (z_sm s) (R_lg s) (z_lg s)
    (kappa0 s) (a0_cubed s) (kappa_vec s) (rep_sm_vec s) (rep_lg_vec s)
    (D_vec s) (Y_small_0 s) (Y_large_0 s) (eq_fug s) (stdstate_fug s)
    (gwbeta_RT s) (vol_Tfactor s) (lattice_Tfactor s)
    (repulsive_small s) (repulsive_large s)
    (kappa_tmp s) (a_0 s) (v_H_0 s) (C_small s) (C_large s) (v_H s)
    (S (n_solves s)).

(** Reading an attribute that may not exist. *)
Definition getattr {A} (o : option A) : result A :=
  match o with
  | Some v => Ret v
  | None => Raise AttributeError
  end.

(** [a[i]] *)
Definition getitem {A} (a : list A) (i : nat) : result A :=
  match nth_error a i with
  | Some v => Ret v
  | None => Raise IndexError
  end.

(** ** Size, volume and compressibility *)

Inductive dim_t : Set := volumetric | linear.

Definition Hydrate_size (hs : HydrateStructure) (T P v kap : R) (dim : dim_t)
  : R :=
  let factor := match dim with volumetric => 1 | linear => 1 / 3 end in
  v * exp (factor * (alf1 (eos hs) * (T - T_0)
                     + alf2 (eos hs) * (T - T_0) ^ 2
                     + alf3 (eos hs) * (T - T_0) ^ 3
                     - kap * (P - P_0))).

Definition Hvol_Pint (hs : HydrateStructure) (T P v kap : R) : R :=
  Hydrate_size hs T P v kap volumetric / (- kap).

Definition lattice_to_volume (hs : HydrateStructure) (lattice_sz : R) : R :=
  match hydstruc hs with
  | sH => v0 (eos hs)
  | _ => 6.0221413e23 / Num_h2o hs / 1e24 * lattice_sz ^ 3
  end.

(** The single-guest branch hands back [self.kappa0], a Python float;
    the other one a numpy float64. *)
Definition kappa_func (self : Eos) (Y_large : array) : scalar :=
  if (2 <? num_comps self)%nat
  then NpFloat (3 * np_sum (arr_mul (kappa_vec self) Y_large))
  else PyFloat (kappa0 self).

Definition cage_const (eta Nw : R) (Y : array) : array :=
  map (fun y => (1 + eta / Nw) * y / (1 + (eta / Nw) * y)) Y.

Definition cage_distortion (self : Eos) : Eos :=
  let hs := Hs self in
  let small_const := cage_const (etam_small hs) (Num_h2o hs) (Y_small_0 self) in
  let rs :=
    if (2 <? num_comps self)%nat
    then map2 (fun c d =>
                 c * exp (d - np_sum (arr_mul (Y_small_0 self) (D_vec self))))
              small_const (D_vec self)
    else small_const in
  let rl := cage_const (etam_large hs) (Num_h2o hs) (Y_large_0 self) in
  set_repulsive self rs rl.

Definition filled_lattice_size (self : Eos) : Eos * R :=
  let self := cage_distortion self in
  let hs := Hs self in
  (self,
   a0_ast (eos hs)
   + Nm_small hs * np_sum (arr_mul (repulsive_small self) (rep_sm_vec self))
   + Nm_large hs * np_sum (arr_mul (repulsive_large self) (rep_lg_vec self))).

(** ** Occupancy *)

(** [C * eq_fug] with numpy's broadcasting of one-element arrays. *)
Definition np_mul (a b : array) : result array :=
  if (List.length a =? List.length b)%nat then Ret (arr_mul a b)
  else match a, b with
       | [x], _ => Ret (arr_scale x b)
       | _, [y] => Ret (map (fun x => x * y) a)
       | _, _ => Raise ValueError
       end.

Fixpoint calc_langmuir_loop (cs : list Component) (ii : nat)
    (C f : array) (denominator : R) : result array :=
  match cs with
  | [] => Ret []
  | comp :: cs' =>
      y <- (if negb (is_h2o comp)
            then (c <- getitem C ii ;; e <- getitem f ii ;;
                  Ret (c * e / denominator))
            else Ret 0) ;;
      Y <- calc_langmuir_loop cs' (S ii) C f denominator ;;
      Ret (y :: Y)
  end.

Definition calc_langmuir (self : Eos) (C f : array) : result array :=
  Cf <- np_mul C f ;;
  let denominator := 1 + np_sum Cf in
  calc_langmuir_loop (comps self) 0 C f denominator.

Definition delta_mu_func (self : Eos) : R :=
  let hs := Hs self in
  (Nm_small hs * ln (1 - np_sum (Y_small self))
   + Nm_large hs * ln (1 - np_sum (Y_large self))) / Num_h2o hs.

(** [1/T] is a division of Python floats: [T] is a Python float. *)
Definition activity_func (self : Eos) (T P v_H_0 : R) : result R :=
  let hs := Hs self in
  let kappa_wtavg := sval (kappa_func self (Y_large self)) in
  if Req_b T 0 then Raise ZeroDivisionError
  else Ret (
    (v_H_0 - a0_cubed self) / R_gas
      * (a_fit (eos hs) / T_0 + b_fit (eos hs) * (1 / T - 1 / T_0))
    + ((Hvol_Pint hs T P v_H_0 kappa_wtavg
        - Hvol_Pint hs T P (a0_cubed self) (kappa0 self))
       - (Hvol_Pint hs T P_0 v_H_0 kappa_wtavg
          - Hvol_Pint hs T P_0 (a0_cubed self) (kappa0 self)))
      * 1e-1 / (R_gas * T)).

(** ** Constants that depend on T and P only *)

Definition cp_a0 : R := 0.735409713 * R_gas.
Definition cp_a1 : R := 1.4180551e-2 * R_gas.
Definition cp_a2 : R := -1.72746e-5 * R_gas.
Definition cp_a3 : R := 63.5104e-9 * R_gas.

Definition gwbeta_RT_of (self : Eos) (T P : R) : R :=
  let hs := Hs self in
  gw_0beta (eos hs) / (R_gas * T_0)
  - (12 * T * hw_0beta (eos hs) - 12 * T_0 * hw_0beta (eos hs)
     + 12 * T_0 ^ 2 * cp_a0 + 6 * T_0 ^ 3 * cp_a1
     + 4 * T_0 ^ 4 * cp_a2 + 3 * T_0 ^ 5 * cp_a3
     - 12 * T * T_0 * cp_a0 - 12 * T * T_0 ^ 2 * cp_a1
     + 6 * T ^ 2 * T_0 * cp_a1 - 6 * T * T_0 ^ 3 * cp_a2
     + 2 * T ^ 3 * T_0 * cp_a2 - 4 * T * T_0 ^ 4 * cp_a3
     + T ^ 4 * T_0 * cp_a3 + 12 * T * T_0 * cp_a0 * ln T
     - 12 * T * T_0 * cp_a0 * ln T_0) / (12 * R_gas * T * T_0)
  + (Hvol_Pint hs T P (a0_cubed self) (kappa0 self)
     - Hvol_Pint hs T P_0 (a0_cubed self) (kappa0 self)) * 1e-1 / (R_gas * T).

(** [make_constant_mats] writes [self.T] and [self.P] before it indexes
    the list it is handed: the outcome is the instance as the call
    leaves it, with the exception when one was raised. *)
Definition make_constant_mats (self : Eos) (cs : list Component) (T P : R)
  : Eos * option exn :=
  match getitem cs (water_ind self) with
  | Raise e =>
      (set_constant_mats self T P (gw0_RT self) (gwbeta_RT self)
         (vol_Tfactor self) (lattice_Tfactor self), Some e)
  | Ret w =>
      (set_constant_mats self T P (gibbs_ideal w T P) (gwbeta_RT_of self T P)
         (Hydrate_size (Hs self) T P_0 1 (kappa0 self) volumetric)
         (Hydrate_size (Hs self) T P_0 1 (kappa0 self) linear), None)
  end.

(** The same outcome for a caller that has no use for the instance once
    the call has raised. *)
Definition returned (o : Eos * option exn) : result Eos :=
  match o with
  | (s, None) => Ret s
  | (_, Some e) => Raise e
  end.

(** ** The convergence measure of the two fixed-point loops *)

Fixpoint conv_error (cs : list Component) (ii : nat)
    (C_small_new C_small C_large_new C_large : array) (error : npfloat)
  : result npfloat :=
  match cs with
  | [] => Ret error
  | comp :: cs' =>
      e <- (if negb (is_h2o comp)
            then (sn <- getitem C_small_new ii ;; so <- getitem C_small ii ;;
                  ln_ <- getitem C_large_new ii ;; lo <- getitem C_large ii ;;
                  Ret (np_add error
                         (np_add (np_absdiv (sn - so) sn)
                                 (np_absdiv (ln_ - lo) ln_))))
            else Ret error) ;;
      conv_error cs' (S ii) C_small_new C_small C_large_new C_large e
  end.

Definition TOL : R := 1e-3.

(** ** The cell potential *)

Definition delta_func (N : nat) (Rn aj r : R) : R :=
  (/ (1 - r / Rn - aj / Rn) ^ N - / (1 + r / Rn - aj / Rn) ^ N) / INR N.

Definition w_func (zn eps_k r Rn sigma aj : R) : R :=
  2 * zn * eps_k
  * (sigma ^ 12 / (Rn ^ 11 * r)
       * (delta_func 10 Rn aj r + (aj / Rn) * delta_func 11 Rn aj r)
     - sigma ^ 6 / (Rn ^ 5 * r)
       * (delta_func 4 Rn aj r + (aj / Rn) * delta_func 5 Rn aj r)).

Fixpoint integrand_sum (r : R) (Rs z : array) (eps_k sigma aj : R) : R :=
  match Rs, z with
  | Rn :: Rs', zn :: z' =>
      w_func zn eps_k r Rn sigma aj + integrand_sum r Rs' z' eps_k sigma aj
  | _, _ => 0
  end.

Definition integrand (r : R) (Rs z : array) (eps_k sigma aj T : R) : R :=
  r ^ 2 * exp ((- 1 / T) * integrand_sum r Rs z eps_k sigma aj).

(** [a[i] = v] *)
Fixpoint setitem (a : array) (i : nat) (v : R) : result array :=
  match a, i with
  | [], _ => Raise IndexError
  | _ :: a', O => Ret (v :: a')
  | x :: a', S i' => a'' <- setitem a' i' v ;; Ret (x :: a'')
  end.

(** [min(a)]; the built-in raises ValueError on an empty sequence. *)
Definition py_min (a : array) : result R :=
  match a with
  | [] => Raise ValueError
  | _ => Ret (arr_min a)
  end.

Definition compute_integral_constants (self : Eos) (T P lattice_sz kap : R)
  : result Eos :=
  let Pfactor := Hydrate_size (Hs self) T_0 P 1 kap linear in
  an <- getattr (a_norm (eos (Hs self))) ;;
  let a_factor := (lattice_sz / an) * lattice_Tfactor self * Pfactor in
  Rt <- getattr (R_tab (eos (Hs self))) ;;
  Ret (set_R self (map (fun r => r * a_factor) (sm Rt))
                  (map (fun r => r * a_factor) (lg Rt))).

(** One call of the integrator: the component's index, the cage type
    ([true] for the small cage) and the upper bound handed over. *)
Record QuadCall := { qc_index : nat; qc_small : bool; qc_upper : R }.

Section Integrator.

(** [scipy.integrate.quad f a b]: the value and the error estimate. *)
Variable quad : (R -> R) -> R -> R -> R * R.

Fixpoint langmuir_loop (self : Eos) (cs : list Component) (ii : nat)
    (T C_const : R) (C_small C_large : array) (calls : list QuadCall)
  : result (array * array * list QuadCall) :=
  match cs with
  | [] => Ret (C_small, C_large, calls)
  | comp :: cs' =>
      if negb (is_h2o comp) then
        ms <- py_min (R_sm self) ;;
        let up_s := ms - kih_a (kih comp) in
        let small_int :=
          quad (fun r => integrand r (R_sm self) (z_sm self)
                           (kih_epsk (kih comp)) (kih_sig (kih comp))
                           (kih_a (kih comp)) T) 0 up_s in
        ml <- py_min (R_lg self) ;;
        let up_l := ml - kih_a (kih comp) in
        let large_int :=
          quad (fun r => integrand r (R_lg self) (z_lg self)
                           (kih_epsk (kih comp)) (kih_sig (kih comp))
                           (kih_a (kih comp)) T) 0 up_l in
        Cs <- setitem C_small ii (C_const * fst small_int) ;;
        Cl <- setitem C_large ii (C_const * fst large_int) ;;
        langmuir_loop self cs' (S ii) T C_const Cs Cl
          (calls ++ [ {| qc_index := ii; qc_small := true; qc_upper := up_s |};
                      {| qc_index := ii; qc_small := false; qc_upper := up_l |} ])
      else
        Cs <- setitem C_small ii 0 ;;
        Cl <- setitem C_large ii 0 ;;
        langmuir_loop self cs' (S ii) T C_const Cs Cl calls
  end.

(** [C_const] divides by [k*T].  T and P are Python floats, as the
    docstrings type them ([T : float]): a zero [k*T] then makes the
    division raise. *)
Definition C_const_of (T : R) : R := (1e-10) ^ 3 * 4 * PI / (k_B * T) * 1e5.

Definition langmuir_consts (self : Eos) (compobjs : list Component)
    (T P lattice_sz kap : R)
  : result (Eos * (array * array * list QuadCall)) :=
  self <- compute_integral_constants self T P lattice_sz kap ;;
  if Req_b (k_B * T) 0 then Raise ZeroDivisionError
  else
    out <- langmuir_loop self compobjs 0 T (C_const_of T)
             (np_zeros (num_comps self)) (np_zeros (num_comps self)) [] ;;
    Ret (self, out).

(** [iterate_function]: C_small, C_large, Y_small, Y_large. *)
Definition iterate_function (self : Eos) (compobjs : list Component)
    (T P : R) (fg : array) (lattice_sz kap : R)
  : result (Eos * (array * array * array * array)) :=
  r <- langmuir_consts self compobjs T P lattice_sz kap ;;
  let '(self, (Cs, Cl, _)) := r in
  Ys <- calc_langmuir self Cs fg ;;
  Yl <- calc_langmuir self Cl fg ;;
  Ret (self, (Cs, Cl, Ys, Yl)).

(** *** The reference-state solve *)

(** [while error > TOL]: [None] when the fuel runs out before the
    condition fails. *)
Fixpoint stdstate_loop (fuel : nat) (self : Eos) (compobjs : list Component)
    (C_small C_large : array) (lattice_sz : R) (kap : scalar)
    (error : npfloat) : option (result (Eos * R * scalar)) :=
  if np_gt error TOL then
    match fuel with
    | O => None
    | S fuel' =>
        match iterate_function self compobjs T_0 P_0 (stdstate_fug self)
                lattice_sz (sval kap) with
        | Raise e => Some (Raise e)
        | Ret (self, (C_small_new, C_large_new, Ys, Yl)) =>
            let self := set_Y_0 self Ys Yl in
            let '(self, lattice_sz) := filled_lattice_size self in
            let kap := kappa_func self (Y_large_0 self) in
            match conv_error compobjs 0 C_small_new C_small
                    C_large_new C_large (Fin 0) with
            | Raise e => Some (Raise e)
            | Ret error =>
                stdstate_loop fuel' self compobjs C_small_new C_large_new
                  lattice_sz kap error
            end
        end
    end
  else Some (Ret (self, lattice_sz, kap)).

Definition find_stdstate_volume (fuel : nat) (self : Eos)
    (compobjs : list Component) : option (result Eos) :=
  match stdstate_loop fuel self compobjs (np_zeros (num_comps self))
          (np_zeros (num_comps self)) (a0_ast (eos (Hs self)))
          (PyFloat (kappa0 self)) (Fin 1e6) with
  | None => None
  | Some (Raise e) => Some (Raise e)
  | Some (Ret (self, lattice_sz, kap)) =>
      Some (Ret (set_stdstate self kap lattice_sz
                   (lattice_to_volume (Hs self) lattice_sz)))
  end.

(** *** The operating-state solve *)

Fixpoint hydrate_loop (fuel : nat) (self : Eos) (compobjs : list Component)
    (T P : R) (eq_fug : array) (C_small C_large : array) (lattice_sz : R)
    (kap : scalar) (error : npfloat)
  : option (result (Eos * array * array * scalar)) :=
  if np_gt error TOL then
    match fuel with
    | O => None
    | S fuel' =>
        match iterate_function self compobjs T P eq_fug lattice_sz
                (sval kap) with
        | Raise e => Some (Raise e)
        | Ret (self, (C_small_new, C_large_new, Ys, Yl)) =>
            let self := set_Y self Ys Yl in
            let kap := kappa_func self (Y_large self) in
            match conv_error compobjs 0 C_small_new C_small
                    C_large_new C_large (Fin 0) with
            | Raise e => Some (Raise e)
            | Ret error =>
                hydrate_loop fuel' self compobjs T P eq_fug
                  C_small_new C_large_new lattice_sz kap error
            end
        end
    end
  else Some (Ret (self, C_small, C_large, kap)).

Definition find_hydrate_properties (fuel : nat) (self : Eos)
    (compobjs : list Component) (T P : R) (eq_fug : array)
  : option (result Eos) :=
  let self := count_solve self in
  let start :=
    C0 <- match C_small self with
          | Some Cs => Cl <- getattr (C_large self) ;; Ret (Cs, Cl)
          | None => Ret (np_zeros (num_comps self), np_zeros (num_comps self))
          end ;;
    kt <- getattr (kappa_tmp self) ;;
    kap <- scalar_copy kt ;;
    lattice_sz <- getattr (a_0 self) ;;
    Ret (C0, kap, lattice_sz) in
  match start with
  | Raise e => Some (Raise e)
  | Ret (Cs, Cl, kap, lattice_sz) =>
      match hydrate_loop fuel self compobjs T P eq_fug Cs Cl lattice_sz kap
              (Fin 1e6) with
      | None => None
      | Some (Raise e) => Some (Raise e)
      | Some (Ret (self, Cs, Cl, kap)) =>
          Some (kcopy <- scalar_copy kap ;;
                vH0 <- getattr (v_H_0 self) ;;
                Ret (set_properties self Cs Cl kcopy
                       (Hydrate_size (Hs self) T P vH0 (sval kap) volumetric)))
      end
  end.

(** *** The fugacity of water in the hydrate *)

Fixpoint all_eq (a b : array) : bool :=
  match a, b with
  | x :: a', y :: b' => Req_b x y && all_eq a' b'
  | _, _ => true
  end.

(** [fug = np.zeros(n); fug[1:] = eq_fug[1:]] for [eq_fug] of length [n] *)
Definition zero_head (eq_fug : array) : array :=
  match eq_fug with
  | [] => []
  | _ :: t => 0 :: t
  end.

(** [eq_fug] is an array of [num_comps] entries; another shape fails in
    the comparison or in the slice assignment, taken here as one
    ValueError. *)
Definition fugacity (fuel : nat) (self : Eos) (compobjs : list Component)
    (T P : R) (x eq_fug' : array) : option (result (Eos * array)) :=
  if negb (List.length eq_fug' =? num_comps self)%nat
  then Some (Raise ValueError)
  else
    match (if all_eq eq_fug' (eq_fug self)
           then match fug self with
                | FugArr a => Ret a
                | FugInt0 => Raise AttributeError
                end
           else Ret (zero_head eq_fug')) with
    | Raise e => Some (Raise e)
    | Ret fg =>
        match find_hydrate_properties fuel self compobjs T P eq_fug' with
        | None => None
        | Some (Raise e) => Some (Raise e)
        | Some (Ret self) =>
            Some (let delta_mu_RT := delta_mu_func self in
                  vH0 <- getattr (v_H_0 self) ;;
                  activity <- activity_func self T P vH0 ;;
                  let mu_H_RT := gwbeta_RT self + activity + delta_mu_RT in
                  fg <- setitem fg 0 (exp (mu_H_RT - gw0_RT self)) ;;
                  Ret (set_fug self fg, fg))
        end
    end.

(** *** calc *)

(** [self.comps], [self.T], [self.P] where a parameter has the same name. *)
Definition own_comps (s : Eos) : list Component := comps s.
Definition own_T (s : Eos) : R := T s.
Definition own_P (s : Eos) : R := P s.

(** The mole fractions [x] handed to [calc]: a Python list or a numpy
    array, as the docstring allows. *)
Inductive pyseq : Type :=
| PyList (l : array)
| NpArray (a : array).

Definition seq_len (x : pyseq) : nat :=
  match x with PyList l | NpArray l => List.length l end.

Definition seq_items (x : pyseq) : array :=
  match x with PyList l | NpArray l => l end.

(** What a name of the scope of [calc] is bound to. *)
Inductive pyobj : Type :=
| ObjSelf (s : Eos)
| ObjComps (cs : list Component)
| ObjFloat (v : R)
| ObjSeq (x : pyseq)
| ObjArray (a : array)
| ObjGlobal.

(** The module's global names. *)
Definition module_globals : list (string * pyobj) :=
  map (fun n => (n, ObjGlobal))
      ["np"; "quad"; "R"; "T_0"; "P_0"; "k";
       "HydrateEos"; "HvdwpmEos"; "HydrateStructure"]%string.

(** The names [calc] can read: its parameters, then the globals. *)
Definition calc_scope (self : Eos) (comps : list Component) (T P : R)
    (x : pyseq) (eq_fug : array) : list (string * pyobj) :=
  [("self", ObjSelf self); ("comps", ObjComps comps); ("T", ObjFloat T);
   ("P", ObjFloat P); ("x", ObjSeq x); ("eq_fug", ObjArray eq_fug)]%string
  ++ module_globals.

Fixpoint load_name (scope : list (string * pyobj)) (name : string)
  : result pyobj :=
  match scope with
  | [] => Raise NameError
  | (n, v) :: scope' =>
      if String.eqb n name then Ret v else load_name scope' name
  end.

Definition as_comps (o : pyobj) : result (list Component) :=
  match o with
  | ObjComps cs => Ret cs
  | _ => Raise TypeError
  end.

(** Modelled from the spec: the equality of [Component] objects, whose
    class (component_properties.py) is not among the sources; the spec
    gives a component a stable name-based identity. *)
Definition comp_eqb (c d : Component) : bool :=
  String.eqb (compname c) (compname d).

Fixpoint comps_eqb (a b : list Component) : bool :=
  match a, b with
  | [], [] => true
  | c :: a', d :: b' => comp_eqb c d && comps_eqb a' b'
  | _, _ => false
  end.

(** [bool(a)] of an empty numpy array: [False] with a deprecation
    warning up to NumPy 2.1, a ValueError from NumPy 2.2 on; the source
    pins no version, so the outcome is left open. *)
Variable np_bool_empty : result bool.

(** [not x]: a list is false when empty; an array of one entry has the
    truth value of the entry, an array of more entries has none. *)
Definition py_not (x : pyseq) : result bool :=
  match x with
  | PyList [] => Ret true
  | PyList _ => Ret false
  | NpArray [] => b <- np_bool_empty ;; Ret (negb b)
  | NpArray [v] => Ret (Req_b v 0)
  | NpArray _ => Raise ValueError
  end.

(** [calc].  The three branches of the length check all raise
    RuntimeError, the second after [not x] has been evaluated.  The
    result is [None] (with a printed warning) when the component list
    has changed. *)
Definition calc (fuel : nat) (self : Eos) (comps : list Component) (T P : R)
    (x : pyseq) (eq_fug : array) : option (result (Eos * option array)) :=
  let scope := calc_scope self comps T P x eq_fug in
  if negb (seq_len x =? List.length comps)%nat
  then
    if (List.length comps <? seq_len x)%nat then Some (Raise RuntimeError)
    else match py_not x with
         | Raise e => Some (Raise e)
         | Ret _ => Some (Raise RuntimeError)
         end
  else if negb (comps_eqb comps (own_comps self))
  then Some (Ret (self, None))
  else
    match (if negb (Req_b (own_T self) T) || negb (Req_b (own_P self) P)
           then (cs <- (o <- load_name scope "compobjs" ;; as_comps o) ;;
                 returned (make_constant_mats self cs T P))
           else Ret self) with
    | Raise e => Some (Raise e)
    | Ret self =>
        match (o <- load_name scope "compobjs" ;; as_comps o) with
        | Raise e => Some (Raise e)
        | Ret cs =>
            match fugacity fuel self cs T P (seq_items x) eq_fug with
            | None => None
            | Some (Raise e) => Some (Raise e)
            | Some (Ret (self, fg)) => Some (Ret (self, Some fg))
            end
        end
    end.

(** *** Construction *)

Fixpoint h2o_indices (cs : list Component) (ii : nat) : list nat :=
  match cs with
  | [] => []
  | c :: cs' =>
      if is_h2o c then ii :: h2o_indices cs' (S ii) else h2o_indices cs' (S ii)
  end.

(** [HydrateEos.__init__] up to the structure: the first index of a
    component named h2o, under [try ... except ValueError]. *)
Definition find_water (cs : list Component) : result nat :=
  try_except (getitem (h2o_indices cs 0) 0) ValueError (Raise RuntimeError).

(** The attributes [__init__] has assigned when it calls
    [make_constant_mats]. *)
Definition init_attrs (wi : nat) (hs : HydrateStructure) (Rt zt : Shells)
    (cs : list Component) (T P : R) : Eos :=
  let n := List.length cs in
  {| water_ind := wi; comps := cs; num_comps := n;
     T := T; P := P; gw0_RT := 0; Hs := hs;
     Y_small := np_zeros n; Y_large := np_zeros n; fug := FugInt0;
     R_sm := np_zeros (List.length (sm Rt));
     z_sm := firstn (List.length (sm Rt)) (sm zt);
     R_lg := np_zeros (List.length (lg Rt));
     z_lg := firstn (List.length (lg Rt)) (lg zt);
     kappa0 := kappa (eos hs);
     a0_cubed := lattice_to_volume hs (a0_ast (eos hs));
     kappa_vec := map (fun c => sp_kappa (HvdWPM c (hydstruc hs))) cs;
     rep_sm_vec := map (fun c => sp_rep_small (HvdWPM c (hydstruc hs))) cs;
     rep_lg_vec := map (fun c => sp_rep_large (HvdWPM c (hydstruc hs))) cs;
     D_vec := map diam cs;
     Y_small_0 := np_zeros n; Y_large_0 := np_zeros n;
     eq_fug := np_zeros n; stdstate_fug := map stdst_fug cs;
     gwbeta_RT := 0; vol_Tfactor := 0; lattice_Tfactor := 0;
     repulsive_small := []; repulsive_large := [];
     kappa_tmp := None; a_0 := None; v_H_0 := None;
     C_small := None; C_large := None; v_H := None;
     n_solves := 0 |}.

(** [HvdwpmEos.__init__], with [HydrateEos.__init__] inlined at [super]. *)
Definition HvdwpmEos_init (fuel : nat) (cs : list Component) (T P : R)
    (structure : pyval) : option (result Eos) :=
  let pre :=
    wi <- find_water cs ;;
    hs <- HydrateStructure_init structure ;;
    Rt <- getattr (R_tab (eos hs)) ;;
    zt <- getattr (z_tab (eos hs)) ;;
    _ <- getattr (a_norm (eos hs)) ;;
    returned (make_constant_mats (init_attrs wi hs Rt zt cs T P) cs T P) in
  match pre with
  | Raise e => Some (Raise e)
  | Ret self => find_stdstate_volume fuel self cs
  end.

End Integrator.

(** ** Hydrate composition *)

(** [hyd_comp]: the mole fractions in the hydrate; the entry of water is
    overwritten with what the others leave.  [Y_small] and [Y_large] have
    the same length on every instance. *)
Definition hyd_comp (self : Eos) : result array :=
  let hs := Hs self in
  let x_tmp :=
    map2 (fun ys yl => (Nm_small hs * ys + Nm_large hs * yl) / Num_h2o hs)
         (Y_small self) (Y_large self) in
  let x := map (fun v => v / (1 + np_sum x_tmp)) x_tmp in
  setitem x (water_ind self) (1 - np_sum x).

(** * Closed forms, invariants and sample data *)

(** The closed form of the occupancy vector. *)
Fixpoint occ (cs : list Component) (C f : array) (d : R) : array :=
  match cs, C, f with
  | comp :: cs', c :: C', e :: f' =>
      (if is_h2o comp then 0 else c * e / d) :: occ cs' C' f' d
  | _, _, _ => []
  end.

Definition nonneg (a : array) : Prop := Forall (fun v => 0 <= v) a.

(** The measure on aligned arrays, as the loop body accumulates it. *)
Fixpoint err_fold (cs : list Component) (Csn Cs Cln Cl : array)
    (acc : npfloat) : npfloat :=
  match cs, Csn, Cs, Cln, Cl with
  | comp :: cs', sn :: Csn', so :: Cs', ln_ :: Cln', lo :: Cl' =>
      err_fold cs' Csn' Cs' Cln' Cl'
        (if is_h2o comp then acc
         else np_add acc (np_add (np_absdiv (sn - so) sn)
                                 (np_absdiv (ln_ - lo) ln_)))
  | _, _, _, _, _ => acc
  end.

(** Every non-water component has non-zero new constants. *)
Fixpoint guests_nonzero (cs : list Component) (Csn Cln : array) : Prop :=
  match cs, Csn, Cln with
  | comp :: cs', sn :: Csn', ln_ :: Cln' =>
      (is_h2o comp = false -> sn <> 0 /\ ln_ <> 0)
      /\ guests_nonzero cs' Csn' Cln'
  | _, _, _ => True
  end.

(** The attributes no solver writes. *)
Definition same_static (s s' : Eos) : Prop :=
  water_ind s' = water_ind s /\ comps s' = comps s
  /\ num_comps s' = num_comps s /\ T s' = T s /\ P s' = P s
  /\ gw0_RT s' = gw0_RT s /\ Hs s' = Hs s
  /\ z_sm s' = z_sm s /\ z_lg s' = z_lg s
  /\ kappa0 s' = kappa0 s /\ a0_cubed s' = a0_cubed s
  /\ kappa_vec s' = kappa_vec s /\ rep_sm_vec s' = rep_sm_vec s
  /\ rep_lg_vec s' = rep_lg_vec s /\ D_vec s' = D_vec s
  /\ eq_fug s' = eq_fug s /\ stdstate_fug s' = stdstate_fug s
  /\ gwbeta_RT s' = gwbeta_RT s /\ vol_Tfactor s' = vol_Tfactor s
  /\ lattice_Tfactor s' = lattice_Tfactor s.

(** The attributes written only when a solve or a fugacity call ends. *)
Definition same_results (s s' : Eos) : Prop :=
  fug s' = fug s /\ kappa_tmp s' = kappa_tmp s /\ a_0 s' = a_0 s
  /\ v_H_0 s' = v_H_0 s /\ C_small s' = C_small s /\ C_large s' = C_large s
  /\ v_H s' = v_H s /\ n_solves s' = n_solves s.

Definition same_frame (s s' : Eos) : Prop := same_static s s' /\ same_results s s'.

(** The instance has the shells and the arrays the loops index. *)
Definition wf (s : Eos) : Prop :=
  List.length (comps s) = num_comps s
  /\ exists an Rt, a_norm (eos (Hs s)) = Some an
       /\ R_tab (eos (Hs s)) = Some Rt /\ sm Rt <> [] /\ lg Rt <> [].

(** What is known of every instance the constructor returns. *)
Record constructed (cs : list Component) (T0 P0 : R) (self : Eos) : Prop := {
  c_wf : wf self;
  c_comps : comps self = cs;
  c_num : num_comps self = List.length cs;
  c_T : T self = T0;
  c_P : P self = P0;
  c_water : find_water cs = Ret (water_ind self);
  c_kappa0 : kappa0 self = kappa (eos (Hs self));
  c_fug : fug self = FugInt0;
  c_eq_fug : eq_fug self = np_zeros (List.length cs);
  c_C_small : C_small self = None;
  c_C_large : C_large self = None;
  c_solves : n_solves self = O;
  c_a_0 : exists a, a_0 self = Some a;
  c_v_H_0 : exists v, v_H_0 self = Some v;
  c_kappa_tmp : exists kt, kappa_tmp self = Some kt
      /\ ((List.length cs <= 2)%nat -> kt = PyFloat (kappa (eos (Hs self))))
      /\ ((2 < List.length cs)%nat -> exists v, kt = NpFloat v)
}.

(** An integrator whose value does not depend on its arguments. *)
Definition quad_const (q : R) : (R -> R) -> R -> R -> R * R :=
  fun _ _ _ => (q, 0).

(** The constants it yields: [c] for a guest, 0 for water. *)
Definition const_C (cs : list Component) (c : R) : array :=
  map (fun comp => if is_h2o comp then 0 else c) cs.

Definition no_params : StructParams :=
  {| sp_kappa := 0; sp_rep_small := 0; sp_rep_large := 0 |}.

Definition water : Component := {|
  compname := "h2o"; diam := 0; stdst_fug := 0;
  HvdWPM := fun _ => no_params;
  kih := {| kih_a := 0; kih_epsk := 0; kih_sig := 0 |};
  gibbs_ideal := fun T P => - 228700 / (R_gas * T) + ln P |}.

Definition methane : Component := {|
  compname := "ch4"; diam := 4.247; stdst_fug := 1;
  HvdWPM := fun _ => {| sp_kappa := 1e-5; sp_rep_small := 1.7668e-2;
                        sp_rep_large := 1.0316e-2 |};
  kih := {| kih_a := 0.3834; kih_epsk := 155.593; kih_sig := 3.14393 |};
  gibbs_ideal := fun T P => - 50830 / (R_gas * T) + ln P |}.

Definition ethane : Component := {|
  compname := "c2h6"; diam := 5.076; stdst_fug := 1;
  HvdWPM := fun _ => {| sp_kappa := 1e-8; sp_rep_small := 0;
                        sp_rep_large := 2.5154e-2 |};
  kih := {| kih_a := 0.5651; kih_epsk := 188.181; kih_sig := 3.24693 |};
  gibbs_ideal := fun T P => - 32900 / (R_gas * T) + ln P |}.

(** The warm start, when there is one, has arrays of the right length. *)
Definition warm (s : Eos) : Prop :=
  match C_small s with
  | None => True
  | Some a =>
      List.length a = List.length (comps s)
      /\ exists b, C_large s = Some b /\ List.length b = List.length (comps s)
  end.

(** An instance of more than two components whose reference state is
    solved. *)
Definition ready (s : Eos) : Prop :=
  wf s /\ (2 < num_comps s)%nat
  /\ (exists v, kappa_tmp s = Some (NpFloat v))
  /\ (exists a, a_0 s = Some a) /\ (exists v, v_H_0 s = Some v)
  /\ warm s.

Definition no_h2o (cs : list Component) : Prop :=
  Forall (fun c => is_h2o c = false) cs.

(** The two integrals of a guest, as [langmuir_consts] asks for them. *)
Definition guest_upper (shells : array) (comp : Component) : R :=
  arr_min shells - kih_a (kih comp).

Section GuestIntegrals.

Variable quad : (R -> R) -> R -> R -> R * R.

Definition guest_int (shells z : array) (comp : Component) (T : R) : R :=
  fst (quad (fun r => integrand r shells z (kih_epsk (kih comp))
                        (kih_sig (kih comp)) (kih_a (kih comp)) T)
            0 (guest_upper shells comp)).

Definition langmuir_small (s : Eos) (T : R) (comp : Component) : R :=
  if is_h2o comp then 0
  else C_const_of T * guest_int (R_sm s) (z_sm s) comp T.

Definition langmuir_large (s : Eos) (T : R) (comp : Component) : R :=
  if is_h2o comp then 0
  else C_const_of T * guest_int (R_lg s) (z_lg s) comp T.

End GuestIntegrals.

(** The calls of the integrator, in order. *)
Fixpoint langmuir_calls (s : Eos) (cs : list Component) (ii : nat)
  : list QuadCall :=
  match cs with
  | [] => []
  | comp :: cs' =>
      (if is_h2o comp then []
       else [ {| qc_index := ii; qc_small := true;
                 qc_upper := guest_upper (R_sm s) comp |};
              {| qc_index := ii; qc_small := false;
                 qc_upper := guest_upper (R_lg s) comp |} ])
      ++ langmuir_calls s cs' (S ii)
  end.

(** The shell radii [compute_integral_constants] stores. *)
Definition scaled_shells (s : Eos) (an : R) (Rt : Shells) (P l k : R) : Eos :=
  let a_factor :=
    (l / an) * lattice_Tfactor s * Hydrate_size (Hs s) T_0 P 1 k linear in
  set_R s (map (fun r => r * a_factor) (sm Rt))
          (map (fun r => r * a_factor) (lg Rt)).

(** The midpoint rule, an integrator that looks at its bounds. *)
Definition quad_mid : (R -> R) -> R -> R -> R * R :=
  fun f a b => ((b - a) * f ((a + b) / 2), 0).

(** A guest whose hard core is wider than the small cage. *)
Definition bulky : Component := {|
  compname := "c60"; diam := 10; stdst_fug := 1;
  HvdWPM := fun _ => no_params;
  kih := {| kih_a := 5; kih_epsk := 100; kih_sig := 3 |};
  gibbs_ideal := fun T P => ln P |}.

Definition shells_R_s1 : Shells :=
  {| sm := [3.83; 3.96]; lg := [4.47; 4.06; 4.645; 4.25] |}.
Definition shells_z_s1 : Shells :=
  {| sm := [8; 12]; lg := [8; 8; 4; 4] |}.







(** An instance of [water; methane] on s1 with occupancies as a solve
    leaves them. *)
Definition filled_sample : Eos :=
  set_Y_0
    (set_Y (init_attrs 0 (structure_of s1) shells_R_s1 shells_z_s1
              [water; methane] T_0 P_0) [0; 0.5] [0; 0.25])
    [0; 0.5] [0; 0.25].

Definition all_zero (a : array) : Prop := Forall (fun v => v = 0) a.

(** ** The fixed-point loops, round by round *)

Section Rounds.

Variable quad : (R -> R) -> R -> R -> R * R.







(** The same for the loop of [find_hydrate_properties], at the T, P and
    fugacities of the call and the reference lattice size. *)
Definition hyd_vars : Type := (Eos * array * array * scalar * npfloat)%type.

Definition hyd_err (v : hyd_vars) : npfloat := snd v.

Definition hyd_out (v : hyd_vars) : Eos * array * array * scalar :=
  let '(self, Cs, Cl, k, _) := v in (self, Cs, Cl, k).

Definition hyd_run (fuel : nat) (cs : list Component) (T P : R) (f : array)
    (l : R) (v : hyd_vars) : option (result (Eos * array * array * scalar)) :=
  let '(self, Cs, Cl, k, e) := v in
  hydrate_loop quad fuel self cs T P f Cs Cl l k e.

Definition hyd_round (cs : list Component) (T P : R) (f : array) (l : R)
    (v : hyd_vars) : result hyd_vars :=
  let '(self, Cs, Cl, k, _) := v in
  r <- iterate_function quad self cs T P f l (sval k) ;;
  let '(self, (Csn, Cln, Ys, Yl)) := r in
  let self := set_Y self Ys Yl in
  let kap := kappa_func self (Y_large self) in
  e <- conv_error cs 0 Csn Cs Cln Cl (Fin 0) ;;
  Ret (self, Csn, Cln, kap, e).

Fixpoint hyd_after (n : nat) (cs : list Component) (T P : R) (f : array)
    (l : R) (v : hyd_vars) : option hyd_vars :=
  match n with
  | O => Some v
  | S n' =>
      if np_gt (hyd_err v) TOL then
        match hyd_round cs T P f l v with
        | Ret v' => hyd_after n' cs T P f l v'
        | Raise _ => None
        end
      else None
  end.

End Rounds.

(** * Properties *)

(** ** Occupancy function *)

Lemma getitem_app {A} (pre : list A) (v : A) (post : list A) :
  getitem (pre ++ v :: post) (List.length pre) = Ret v.
Proof.
  unfold getitem. rewrite nth_error_app2 by lia.
  replace (List.length pre - List.length pre)%nat with O by lia. reflexivity.
Qed.

Lemma calc_langmuir_loop_occ (d : R) (cs : list Component) :
  forall (preC preF C f : array),
    List.length preC = List.length preF ->
    List.length C = List.length cs -> List.length f = List.length cs ->
    calc_langmuir_loop cs (List.length preC) (preC ++ C) (preF ++ f) d
    = Ret (occ cs C f d).
Proof.
  induction cs as [|comp cs IH]; intros preC preF C f Hp HC Hf.
  - destruct C; destruct f; try discriminate; reflexivity.
  - destruct C as [|c C]; [discriminate|]. destruct f as [|e f]; [discriminate|].
    simpl in HC, Hf. cbn [calc_langmuir_loop occ].
    assert (Hstep : calc_langmuir_loop cs (S (List.length preC))
                      (preC ++ c :: C) (preF ++ e :: f) d
                    = Ret (occ cs C f d)).
    { specialize (IH (preC ++ [c]) (preF ++ [e]) C f).
      rewrite !length_app in IH. simpl in IH.
      rewrite <- !app_assoc in IH. simpl in IH.
      replace (List.length preC + 1)%nat with (S (List.length preC)) in IH by lia.
      apply IH; lia. }
    destruct (is_h2o comp); cbn [negb bind].
    + rewrite Hstep. reflexivity.
    + rewrite getitem_app. cbn [bind].
      rewrite Hp at 1. rewrite getitem_app. cbn [bind].
      rewrite Hstep. reflexivity.
Qed.

Lemma calc_langmuir_occ (self : Eos) (C f : array) :
  List.length C = List.length (comps self) ->
  List.length f = List.length (comps self) ->
  calc_langmuir self C f
  = Ret (occ (comps self) C f (1 + np_sum (arr_mul C f))).
Proof.
  intros HC Hf. unfold calc_langmuir, np_mul.
  rewrite HC, Hf, Nat.eqb_refl. cbn [bind].
  apply (calc_langmuir_loop_occ _ (comps self) [] [] C f); auto.
Qed.

Lemma sum_mul_nonneg (C f : array) :
  nonneg C -> nonneg f -> 0 <= np_sum (arr_mul C f).
Proof.
  intros HC. revert f. induction HC as [|c C Hc HC IH]; intros f Hf.
  - simpl. lra.
  - destruct Hf as [|e f He Hf]; simpl; [lra|].
    specialize (IH f Hf). unfold arr_mul in IH. nra.
Qed.

Lemma occ_bounds (d : R) (cs : list Component) :
  forall C f, 1 <= d -> nonneg C -> nonneg f ->
    nonneg (occ cs C f d)
    /\ np_sum (occ cs C f d) * d <= np_sum (arr_mul C f).
Proof.
  induction cs as [|comp cs IH]; intros C f Hd HC Hf.
  - simpl. split; [constructor|]. rewrite Rmult_0_l.
    apply sum_mul_nonneg; assumption.
  - destruct HC as [|c C Hc HC]; [simpl; split; [constructor|lra]|].
    destruct Hf as [|e f He Hf]; [simpl; split; [constructor|lra]|].
    destruct (IH C f Hd HC Hf) as [Hn Hs].
    cbn [occ np_sum arr_mul map2 fold_right].
    fold (arr_mul C f). fold (np_sum (arr_mul C f)).
    fold (np_sum (occ cs C f d)).
    assert (Hce : 0 <= c * e) by nra.
    destruct (is_h2o comp).
    + split; [constructor; [lra|assumption]|]. lra.
    + assert (Hq : 0 <= c * e / d).
      { apply Rmult_le_pos; [assumption|].
        left. apply Rinv_0_lt_compat. lra. }
      split; [constructor; assumption|].
      replace ((c * e / d + np_sum (occ cs C f d)) * d)
        with (c * e + np_sum (occ cs C f d) * d) by (field; lra).
      lra.
Qed.

Lemma nonneg_le_sum (a : array) :
  nonneg a -> Forall (fun v => v <= np_sum a) a.
Proof.
  induction 1 as [|x a Hx Ha IH]; constructor; simpl.
  - assert (0 <= np_sum a).
    { clear IH. induction Ha; simpl; [lra|]. unfold np_sum in *. lra. }
    unfold np_sum in *. lra.
  - eapply Forall_impl; [|exact IH]. simpl. intros v Hv.
    unfold np_sum in *. lra.
Qed.

Lemma occ_length (d : R) (cs : list Component) :
  forall C f, List.length C = List.length cs -> List.length f = List.length cs ->
    List.length (occ cs C f d) = List.length cs.
Proof.
  induction cs as [|c cs IH]; intros [|x C] [|y f] HC Hf;
    try discriminate; simpl; auto.
Qed.

Lemma occ_nth (d : R) (cs : list Component) :
  forall C f i comp c e,
    nth_error cs i = Some comp -> nth_error C i = Some c ->
    nth_error f i = Some e ->
    nth_error (occ cs C f d) i = Some (if is_h2o comp then 0 else c * e / d).
Proof.
  induction cs as [|c0 cs IH]; intros [|x C] [|y f] i comp c e Hi HCi Hfi;
    destruct i; simpl in *; try discriminate.
  - inversion Hi; inversion HCi; inversion Hfi; subst. reflexivity.
  - eapply IH; eauto.
Qed.

(** C8: the occupancy function returns, without touching the instance,
    Y[i] = C[i]*f[i] / (1 + sum_j C[j]*f[j]) at every non-water index and
    0 at water; for non-negative C and f the denominator is at least 1,
    every Y[i] is in [0, 1) and the occupancies sum to less than 1. *)
Theorem calc_langmuir_occupancy (self : Eos) (C f : array)
    (HC : List.length C = List.length (comps self))
    (Hf : List.length f = List.length (comps self))
    (HCpos : nonneg C) (Hfpos : nonneg f) :
  let denominator := 1 + np_sum (arr_mul C f) in
  exists Y,
    calc_langmuir self C f = Ret Y
    /\ List.length Y = List.length (comps self)
    /\ (forall i comp c e, nth_error (comps self) i = Some comp ->
          nth_error C i = Some c -> nth_error f i = Some e ->
          nth_error Y i
          = Some (if is_h2o comp then 0 else c * e / denominator))
    /\ 1 <= denominator
    /\ Forall (fun y => 0 <= y < 1) Y
    /\ np_sum Y < 1.
Proof.
  intros d. exists (occ (comps self) C f d).
  assert (Hd : 1 <= d) by (pose proof (sum_mul_nonneg C f HCpos Hfpos); unfold d; lra).
  destruct (occ_bounds d (comps self) C f Hd HCpos Hfpos) as [Hn Hs].
  assert (Hsum : np_sum (occ (comps self) C f d) < 1).
  { unfold d in Hs at 2. fold d in Hs.
    assert (np_sum (occ (comps self) C f d) * d < 1 * d) by (unfold d in *; lra).
    apply Rmult_lt_reg_r with d; lra. }
  split; [apply calc_langmuir_occ; assumption|].
  split; [apply occ_length; assumption|].
  split; [intros i comp c e; apply occ_nth|].
  split; [assumption|].
  split; [|assumption].
  pose proof (nonneg_le_sum _ Hn) as Hle.
  unfold nonneg in Hn. rewrite Forall_forall in Hn, Hle.
  apply Forall_forall. intros y Hy.
  specialize (Hn y Hy). specialize (Hle y Hy). simpl in *. lra.
Qed.

(** ** Convergence measure *)

Lemma conv_error_fold (cs : list Component) :
  forall (p1 p2 p3 p4 Csn Cs Cln Cl : array) (acc : npfloat),
    List.length p2 = List.length p1 -> List.length p3 = List.length p1 ->
    List.length p4 = List.length p1 ->
    List.length Csn = List.length cs -> List.length Cs = List.length cs ->
    List.length Cln = List.length cs -> List.length Cl = List.length cs ->
    conv_error cs (List.length p1) (p1 ++ Csn) (p2 ++ Cs) (p3 ++ Cln)
      (p4 ++ Cl) acc
    = Ret (err_fold cs Csn Cs Cln Cl acc).
Proof.
  induction cs as [|comp cs IH];
    intros p1 p2 p3 p4 Csn Cs Cln Cl acc H2 H3 H4 L1 L2 L3 L4.
  - reflexivity.
  - destruct Csn as [|sn Csn]; [discriminate|].
    destruct Cs as [|so Cs]; [discriminate|].
    destruct Cln as [|ln_ Cln]; [discriminate|].
    destruct Cl as [|lo Cl]; [discriminate|].
    simpl in L1, L2, L3, L4. cbn [conv_error err_fold].
    assert (Hnext : forall a,
      conv_error cs (S (List.length p1)) (p1 ++ sn :: Csn) (p2 ++ so :: Cs)
        (p3 ++ ln_ :: Cln) (p4 ++ lo :: Cl) a
      = Ret (err_fold cs Csn Cs Cln Cl a)).
    { intros a.
      specialize (IH (p1 ++ [sn]) (p2 ++ [so]) (p3 ++ [ln_]) (p4 ++ [lo])
                     Csn Cs Cln Cl a).
      rewrite !length_app in IH. simpl in IH.
      rewrite <- !app_assoc in IH. simpl in IH.
      replace (List.length p1 + 1)%nat with (S (List.length p1)) in IH by lia.
      apply IH; lia. }
    destruct (is_h2o comp); cbn [negb bind].
    + apply Hnext.
    + rewrite getitem_app. cbn [bind].
      rewrite <- H2 at 1. rewrite getitem_app. cbn [bind].
      rewrite <- H3 at 1. rewrite getitem_app. cbn [bind].
      rewrite <- H4 at 1. rewrite getitem_app. cbn [bind].
      apply Hnext.
Qed.

Lemma conv_error_0 (cs : list Component) (Csn Cs Cln Cl : array)
    (acc : npfloat) :
  List.length Csn = List.length cs -> List.length Cs = List.length cs ->
  List.length Cln = List.length cs -> List.length Cl = List.length cs ->
  conv_error cs 0 Csn Cs Cln Cl acc = Ret (err_fold cs Csn Cs Cln Cl acc).
Proof. intros. apply (conv_error_fold cs [] [] [] []); auto. Qed.

Lemma np_absdiv_finite (a b : R) : is_finite (np_absdiv a b) <-> b <> 0.
Proof.
  unfold np_absdiv, Req_b.
  destruct (Req_dec_T b 0) as [E|E].
  - destruct (Req_dec_T a 0); simpl; tauto.
  - simpl. tauto.
Qed.

Lemma np_add_finite (a b : npfloat) :
  is_finite (np_add a b) <-> is_finite a /\ is_finite b.
Proof. destruct a, b; simpl; tauto. Qed.

Lemma err_fold_finite (cs : list Component) :
  forall Csn Cs Cln Cl acc,
    List.length Csn = List.length cs -> List.length Cs = List.length cs ->
    List.length Cln = List.length cs -> List.length Cl = List.length cs ->
    (is_finite (err_fold cs Csn Cs Cln Cl acc)
     <-> is_finite acc /\ guests_nonzero cs Csn Cln).
Proof.
  induction cs as [|comp cs IH]; intros Csn Cs Cln Cl acc L1 L2 L3 L4.
  - destruct Csn, Cln; simpl; tauto.
  - destruct Csn as [|sn Csn]; [discriminate|].
    destruct Cs as [|so Cs]; [discriminate|].
    destruct Cln as [|ln_ Cln]; [discriminate|].
    destruct Cl as [|lo Cl]; [discriminate|].
    simpl in L1, L2, L3, L4. cbn [err_fold guests_nonzero].
    rewrite IH by lia.
    destruct (is_h2o comp).
    + split; [intros [? ?]; repeat split; auto; discriminate | tauto].
    + rewrite !np_add_finite, !np_absdiv_finite.
      split; [intros [[? [? ?]] ?]; auto | intros [? [H ?]]].
      destruct (H eq_refl). auto.
Qed.

(** C10: the convergence measure divides the change of every non-water
    component's small- and large-cage constant by the new constant, with
    no guard; it is a finite number exactly when every non-water
    component's new small- and large-cage constant is non-zero. *)
Theorem conv_error_finite_iff_nonzero (cs : list Component)
    (C_small_new C_small C_large_new C_large : array)
    (L1 : List.length C_small_new = List.length cs)
    (L2 : List.length C_small = List.length cs)
    (L3 : List.length C_large_new = List.length cs)
    (L4 : List.length C_large = List.length cs) :
  exists error,
    conv_error cs 0 C_small_new C_small C_large_new C_large (Fin 0)
    = Ret error
    /\ error = err_fold cs C_small_new C_small C_large_new C_large (Fin 0)
    /\ (is_finite error <-> guests_nonzero cs C_small_new C_large_new).
Proof.
  eexists. split.
  - apply (conv_error_fold cs [] [] [] []); auto.
  - split; [reflexivity|].
    rewrite err_fold_finite by assumption. simpl. tauto.
Qed.

(** ** What the solvers leave untouched *)

Lemma same_frame_refl (s : Eos) : same_frame s s.
Proof. unfold same_frame, same_static, same_results. intuition. Qed.

Lemma same_frame_trans (s1 s2 s3 : Eos) :
  same_frame s1 s2 -> same_frame s2 s3 -> same_frame s1 s3.
Proof.
  unfold same_frame, same_static, same_results. intros H1 H2.
  decompose [and] H1. decompose [and] H2.
  repeat split; congruence.
Qed.

Lemma same_static_trans (s1 s2 s3 : Eos) :
  same_static s1 s2 -> same_static s2 s3 -> same_static s1 s3.
Proof.
  unfold same_static. intros H1 H2.
  decompose [and] H1. decompose [and] H2.
  repeat split; congruence.
Qed.

Lemma set_R_frame s a b : same_frame s (set_R s a b).
Proof. unfold same_frame, same_static, same_results. simpl. intuition. Qed.

Lemma set_Y_0_frame s a b : same_frame s (set_Y_0 s a b).
Proof. unfold same_frame, same_static, same_results. simpl. intuition. Qed.

Lemma set_Y_frame s a b : same_frame s (set_Y s a b).
Proof. unfold same_frame, same_static, same_results. simpl. intuition. Qed.

Lemma set_repulsive_frame s a b : same_frame s (set_repulsive s a b).
Proof. unfold same_frame, same_static, same_results. simpl. intuition. Qed.

Lemma filled_lattice_size_frame s :
  same_frame s (fst (filled_lattice_size s)).
Proof. unfold filled_lattice_size, cage_distortion. simpl. apply set_repulsive_frame. Qed.

Lemma bind_Ret_inv {A B} (r : result A) (f : A -> result B) (b : B) :
  bind r f = Ret b -> exists a, r = Ret a /\ f a = Ret b.
Proof. destruct r; simpl; [eauto | discriminate]. Qed.

Lemma compute_integral_constants_frame s T P l k s' :
  compute_integral_constants s T P l k = Ret s' -> same_frame s s'.
Proof.
  unfold compute_integral_constants. intros H.
  apply bind_Ret_inv in H. destruct H as [an [_ H]].
  apply bind_Ret_inv in H. destruct H as [Rt [_ H]].
  inversion H. apply set_R_frame.
Qed.

Section Frames.

Variable quad : (R -> R) -> R -> R -> R * R.

Lemma langmuir_consts_frame s cs T P l k s' out :
  langmuir_consts quad s cs T P l k = Ret (s', out) -> same_frame s s'.
Proof.
  unfold langmuir_consts. intros H.
  apply bind_Ret_inv in H. destruct H as [s1 [H1 H]].
  destruct (Req_b (k_B * T) 0); [discriminate|].
  apply bind_Ret_inv in H. destruct H as [o [_ H]].
  inversion H; subst. eapply compute_integral_constants_frame; eauto.
Qed.

Lemma iterate_function_frame s cs T P f l k s' out :
  iterate_function quad s cs T P f l k = Ret (s', out) -> same_frame s s'.
Proof.
  unfold iterate_function. intros H.
  apply bind_Ret_inv in H. destruct H as [[s1 [[Cs Cl] calls]] [H1 H]].
  apply bind_Ret_inv in H. destruct H as [Ys [_ H]].
  apply bind_Ret_inv in H. destruct H as [Yl [_ H]].
  inversion H; subst. eapply langmuir_consts_frame; eauto.
Qed.

Lemma stdstate_loop_frame fuel :
  forall s cs Cs Cl l k e s' l' k',
    stdstate_loop quad fuel s cs Cs Cl l k e = Some (Ret (s', l', k')) ->
    same_frame s s'.
Proof.
  induction fuel as [|fuel IH]; intros s cs Cs Cl l k e s' l' k' H;
    cbn [stdstate_loop] in H; destruct (np_gt e TOL).
  - discriminate.
  - inversion H; subst. apply same_frame_refl.
  - destruct (iterate_function quad s cs T_0 P_0 (stdstate_fug s) l (sval k))
      as [[s1 [[[Csn Cln] Ys] Yl]]|] eqn:Hit; [|discriminate].
    destruct (filled_lattice_size (set_Y_0 s1 Ys Yl)) as [s2 l2] eqn:Hfl.
    destruct (conv_error cs 0 Csn Cs Cln Cl (Fin 0)) as [e'|]; [|discriminate].
    apply IH in H.
    apply iterate_function_frame in Hit.
    pose proof (filled_lattice_size_frame (set_Y_0 s1 Ys Yl)) as H2.
    rewrite Hfl in H2. simpl in H2.
    eapply same_frame_trans; [exact Hit|].
    eapply same_frame_trans; [apply set_Y_0_frame|].
    eapply same_frame_trans; [exact H2 | exact H].
  - inversion H; subst. apply same_frame_refl.
Qed.

Lemma hydrate_loop_frame fuel :
  forall s cs T P f Cs Cl l k e s' Cs' Cl' k',
    hydrate_loop quad fuel s cs T P f Cs Cl l k e
    = Some (Ret (s', Cs', Cl', k')) ->
    same_frame s s'.
Proof.
  induction fuel as [|fuel IH]; intros s cs T P f Cs Cl l k e s' Cs' Cl' k' H;
    cbn [hydrate_loop] in H; destruct (np_gt e TOL).
  - discriminate.
  - inversion H; subst. apply same_frame_refl.
  - destruct (iterate_function quad s cs T P f l (sval k))
      as [[s1 [[[Csn Cln] Ys] Yl]]|] eqn:Hit; [|discriminate].
    destruct (conv_error cs 0 Csn Cs Cln Cl (Fin 0)) as [e'|]; [|discriminate].
    apply IH in H.
    apply iterate_function_frame in Hit.
    eapply same_frame_trans; [exact Hit|].
    eapply same_frame_trans; [apply set_Y_frame | exact H].
  - inversion H; subst. apply same_frame_refl.
Qed.

End Frames.

(** ** The state a constructor leaves *)

Lemma wf_frame s s' : same_frame s s' -> wf s -> wf s'.
Proof.
  intros [Hst _] [Hl Ht].
  destruct Hst as (_ & Ecs & En & _ & _ & _ & EHs & _).
  unfold wf. rewrite Ecs, En, EHs. auto.
Qed.

Lemma HydrateStructure_init_structure_of (v : pyval) (hs : HydrateStructure) :
  HydrateStructure_init v = Ret hs -> exists h, hs = structure_of h.
Proof.
  unfold HydrateStructure_init. cbv zeta. intros H.
  destruct (py_in (PyStr (lower (py_str v))) (menu s1));
    [exists s1; congruence|].
  destruct (py_in (PyStr (lower (py_str v))) (menu s2));
    [exists s2; congruence|].
  destruct (py_in (PyStr (lower (py_str v))) (menu sH));
    [exists sH; congruence|].
  destruct v; discriminate H.
Qed.

Lemma structure_of_shells (h : hydstruc_t) (Rt : Shells) :
  R_tab (eos (structure_of h)) = Some Rt -> sm Rt <> [] /\ lg Rt <> [].
Proof.
  destruct h; cbn; intros H; inversion H; subst; cbn; split; discriminate.
Qed.

Section Construction.

Variable quad : (R -> R) -> R -> R -> R * R.

Lemma kappa_func_single (s : Eos) (Y : array) :
  (num_comps s <= 2)%nat -> kappa_func s Y = PyFloat (kappa0 s).
Proof.
  intros H. unfold kappa_func.
  destruct (2 <? num_comps s)%nat eqn:E; [|reflexivity].
  apply Nat.ltb_lt in E. lia.
Qed.

Lemma kappa_func_numpy (s : Eos) (Y : array) :
  (2 < num_comps s)%nat -> exists v, kappa_func s Y = NpFloat v.
Proof.
  intros H. unfold kappa_func.
  destruct (2 <? num_comps s)%nat eqn:E; [eauto|].
  apply Nat.ltb_ge in E. lia.
Qed.

(** The compressibility a reference-state loop ends with has the type
    of its last update. *)
Lemma stdstate_loop_kappa fuel :
  forall s cs Cs Cl l k e s' l' k',
    stdstate_loop quad fuel s cs Cs Cl l k e = Some (Ret (s', l', k')) ->
    (num_comps s <= 2)%nat -> k = PyFloat (kappa0 s) ->
    k' = PyFloat (kappa0 s).
Proof.
  induction fuel as [|fuel IH]; intros s cs Cs Cl l k e s' l' k' H Hn Hk;
    cbn [stdstate_loop] in H; destruct (np_gt e TOL).
  - discriminate.
  - inversion H; subst. reflexivity.
  - destruct (iterate_function quad s cs T_0 P_0 (stdstate_fug s) l (sval k))
      as [[s1 [[[Csn Cln] Ys] Yl]]|] eqn:Hit; [|discriminate].
    destruct (filled_lattice_size (set_Y_0 s1 Ys Yl)) as [s2 l2] eqn:Hfl.
    destruct (conv_error cs 0 Csn Cs Cln Cl (Fin 0)) as [e'|]; [|discriminate].
    apply iterate_function_frame in Hit.
    pose proof (filled_lattice_size_frame (set_Y_0 s1 Ys Yl)) as H2.
    rewrite Hfl in H2. simpl in H2.
    assert (Hf : same_frame s s2).
    { eapply same_frame_trans; [exact Hit|].
      eapply same_frame_trans; [apply set_Y_0_frame | exact H2]. }
    destruct Hf as [Hst _]. unfold same_static in Hst. decompose [and] Hst.
    apply IH in H; [congruence | lia |].
    rewrite kappa_func_single by lia. reflexivity.
  - inversion H; subst. reflexivity.
Qed.

(** A loop that ran at least once with more than two components ends
    with a numpy scalar. *)
Lemma stdstate_loop_kappa_numpy fuel :
  forall s cs Cs Cl l k e s' l' k',
    stdstate_loop quad fuel s cs Cs Cl l k e = Some (Ret (s', l', k')) ->
    (2 < num_comps s)%nat ->
    (np_gt e TOL = true \/ exists v, k = NpFloat v) ->
    exists v, k' = NpFloat v.
Proof.
  induction fuel as [|fuel IH]; intros s cs Cs Cl l k e s' l' k' H Hn Hk;
    cbn [stdstate_loop] in H; destruct (np_gt e TOL) eqn:He.
  - discriminate.
  - inversion H; subst. destruct Hk as [Hk|Hk]; [discriminate | exact Hk].
  - destruct (iterate_function quad s cs T_0 P_0 (stdstate_fug s) l (sval k))
      as [[s1 [[[Csn Cln] Ys] Yl]]|] eqn:Hit; [|discriminate].
    destruct (filled_lattice_size (set_Y_0 s1 Ys Yl)) as [s2 l2] eqn:Hfl.
    destruct (conv_error cs 0 Csn Cs Cln Cl (Fin 0)) as [e'|]; [|discriminate].
    apply iterate_function_frame in Hit.
    pose proof (filled_lattice_size_frame (set_Y_0 s1 Ys Yl)) as H2.
    rewrite Hfl in H2. simpl in H2.
    assert (Hf : same_frame s s2).
    { eapply same_frame_trans; [exact Hit|].
      eapply same_frame_trans; [apply set_Y_0_frame | exact H2]. }
    destruct Hf as [Hst _]. unfold same_static in Hst. decompose [and] Hst.
    apply IH in H; [exact H | lia |].
    right. apply kappa_func_numpy. lia.
  - inversion H; subst. destruct Hk as [Hk|Hk]; [discriminate | exact Hk].
Qed.

Lemma Rgt_b_1e6_TOL : np_gt (Fin 1e6) TOL = true.
Proof.
  unfold np_gt, Rgt_b, TOL. destruct (Rgt_dec 1e6 1e-3); [reflexivity|]. lra.
Qed.

Lemma HvdwpmEos_init_constructed fuel cs T0 P0 structure self :
  HvdwpmEos_init quad fuel cs T0 P0 structure = Some (Ret self) ->
  constructed cs T0 P0 self.
Proof.
  unfold HvdwpmEos_init. intros H.
  destruct (find_water cs) as [wi|] eqn:Hw; [|discriminate]. cbn [bind] in H.
  destruct (HydrateStructure_init structure) as [hs|] eqn:Hhs; [|discriminate].
  cbn [bind] in H.
  destruct (R_tab (eos hs)) as [Rt|] eqn:HRt; [|discriminate].
  cbn [getattr bind] in H.
  destruct (z_tab (eos hs)) as [zt|]; [|discriminate]. cbn [getattr bind] in H.
  destruct (a_norm (eos hs)) as [an|] eqn:Han; [|discriminate].
  cbn [getattr bind] in H.
  unfold make_constant_mats in H. cbn [water_ind init_attrs] in H.
  destruct (getitem cs wi) as [w|]; [|discriminate]. cbn [returned] in H.
  unfold find_stdstate_volume in H.
  match type of H with
  | match stdstate_loop _ _ ?s0 _ _ _ _ _ _ with _ => _ end = _ =>
      set (s1 := s0) in *
  end.
  destruct (stdstate_loop quad fuel s1 cs (np_zeros (num_comps s1))
              (np_zeros (num_comps s1)) (a0_ast (eos (Hs s1)))
              (PyFloat (kappa0 s1)) (Fin 1e6))
    as [[[[s' l'] k']|]|] eqn:Hloop; try discriminate.
  inversion H; subst self; clear H.
  pose proof (stdstate_loop_frame _ _ _ _ _ _ _ _ _ _ _ _ Hloop) as [Hst Hres].
  destruct Hst as (Ewi & Ecs & En & ET & EP & Egw & EHs & Ezs & Ezl & Ek0
                   & Ea0 & Ekv & Ers & Erl & ED & Eeq & Estd & Egb & Evt & Elt).
  destruct Hres as (Efug & Ekt & Ea & Ev & ECs & ECl & EvH & Ens).
  constructor; cbn.
  all: try (first [rewrite Ecs | rewrite En | rewrite ET | rewrite EP
                  | rewrite Efug | rewrite Eeq | rewrite ECs | rewrite ECl
                  | rewrite Ens ]; reflexivity).
  all: eauto.
  - unfold wf. cbn. rewrite Ecs, En, EHs. cbn. split; [reflexivity|].
    exists an, Rt. repeat split; auto.
    + apply HydrateStructure_init_structure_of in Hhs. destruct Hhs as [h ->].
      apply (structure_of_shells h Rt HRt).
    + apply HydrateStructure_init_structure_of in Hhs. destruct Hhs as [h ->].
      apply (structure_of_shells h Rt HRt).
  - rewrite Ewi. exact Hw.
  - rewrite Ek0, EHs. reflexivity.
  - exists k'. split; [reflexivity|]. split.
    + intros Hle.
      rewrite (stdstate_loop_kappa _ _ _ _ _ _ _ _ _ _ _ Hloop) by
          (auto; cbn; lia).
      rewrite EHs. reflexivity.
    + intros Hlt.
      apply (stdstate_loop_kappa_numpy _ _ _ _ _ _ _ _ _ _ _ Hloop);
        [cbn; lia | left; apply Rgt_b_1e6_TOL].
Qed.

End Construction.

(** ** Two-component systems *)

(** C9: for an instance built from two components the compressibility
    update returns the nominal compressibility of the constant table as
    a Python float, [kappa_tmp] holds that float after construction, and
    the [.copy()] of the operating-state solve raises AttributeError, so
    that every operating-state solve and every fugacity computation on
    the instance raises AttributeError. *)
Theorem single_guest_solve_raises_AttributeError
    (quad : (R -> R) -> R -> R -> R * R) (fuel : nat)
    (cs : list Component) (T0 P0 : R) (structure : pyval) (self : Eos)
    (Hinit : HvdwpmEos_init quad fuel cs T0 P0 structure = Some (Ret self))
    (Hn : List.length cs = 2%nat) :
  (forall Y, kappa_func self Y = PyFloat (kappa (eos (Hs self))))
  /\ kappa_tmp self = Some (PyFloat (kappa (eos (Hs self))))
  /\ (forall fuel' compobjs T P eqf,
        find_hydrate_properties quad fuel' self compobjs T P eqf
        = Some (Raise AttributeError))
  /\ (forall fuel' compobjs T P x eqf,
        List.length eqf = num_comps self ->
        fugacity quad fuel' self compobjs T P x eqf
        = Some (Raise AttributeError)).
Proof.
  apply HvdwpmEos_init_constructed in Hinit.
  destruct Hinit as [Hwf Ecs En ET EP Ew Ek0 Efug Eeq ECs ECl Ens [a Ea] [v Ev]
                       [kt [Ekt [Hpy _]]]].
  rewrite Hpy in Ekt by lia.
  assert (Hsolve : forall fuel' compobjs T P eqf,
             find_hydrate_properties quad fuel' self compobjs T P eqf
             = Some (Raise AttributeError)).
  { intros. unfold find_hydrate_properties. cbn.
    rewrite ECs, Ekt. reflexivity. }
  split; [|split; [exact Ekt | split; [exact Hsolve|]]].
  - intros Y. rewrite kappa_func_single by lia. rewrite Ek0. reflexivity.
  - intros fuel' compobjs T P x eqf Hlen. unfold fugacity.
    rewrite Hlen, Nat.eqb_refl. cbn [negb].
    rewrite Efug, Hsolve.
    destruct (all_eq eqf (eq_fug self)); reflexivity.
Qed.

(** ** Runs with an integrator that returns one value *)

Lemma setitem_app (pre : array) (x v : R) (post : array) :
  setitem (pre ++ x :: post) (List.length pre) v = Ret (pre ++ v :: post).
Proof.
  induction pre as [|p pre IH]; simpl; [reflexivity|].
  rewrite IH. reflexivity.
Qed.

Lemma const_C_length cs c : List.length (const_C cs c) = List.length cs.
Proof. apply length_map. Qed.

Lemma np_zeros_length n : List.length (np_zeros n) = n.
Proof. apply repeat_length. Qed.

Lemma langmuir_loop_const (q : R) (s : Eos) (T Cc : R) (cs : list Component) :
  R_sm s <> [] -> R_lg s <> [] ->
  forall (p1 p2 Cs Cl : array) calls,
    List.length p2 = List.length p1 ->
    List.length Cs = List.length cs -> List.length Cl = List.length cs ->
    exists calls',
      langmuir_loop (quad_const q) s cs (List.length p1) T Cc
        (p1 ++ Cs) (p2 ++ Cl) calls
      = Ret (p1 ++ const_C cs (Cc * q), p2 ++ const_C cs (Cc * q), calls').
Proof.
  intros Hs_ne Hl_ne.
  induction cs as [|comp cs IH]; intros p1 p2 Cs Cl calls Hp L1 L2.
  - destruct Cs; [|discriminate]. destruct Cl; [|discriminate].
    exists calls. reflexivity.
  - destruct Cs as [|x Cs]; [discriminate|].
    destruct Cl as [|y Cl]; [discriminate|].
    simpl in L1, L2. cbn [langmuir_loop const_C map].
    assert (Hnext : forall v w calls0, exists calls',
      langmuir_loop (quad_const q) s cs (S (List.length p1)) T Cc
        (p1 ++ v :: Cs) (p2 ++ w :: Cl) calls0
      = Ret (p1 ++ v :: const_C cs (Cc * q),
             p2 ++ w :: const_C cs (Cc * q), calls')).
    { intros v w calls0.
      destruct (IH (p1 ++ [v]) (p2 ++ [w]) Cs Cl calls0) as [calls' Hc];
        [rewrite !length_app; simpl; lia | lia | lia |].
      exists calls'. rewrite length_app in Hc. simpl in Hc.
      rewrite <- !app_assoc in Hc. simpl in Hc.
      replace (List.length p1 + 1)%nat with (S (List.length p1)) in Hc by lia.
      exact Hc. }
    destruct (is_h2o comp); cbn [negb].
    + rewrite setitem_app. cbn [bind].
      rewrite <- Hp. rewrite setitem_app. cbn [bind]. rewrite Hp.
      apply Hnext.
    + unfold py_min.
      destruct (R_sm s) as [|r0 rs] eqn:E1; [contradiction|].
      destruct (R_lg s) as [|r1 rl] eqn:E2; [contradiction|].
      cbn [bind quad_const fst].
      rewrite setitem_app. cbn [bind].
      rewrite <- Hp. rewrite setitem_app. cbn [bind]. rewrite Hp.
      apply Hnext.
Qed.

Lemma map_neq_nil {A B} (f : A -> B) (l : list A) : l <> [] -> map f l <> [].
Proof. destruct l; [contradiction | discriminate]. Qed.

Lemma Req_b_false (a b : R) : a <> b -> Req_b a b = false.
Proof. intros H. unfold Req_b. destruct (Req_dec_T a b); [contradiction|reflexivity]. Qed.

Lemma Req_b_true (a : R) : Req_b a a = true.
Proof. unfold Req_b. destruct (Req_dec_T a a); [reflexivity|contradiction]. Qed.

Lemma k_B_T_neq0 (T : R) : T <> 0 -> k_B * T <> 0.
Proof. intros H. unfold k_B. apply Rmult_integral_contrapositive. split; [lra|assumption]. Qed.

Lemma iterate_function_const (q : R) (s : Eos) (T P l k : R) (f : array) :
  wf s -> T <> 0 -> List.length f = List.length (comps s) ->
  exists s' Ys Yl,
    iterate_function (quad_const q) s (comps s) T P f l k
    = Ret (s', (const_C (comps s) (C_const_of T * q),
                const_C (comps s) (C_const_of T * q), Ys, Yl))
    /\ same_frame s s'.
Proof.
  intros [Hlen (an & Rt & Han & HRt & Hsm & Hlg)] HT Hf.
  cut (exists s' Ys Yl,
    iterate_function (quad_const q) s (comps s) T P f l k
    = Ret (s', (const_C (comps s) (C_const_of T * q),
                const_C (comps s) (C_const_of T * q), Ys, Yl))).
  { intros (s' & Ys & Yl & H). exists s', Ys, Yl. split; [exact H|].
    eapply iterate_function_frame; eauto. }
  unfold iterate_function, langmuir_consts, compute_integral_constants.
  rewrite Han, HRt. cbn [getattr bind].
  rewrite (Req_b_false _ _ (k_B_T_neq0 T HT)).
  match goal with
  | |- context [langmuir_loop _ ?s1 _ _ _ _ _ _ _] => set (s' := s1)
  end.
  change (num_comps s') with (num_comps s).
  destruct (langmuir_loop_const q s' T (C_const_of T) (comps s)) with
    (p1 := @nil R) (p2 := @nil R) (Cs := np_zeros (num_comps s))
    (Cl := np_zeros (num_comps s)) (calls := @nil QuadCall) as [calls' Hc].
  - subst s'. cbn. apply map_neq_nil. assumption.
  - subst s'. cbn. apply map_neq_nil. assumption.
  - reflexivity.
  - rewrite np_zeros_length. lia.
  - rewrite np_zeros_length. lia.
  - cbn [app List.length] in Hc. rewrite Hc. cbn [bind].
    rewrite !calc_langmuir_occ by
        (subst s'; cbn; rewrite ?const_C_length; auto).
    cbn [bind]. eauto.
Qed.

Lemma guests_nonzero_const (cs : list Component) (c : R) :
  c <> 0 -> guests_nonzero cs (const_C cs c) (const_C cs c).
Proof.
  intros Hc. induction cs as [|comp cs IH]; simpl; [exact I|].
  split; [|exact IH]. intros E. rewrite E. auto.
Qed.

Lemma err_fold_const_same (cs : list Component) (c : R) :
  c <> 0 ->
  err_fold cs (const_C cs c) (const_C cs c) (const_C cs c) (const_C cs c)
    (Fin 0) = Fin 0.
Proof.
  intros Hc. induction cs as [|comp cs IH]; simpl; [reflexivity|].
  destruct (is_h2o comp); [exact IH|].
  unfold np_absdiv. rewrite (Req_b_false c 0 Hc). simpl.
  replace (0 + (Rabs (c - c) / c + Rabs (c - c) / c)) with 0; [exact IH|].
  replace (c - c) with 0 by ring. rewrite Rabs_R0. field. exact Hc.
Qed.

Lemma err_fold_const_finite (cs : list Component) (c : R) (Cs Cl : array) :
  c <> 0 ->
  List.length Cs = List.length cs -> List.length Cl = List.length cs ->
  exists v, err_fold cs (const_C cs c) Cs (const_C cs c) Cl (Fin 0) = Fin v.
Proof.
  intros Hc L1 L2.
  assert (H : is_finite (err_fold cs (const_C cs c) Cs (const_C cs c) Cl (Fin 0))).
  { apply err_fold_finite; rewrite ?const_C_length; auto.
    split; [exact I | apply guests_nonzero_const; exact Hc]. }
  destruct (err_fold cs (const_C cs c) Cs (const_C cs c) Cl (Fin 0));
    [eauto | contradiction | contradiction].
Qed.

Lemma np_gt_0_TOL : np_gt (Fin 0) TOL = false.
Proof.
  unfold np_gt, Rgt_b, TOL. destruct (Rgt_dec 0 1e-3); [lra|reflexivity].
Qed.

Lemma T_0_neq0 : T_0 <> 0.
Proof. unfold T_0. lra. Qed.

Lemma stdstate_step (q : R) (fuel : nat) (s : Eos) (Cs Cl : array) (l : R)
    (k : scalar) (e : npfloat) :
  wf s -> List.length (stdstate_fug s) = List.length (comps s) ->
  List.length Cs = List.length (comps s) ->
  List.length Cl = List.length (comps s) ->
  np_gt e TOL = true ->
  let CC := const_C (comps s) (C_const_of T_0 * q) in
  exists s2 l2 k2,
    same_frame s s2
    /\ stdstate_loop (quad_const q) (S fuel) s (comps s) Cs Cl l k e
       = stdstate_loop (quad_const q) fuel s2 (comps s) CC CC l2 k2
           (err_fold (comps s) CC Cs CC Cl (Fin 0)).
Proof.
  intros Hwf Hf L1 L2 He CC.
  destruct (iterate_function_const q s T_0 P_0 l (sval k) (stdstate_fug s)
              Hwf T_0_neq0 Hf) as (s1 & Ys & Yl & Hit & Hfr).
  cbn [stdstate_loop]. rewrite He, Hit.
  unfold filled_lattice_size. fold CC.
  rewrite (conv_error_0 (comps s) CC Cs CC Cl (Fin 0))
    by (unfold CC; rewrite ?const_C_length; auto).
  do 3 eexists. split; [|reflexivity].
  eapply same_frame_trans; [exact Hfr|].
  eapply same_frame_trans; [apply set_Y_0_frame|].
  apply set_repulsive_frame.
Qed.

(** With such an integrator the reference-state loop ends within two
    rounds, whatever it starts from. *)
Lemma stdstate_loop_const (q : R) (s : Eos) (Cs Cl : array) (l : R)
    (k : scalar) (e : npfloat) :
  C_const_of T_0 * q <> 0 ->
  wf s -> List.length (stdstate_fug s) = List.length (comps s) ->
  List.length Cs = List.length (comps s) ->
  List.length Cl = List.length (comps s) ->
  exists r,
    stdstate_loop (quad_const q) 2 s (comps s) Cs Cl l k e = Some (Ret r).
Proof.
  intros Hc Hwf Hf L1 L2.
  destruct (np_gt e TOL) eqn:He.
  2:{ cbn [stdstate_loop]. rewrite He. eauto. }
  destruct (stdstate_step q 1 s Cs Cl l k e Hwf Hf L1 L2 He)
    as (s2 & l2 & k2 & Hfr & Hstep).
  rewrite Hstep. clear Hstep.
  pose proof Hfr as [(_ & Ecs & _ & _ & _ & _ & _ & _ & _ & _ & _ & _
                      & _ & _ & _ & _ & Estd & _) _].
  assert (Hwf2 : wf s2) by (eapply wf_frame; eauto).
  rewrite <- Ecs.
  remember (err_fold (comps s2) (const_C (comps s2) (C_const_of T_0 * q)) Cs
              (const_C (comps s2) (C_const_of T_0 * q)) Cl (Fin 0)) as e1.
  destruct (np_gt e1 TOL) eqn:He2.
  2:{ cbn [stdstate_loop]. rewrite He2. eauto. }
  destruct (stdstate_step q 0 s2 (const_C (comps s2) (C_const_of T_0 * q))
              (const_C (comps s2) (C_const_of T_0 * q)) l2 k2 e1 Hwf2)
    as (s3 & l3 & k3 & _ & Hstep);
    [congruence | apply const_C_length | apply const_C_length | exact He2 |].
  rewrite Hstep.
  rewrite err_fold_const_same by exact Hc.
  cbn [stdstate_loop]. rewrite np_gt_0_TOL. eauto.
Qed.

Lemma hydrate_step (q : R) (fuel : nat) (s : Eos) (T P : R) (f Cs Cl : array)
    (l : R) (k : scalar) (e : npfloat) :
  wf s -> T <> 0 -> List.length f = List.length (comps s) ->
  List.length Cs = List.length (comps s) ->
  List.length Cl = List.length (comps s) ->
  np_gt e TOL = true ->
  let CC := const_C (comps s) (C_const_of T * q) in
  exists s2 Y,
    same_frame s s2
    /\ hydrate_loop (quad_const q) (S fuel) s (comps s) T P f Cs Cl l k e
       = hydrate_loop (quad_const q) fuel s2 (comps s) T P f CC CC l
           (kappa_func s2 Y) (err_fold (comps s) CC Cs CC Cl (Fin 0)).
Proof.
  intros Hwf HT Hf L1 L2 He CC.
  destruct (iterate_function_const q s T P l (sval k) f Hwf HT Hf)
    as (s1 & Ys & Yl & Hit & Hfr).
  cbn [hydrate_loop]. rewrite He, Hit. fold CC.
  rewrite (conv_error_0 (comps s) CC Cs CC Cl (Fin 0))
    by (unfold CC; rewrite ?const_C_length; auto).
  do 2 eexists. split; [|reflexivity].
  eapply same_frame_trans; [exact Hfr | apply set_Y_frame].
Qed.

(** The operating-state loop, likewise: it ends within two rounds with
    the constants of the integrator, and with a compressibility of the
    type its start or its last update has. *)
Lemma hydrate_loop_const (q : R) (s : Eos) (T P : R) (f Cs Cl : array)
    (l : R) (k : scalar) :
  C_const_of T * q <> 0 -> T <> 0 ->
  wf s -> List.length f = List.length (comps s) ->
  List.length Cs = List.length (comps s) ->
  List.length Cl = List.length (comps s) ->
  exists s' Y,
    hydrate_loop (quad_const q) 2 s (comps s) T P f Cs Cl l k (Fin 1e6)
    = Some (Ret (s', const_C (comps s) (C_const_of T * q),
                 const_C (comps s) (C_const_of T * q), kappa_func s' Y))
    /\ same_frame s s'.
Proof.
  intros Hc HT Hwf Hf L1 L2.
  destruct (hydrate_step q 1 s T P f Cs Cl l k (Fin 1e6) Hwf HT Hf L1 L2
              Rgt_b_1e6_TOL) as (s2 & Y2 & Hfr & Hstep).
  rewrite Hstep. clear Hstep.
  pose proof Hfr as [(_ & Ecs & _) _].
  assert (Hwf2 : wf s2) by (eapply wf_frame; eauto).
  rewrite <- Ecs.
  remember (err_fold (comps s2) (const_C (comps s2) (C_const_of T * q)) Cs
              (const_C (comps s2) (C_const_of T * q)) Cl (Fin 0)) as e1.
  destruct (np_gt e1 TOL) eqn:He2.
  2:{ cbn [hydrate_loop]. rewrite He2. exists s2, Y2. split; [reflexivity|exact Hfr]. }
  destruct (hydrate_step q 0 s2 T P f (const_C (comps s2) (C_const_of T * q))
              (const_C (comps s2) (C_const_of T * q)) l (kappa_func s2 Y2) e1
              Hwf2 HT)
    as (s3 & Y3 & Hfr3 & Hstep);
    [congruence | apply const_C_length | apply const_C_length | exact He2 |].
  rewrite Hstep.
  rewrite err_fold_const_same by exact Hc.
  cbn [hydrate_loop]. rewrite np_gt_0_TOL.
  exists s3, Y3. split; [reflexivity|].
  eapply same_frame_trans; eauto.
Qed.

Lemma C_const_neq0 (T q : R) : T <> 0 -> q <> 0 -> C_const_of T * q <> 0.
Proof.
  intros HT Hq. unfold C_const_of.
  apply Rmult_integral_contrapositive. split; [|exact Hq].
  pose proof PI_RGT_0. pose proof (k_B_T_neq0 T HT).
  unfold Rdiv.
  apply Rmult_integral_contrapositive_currified; [|lra].
  apply Rmult_integral_contrapositive_currified;
    [|apply Rinv_neq_0_compat; assumption].
  apply Rmult_integral_contrapositive_currified; [simpl; lra | lra].
Qed.

(** Construction succeeds with such an integrator, on structures s1
    and s2, as soon as the list holds a component named h2o. *)
Lemma HvdwpmEos_init_const (q : R) (cs : list Component) (T0 P0 : R)
    (structure : pyval) (h : hydstruc_t) (wi : nat) (w : Component) :
  q <> 0 -> find_water cs = Ret wi -> getitem cs wi = Ret w ->
  HydrateStructure_init structure = Ret (structure_of h) -> h <> sH ->
  exists self,
    HvdwpmEos_init (quad_const q) 2 cs T0 P0 structure = Some (Ret self).
Proof.
  intros Hq Hw Hg Hst Hh.
  unfold HvdwpmEos_init. rewrite Hw, Hst. cbn [bind].
  assert (Hc : C_const_of T_0 * q <> 0) by (apply C_const_neq0; [apply T_0_neq0|exact Hq]).
  destruct h; [| |contradiction].
  - cbn [structure_of eos R_tab z_tab a_norm table_s1 getattr bind].
    unfold make_constant_mats. cbn [water_ind init_attrs]. rewrite Hg.
    cbn [returned]. unfold find_stdstate_volume.
    match goal with
    | |- context [stdstate_loop _ 2 ?s0 cs ?a ?b ?l ?k ?e] =>
        destruct (stdstate_loop_const q s0 a b l k e) as [[[s' l'] k'] Hloop];
        [exact Hc
        | split; [reflexivity | cbn; do 2 eexists; repeat split; discriminate]
        | cbn; apply length_map
        | apply np_zeros_length | apply np_zeros_length | ];
        change (comps s0) with cs in Hloop; rewrite Hloop
    end.
    eauto.
  - cbn [structure_of eos R_tab z_tab a_norm table_s2 getattr bind].
    unfold make_constant_mats. cbn [water_ind init_attrs]. rewrite Hg.
    cbn [returned]. unfold find_stdstate_volume.
    match goal with
    | |- context [stdstate_loop _ 2 ?s0 cs ?a ?b ?l ?k ?e] =>
        destruct (stdstate_loop_const q s0 a b l k e) as [[[s' l'] k'] Hloop];
        [exact Hc
        | split; [reflexivity | cbn; do 2 eexists; repeat split; discriminate]
        | cbn; apply length_map
        | apply np_zeros_length | apply np_zeros_length | ];
        change (comps s0) with cs in Hloop; rewrite Hloop
    end.
    eauto.
Qed.

(** ** Sample instances *)

Lemma init_water_methane :
  exists self,
    HvdwpmEos_init (quad_const 1) 2 [water; methane] 277.15 30 (PyStr "s1")
    = Some (Ret self).
Proof.
  apply (HvdwpmEos_init_const 1 _ _ _ _ s1 0%nat water);
    [lra | reflexivity | reflexivity | reflexivity | discriminate].
Qed.

(** ** What a fugacity call does, for any integrator *)

Section FugacityCalls.

Variable quad : (R -> R) -> R -> R -> R * R.

Lemma count_solve_static s : same_static s (count_solve s).
Proof. unfold same_static. simpl. intuition. Qed.

Lemma find_hydrate_properties_inv fuel self cs T P eqf s1 :
  find_hydrate_properties quad fuel self cs T P eqf = Some (Ret s1) ->
  same_static self s1 /\ fug s1 = fug self /\ a_0 s1 = a_0 self
  /\ v_H_0 s1 = v_H_0 self /\ n_solves s1 = S (n_solves self).
Proof.
  unfold find_hydrate_properties. intros H.
  match type of H with
  | match ?st with _ => _ end = _ => destruct st as [[[[Cs Cl] kap] l]|]
  end; [|discriminate].
  destruct (hydrate_loop quad fuel (count_solve self) cs T P eqf Cs Cl l kap
              (Fin 1e6)) as [[[[[s' Cs'] Cl'] k']|]|] eqn:Hloop;
    try discriminate.
  apply hydrate_loop_frame in Hloop. destruct Hloop as [Hst Hres].
  destruct Hres as (Efug & Ekt & Ea & Ev & ECs & ECl & EvH & Ens).
  destruct (scalar_copy k') as [kc|]; [|discriminate]. cbn [bind] in H.
  destruct (v_H_0 s') as [vH0|] eqn:EvH0; [|discriminate].
  cbn [getattr bind] in H. injection H as <-.
  split.
  { eapply same_static_trans; [apply count_solve_static|].
    eapply same_static_trans; [exact Hst|].
    unfold same_static. simpl. intuition. }
  cbn. rewrite Efug, Ea, EvH0, Ens. cbn in Ev. rewrite <- Ev. auto.
Qed.

Lemma fugacity_inv fuel self cs T P x eqf self' fg :
  fugacity quad fuel self cs T P x eqf = Some (Ret (self', fg)) ->
  exists base s1 vH0 act,
    (if all_eq eqf (eq_fug self) then fug self = FugArr base
     else base = zero_head eqf)
    /\ find_hydrate_properties quad fuel self cs T P eqf = Some (Ret s1)
    /\ v_H_0 s1 = Some vH0
    /\ activity_func s1 T P vH0 = Ret act
    /\ setitem base 0
         (exp (gwbeta_RT s1 + act + delta_mu_func s1 - gw0_RT s1)) = Ret fg
    /\ self' = set_fug s1 fg.
Proof.
  unfold fugacity. intros H.
  destruct (negb (List.length eqf =? num_comps self)%nat); [discriminate|].
  match type of H with
  | match ?b with _ => _ end = _ => destruct b as [base|] eqn:Hbase
  end; [|discriminate].
  destruct (find_hydrate_properties quad fuel self cs T P eqf)
    as [[s1|]|]; try discriminate.
  destruct (v_H_0 s1) as [vH0|] eqn:EvH0; [|discriminate].
  cbn [getattr bind] in H.
  destruct (activity_func s1 T P vH0) as [act|] eqn:Hact; [|discriminate].
  cbn [bind] in H.
  match type of H with
  | Some (bind ?b _) = _ => destruct b as [fg'|] eqn:Hset
  end; [|discriminate].
  cbn [bind] in H. injection H as <- <-.
  exists base, s1, vH0, act. repeat split; auto.
  destruct (all_eq eqf (eq_fug self)).
  - destruct (fug self); [discriminate|]. congruence.
  - congruence.
Qed.

Lemma setitem_0 (base : array) (v : R) (fg : array) :
  setitem base 0 v = Ret fg -> fg = v :: tl base.
Proof. destruct base; simpl; [discriminate|]. congruence. Qed.

End FugacityCalls.

(** ** Fugacity calls that return *)

Lemma constructed_ready cs T0 P0 s :
  constructed cs T0 P0 s -> (2 < List.length cs)%nat -> ready s.
Proof.
  intros [Hwf Ecs En ET EP Ew Ek0 Efug Eeq ECs ECl Ens Ha Hv
            [kt [Ekt [_ Hnp]]]] Hlen.
  unfold ready, warm. rewrite ECs, En.
  destruct (Hnp Hlen) as [v ->]. eauto 10.
Qed.

Lemma find_hydrate_properties_const (q : R) (s : Eos) (T P : R) (f : array) :
  ready s -> q <> 0 -> T <> 0 -> List.length f = num_comps s ->
  exists s',
    find_hydrate_properties (quad_const q) 2 s (comps s) T P f
    = Some (Ret s')
    /\ ready s'.
Proof.
  intros (Hwf & Hn & [v Ekt] & [a Ea] & [vH Ev] & Hwarm) Hq HT Hf.
  pose proof Hwf as [Hlen _].
  assert (Hc : C_const_of T * q <> 0) by (apply C_const_neq0; assumption).
  assert (Hwf' : wf (count_solve s)) by exact Hwf.
  unfold find_hydrate_properties.
  cbn [C_small C_large kappa_tmp a_0 num_comps count_solve].
  rewrite Ekt, Ea. cbn [getattr scalar_copy bind].
  assert (Hstart : exists Cs Cl,
    match C_small s with
    | Some Cs => Cl <- getattr (C_large s) ;; Ret (Cs, Cl)
    | None => Ret (np_zeros (num_comps s), np_zeros (num_comps s))
    end = Ret (Cs, Cl)
    /\ List.length Cs = List.length (comps s)
    /\ List.length Cl = List.length (comps s)).
  { unfold warm in Hwarm. destruct (C_small s) as [Cs|].
    - destruct Hwarm as [L1 [Cl [-> L2]]]. exists Cs, Cl. auto.
    - do 2 eexists. split; [reflexivity|].
      rewrite np_zeros_length. auto. }
  destruct Hstart as (Cs & Cl & -> & L1 & L2). cbn [bind].
  destruct (hydrate_loop_const q (count_solve s) T P f Cs Cl a (NpFloat v)
              Hc HT Hwf') as (s' & Y & Hloop & Hfr);
    [cbn; lia | exact L1 | exact L2 |].
  change (comps (count_solve s)) with (comps s) in Hloop.
  rewrite Hloop.
  pose proof Hfr as [Hst Hres].
  destruct Hst as (_ & Ecs & En & _).
  destruct Hres as (_ & _ & Ea' & Ev' & _).
  cbn in En, Ecs, Ea', Ev'.
  destruct (kappa_func_numpy s' Y) as [v' Ek]; [lia|].
  rewrite Ek, Ev', Ev. cbn [scalar_copy getattr bind].
  eexists. split; [reflexivity|].
  assert (Hwf2 : wf s') by (eapply wf_frame; eauto).
  unfold ready, warm. cbn.
  split; [exact Hwf2|]. split; [lia|].
  split; [eauto|]. split; [rewrite Ea'; eauto|]. split; [rewrite Ev'; eauto|].
  rewrite Ecs. rewrite const_C_length. split; [reflexivity|].
  eexists. split; [reflexivity|]. apply const_C_length.
Qed.

Lemma fugacity_const (q : R) (s : Eos) (T P : R) (x eqf : array) :
  ready s -> q <> 0 -> T <> 0 -> List.length eqf = num_comps s ->
  (all_eq eqf (eq_fug s) = true -> exists v a, fug s = FugArr (v :: a)) ->
  exists s' fg,
    fugacity (quad_const q) 2 s (comps s) T P x eqf = Some (Ret (s', fg))
    /\ ready s'.
Proof.
  intros Hr Hq HT Hlen Hmemo.
  destruct (find_hydrate_properties_const q s T P eqf Hr Hq HT Hlen)
    as (s1 & Hsolve & Hr1).
  unfold fugacity. rewrite Hlen, Nat.eqb_refl. cbn [negb].
  assert (Hbase : exists v a,
    (if all_eq eqf (eq_fug s)
     then match fug s with
          | FugArr a => Ret a
          | FugInt0 => Raise AttributeError
          end
     else Ret (zero_head eqf)) = Ret (v :: a)).
  { destruct (all_eq eqf (eq_fug s)).
    - destruct (Hmemo eq_refl) as (v & a & ->). eauto.
    - destruct Hr as (_ & Hn & _). destruct eqf as [|e eqf]; [simpl in Hlen; lia|].
      simpl. eauto. }
  destruct Hbase as (v & a & ->). rewrite Hsolve.
  destruct Hr1 as (Hwf1 & Hn1 & Hk1 & Ha1 & [vH0 Ev1] & Hw1).
  rewrite Ev1. cbn [getattr bind].
  unfold activity_func. rewrite (Req_b_false T 0 HT). cbn [bind setitem].
  do 2 eexists. split; [reflexivity|].
  unfold ready, warm. cbn. rewrite Ev1. repeat split; eauto.
  - apply Hwf1.
  - apply Hwf1.
Qed.

(** ** calc *)

Lemma load_compobjs self cs T P x eqf :
  load_name (calc_scope self cs T P x eqf) "compobjs" = Raise NameError.
Proof. reflexivity. Qed.

Lemma comps_eqb_refl (cs : list Component) : comps_eqb cs cs = true.
Proof.
  induction cs as [|c cs IH]; simpl; [reflexivity|].
  unfold comp_eqb. rewrite String.eqb_refl. exact IH.
Qed.

(** C1 (as the code behaves): [calc] reads the name [compobjs], which is
    bound neither in its scope nor in the module; called with the
    instance's own component list and an [x] of the same length, a list
    or an array, it raises NameError for every T and P, and never returns
    a fugacity vector. *)
Theorem calc_own_comps_raises_NameError
    (quad : (R -> R) -> R -> R -> R * R) (np_bool_empty : result bool)
    (fuel : nat) (self : Eos)
    (cs : list Component) (T P : R) (x : pyseq) (eqf : array)
    (Hown : cs = comps self) (Hx : seq_len x = List.length cs) :
  calc quad np_bool_empty fuel self cs T P x eqf = Some (Raise NameError).
Proof.
  unfold calc. rewrite Hx, Nat.eqb_refl. cbn [negb].
  unfold own_comps. rewrite <- Hown, comps_eqb_refl. cbn [negb].
  rewrite load_compobjs. cbn [bind].
  destruct (negb (Req_b (own_T self) T) || negb (Req_b (own_P self) P));
    reflexivity.
Qed.

Lemma calc_own_comps_witness :
  exists self,
    HvdwpmEos_init (quad_const 1) 2 [water; methane] 277.15 30 (PyStr "s1")
    = Some (Ret self)
    /\ calc (quad_const 1) (Raise ValueError) 2 self [water; methane] 280 35
         (PyList [0.9; 0.1]) [0; 25]
       = Some (Raise NameError).
Proof.
  destruct init_water_methane as [self H]. exists self. split; [exact H|].
  apply calc_own_comps_raises_NameError; [|reflexivity].
  symmetry. exact (c_comps _ _ _ _ (HvdwpmEos_init_constructed _ _ _ _ _ _ _ H)).
Defined.

(** C4 (amended): when the component list passed to [calc] differs from
    the one of the instance and [x] has the length of the list, [calc]
    prints a warning and returns [None], leaving the instance as it was;
    it raises nothing then.  When [x] is longer than the list it raises
    RuntimeError.  When [x] is shorter, [not x] is evaluated first: a
    list, and an array of one entry, give RuntimeError; an array of two
    or more entries gives the ValueError of its truth value; an empty
    array gives the error of its truth value if that is one, and
    RuntimeError otherwise. *)
Theorem calc_changed_comps_returns_None
    (quad : (R -> R) -> R -> R -> R * R) (np_bool_empty : result bool)
    (fuel : nat) (self : Eos)
    (cs : list Component) (T P : R) (x : pyseq) (eqf : array)
    (Hdiff : comps_eqb cs (comps self) = false) :
  (seq_len x = List.length cs ->
   calc quad np_bool_empty fuel self cs T P x eqf = Some (Ret (self, None)))
  /\ (List.length cs < seq_len x ->
      calc quad np_bool_empty fuel self cs T P x eqf
      = Some (Raise RuntimeError))%nat
  /\ (seq_len x < List.length cs ->
      calc quad np_bool_empty fuel self cs T P x eqf
      = Some (Raise
          match x with
          | PyList _ => RuntimeError
          | NpArray [] =>
              match np_bool_empty with Raise e => e | Ret _ => RuntimeError end
          | NpArray [_] => RuntimeError
          | NpArray (_ :: _ :: _) => ValueError
          end))%nat.
Proof.
  unfold calc. split; [|split]; intros Hx.
  - rewrite Hx, Nat.eqb_refl. cbn [negb].
    unfold own_comps. rewrite Hdiff. reflexivity.
  - assert (E : (seq_len x =? List.length cs)%nat = false)
      by (apply Nat.eqb_neq; lia).
    rewrite E. cbn [negb].
    apply Nat.ltb_lt in Hx. rewrite Hx. reflexivity.
  - assert (E : (seq_len x =? List.length cs)%nat = false)
      by (apply Nat.eqb_neq; lia).
    rewrite E. cbn [negb].
    assert (E' : (List.length cs <? seq_len x)%nat = false)
      by (apply Nat.ltb_ge; lia).
    rewrite E'.
    destruct x as [[|v l]|[|v [|v' l]]]; cbn [py_not bind]; try reflexivity.
    destruct np_bool_empty; reflexivity.
Qed.

Lemma calc_changed_comps_witness :
  exists self,
    HvdwpmEos_init (quad_const 1) 2 [water; methane] 277.15 30 (PyStr "s1")
    = Some (Ret self)
    /\ calc (quad_const 1) (Raise ValueError) 2 self [water; ethane] 277.15 30
         (PyList [0.9; 0.1]) [0; 25]
       = Some (Ret (self, None))
    /\ calc (quad_const 1) (Raise ValueError) 2 self [water; ethane] 277.15 30
         (NpArray [0.5; 0.3; 0.2]) [0; 25]
       = Some (Raise RuntimeError)
    /\ calc (quad_const 1) (Raise ValueError) 2 self [water; ethane] 277.15 30
         (PyList [1]) [0; 25]
       = Some (Raise RuntimeError)
    /\ calc (quad_const 1) (Raise ValueError) 2 self
         [water; ethane; methane] 277.15 30 (NpArray [0.9; 0.1]) [0; 25]
       = Some (Raise ValueError).
Proof.
  destruct init_water_methane as [self H]. exists self. split; [exact H|].
  pose proof (c_comps _ _ _ _ (HvdwpmEos_init_constructed _ _ _ _ _ _ _ H))
    as Ecs.
  assert (Hdiff : comps_eqb [water; ethane] (comps self) = false)
    by (rewrite Ecs; reflexivity).
  assert (Hdiff3 : comps_eqb [water; ethane; methane] (comps self) = false)
    by (rewrite Ecs; reflexivity).
  destruct (calc_changed_comps_returns_None (quad_const 1) (Raise ValueError)
              2 self [water; ethane] 277.15 30 (PyList [0.9; 0.1]) [0; 25]
              Hdiff) as [H1 _].
  destruct (calc_changed_comps_returns_None (quad_const 1) (Raise ValueError)
              2 self [water; ethane] 277.15 30 (NpArray [0.5; 0.3; 0.2])
              [0; 25] Hdiff) as (_ & H2 & _).
  destruct (calc_changed_comps_returns_None (quad_const 1) (Raise ValueError)
              2 self [water; ethane] 277.15 30 (PyList [1]) [0; 25] Hdiff)
    as (_ & _ & H3).
  destruct (calc_changed_comps_returns_None (quad_const 1) (Raise ValueError)
              2 self [water; ethane; methane] 277.15 30 (NpArray [0.9; 0.1])
              [0; 25] Hdiff3) as (_ & _ & H4).
  split; [apply H1; reflexivity|].
  split; [apply H2; cbn; lia|].
  split; [apply H3; cbn; lia | apply H4; cbn; lia].
Defined.

(** C4, the claim as stated fails: a call with a changed component list
    returns [None] and raises no error. *)
Lemma calc_changed_comps_no_error :
  exists self,
    HvdwpmEos_init (quad_const 1) 2 [water; methane] 277.15 30 (PyStr "s1")
    = Some (Ret self)
    /\ comps_eqb [water; ethane] (comps self) = false
    /\ calc (quad_const 1) (Raise ValueError) 2 self [water; ethane] 277.15 30
         (PyList [0.9; 0.1]) [0; 25]
       = Some (Ret (self, None))
    /\ ~ (exists e,
            calc (quad_const 1) (Raise ValueError) 2 self [water; ethane]
              277.15 30 (PyList [0.9; 0.1]) [0; 25] = Some (Raise e)).
Proof.
  destruct init_water_methane as [self H]. exists self. split; [exact H|].
  pose proof (c_comps _ _ _ _ (HvdwpmEos_init_constructed _ _ _ _ _ _ _ H))
    as Ecs.
  assert (Hdiff : comps_eqb [water; ethane] (comps self) = false)
    by (rewrite Ecs; reflexivity).
  assert (Hcalc : calc (quad_const 1) (Raise ValueError) 2 self
                    [water; ethane] 277.15 30 (PyList [0.9; 0.1]) [0; 25]
                  = Some (Ret (self, None))).
  { unfold calc. cbn [seq_len List.length Nat.eqb negb]. unfold own_comps.
    rewrite Hdiff. reflexivity. }
  split; [exact Hdiff|]. split; [exact Hcalc|].
  intros [e He]. rewrite Hcalc in He. discriminate.
Qed.

(** ** Construction errors and the structure catalog *)

Lemma h2o_indices_none (cs : list Component) :
  no_h2o cs -> forall ii, h2o_indices cs ii = [].
Proof.
  induction 1 as [|c cs Hc _ IH]; intros ii; simpl; [reflexivity|].
  rewrite Hc. apply IH.
Qed.

Lemma find_water_none (cs : list Component) :
  no_h2o cs -> find_water cs = Raise IndexError.
Proof.
  intros H. unfold find_water. rewrite (h2o_indices_none cs H). reflexivity.
Qed.

(** Every alias of the menu selects its structure's table. *)
Lemma HydrateStructure_init_menu (h : hydstruc_t) :
  Forall (fun v => HydrateStructure_init v = Ret (structure_of h)) (menu h).
Proof. destruct h; repeat constructor. Qed.

Lemma lower_ascii_idem (c : ascii) : lower_ascii (lower_ascii c) = lower_ascii c.
Proof. destruct c as [[] [] [] [] [] [] [] []]; reflexivity. Qed.

Lemma lower_idem (s : string) : lower (lower s) = lower s.
Proof.
  induction s as [|c s IH]; simpl; [reflexivity|].
  rewrite lower_ascii_idem, IH. reflexivity.
Qed.

(** The match is case-insensitive. *)
Lemma HydrateStructure_init_lower (s : string) :
  HydrateStructure_init (PyStr s) = HydrateStructure_init (PyStr (lower s)).
Proof. unfold HydrateStructure_init. cbn [py_str]. rewrite lower_idem. reflexivity. Qed.

(** A string outside the alias sets is refused with RuntimeError, an
    integer outside them with TypeError. *)
Lemma HydrateStructure_init_unknown (v : pyval) :
  (forall h, py_in (PyStr (lower (py_str v))) (menu h) = false) ->
  HydrateStructure_init v
  = Raise (match v with PyStr _ => RuntimeError | PyInt _ => TypeError end).
Proof.
  intros H. unfold HydrateStructure_init.
  rewrite (H s1), (H s2), (H sH). destruct v; reflexivity.
Qed.

(** C5 (as the code behaves): a component list without a component named
    h2o makes the index lookup raise IndexError, which the
    [except ValueError] clause does not catch: construction ends with
    IndexError, not with the RuntimeError of its handler. *)
Theorem init_without_water_raises_IndexError
    (quad : (R -> R) -> R -> R -> R * R) (fuel : nat)
    (cs : list Component) (T0 P0 : R) (structure : pyval)
    (Hno : no_h2o cs) :
  HvdwpmEos_init quad fuel cs T0 P0 structure = Some (Raise IndexError).
Proof.
  unfold HvdwpmEos_init. rewrite (find_water_none cs Hno). reflexivity.
Qed.

Lemma init_without_water_witness :
  no_h2o [methane; ethane]
  /\ HvdwpmEos_init (quad_const 1) 2 [methane; ethane] 277.15 30 (PyStr "s1")
     = Some (Raise IndexError).
Proof.
  assert (H : no_h2o [methane; ethane]) by (repeat constructor).
  split; [exact H|].
  exact (init_without_water_raises_IndexError (quad_const 1) 2
           [methane; ethane] 277.15 30 (PyStr "s1") H).
Defined.

(** The sH alias resolves, but its table has no shell radii: the
    constructor stops with AttributeError. *)
Lemma init_sH_raises_AttributeError
    (quad : (R -> R) -> R -> R -> R * R) (fuel : nat) (T0 P0 : R) :
  HvdwpmEos_init quad fuel [water; methane] T0 P0 (PyStr "sH")
  = Some (Raise AttributeError).
Proof. reflexivity. Qed.

Lemma init_unknown_int_raises_TypeError
    (quad : (R -> R) -> R -> R -> R * R) (fuel : nat) (T0 P0 : R) :
  HvdwpmEos_init quad fuel [water; methane] T0 P0 (PyInt 3)
  = Some (Raise TypeError).
Proof. reflexivity. Qed.

Lemma init_unknown_string_raises_RuntimeError
    (quad : (R -> R) -> R -> R -> R * R) (fuel : nat) (T0 P0 : R) :
  HvdwpmEos_init quad fuel [water; methane] T0 P0 (PyStr "s3")
  = Some (Raise RuntimeError).
Proof. reflexivity. Qed.

(** ** Langmuir constants *)

Section Langmuir.

Variable quad : (R -> R) -> R -> R -> R * R.

Lemma langmuir_loop_closed (s : Eos) (T : R) (cs : list Component) :
  R_sm s <> [] -> R_lg s <> [] ->
  forall (p1 p2 Cs Cl : array) calls,
    List.length p2 = List.length p1 ->
    List.length Cs = List.length cs -> List.length Cl = List.length cs ->
    langmuir_loop quad s cs (List.length p1) T (C_const_of T)
      (p1 ++ Cs) (p2 ++ Cl) calls
    = Ret (p1 ++ map (langmuir_small quad s T) cs,
           p2 ++ map (langmuir_large quad s T) cs,
           calls ++ langmuir_calls s cs (List.length p1)).
Proof.
  intros Hs_ne Hl_ne.
  induction cs as [|comp cs IH]; intros p1 p2 Cs Cl calls Hp L1 L2.
  - destruct Cs; [|discriminate]. destruct Cl; [|discriminate].
    simpl. rewrite !app_nil_r. reflexivity.
  - destruct Cs as [|x Cs]; [discriminate|].
    destruct Cl as [|y Cl]; [discriminate|].
    simpl in L1, L2. cbn [langmuir_loop map langmuir_calls].
    assert (Hnext : forall v w calls0,
      langmuir_loop quad s cs (S (List.length p1)) T (C_const_of T)
        (p1 ++ v :: Cs) (p2 ++ w :: Cl) calls0
      = Ret (p1 ++ v :: map (langmuir_small quad s T) cs,
             p2 ++ w :: map (langmuir_large quad s T) cs,
             calls0 ++ langmuir_calls s cs (S (List.length p1)))).
    { intros v w calls0.
      specialize (IH (p1 ++ [v]) (p2 ++ [w]) Cs Cl calls0).
      rewrite !length_app in IH. simpl in IH.
      rewrite <- !app_assoc in IH. simpl in IH.
      replace (List.length p1 + 1)%nat with (S (List.length p1)) in IH by lia.
      apply IH; lia. }
    unfold langmuir_small at 1, langmuir_large at 1.
    destruct (is_h2o comp); cbn [negb].
    + rewrite setitem_app. cbn [bind].
      rewrite <- Hp. rewrite setitem_app. cbn [bind]. rewrite Hp.
      apply Hnext.
    + unfold py_min, guest_int, guest_upper.
      destruct (R_sm s) as [|r0 rs] eqn:E1; [contradiction|].
      destruct (R_lg s) as [|r1 rl] eqn:E2; [contradiction|].
      cbn [bind].
      rewrite setitem_app. cbn [bind].
      rewrite <- Hp. rewrite setitem_app. cbn [bind]. rewrite Hp.
      rewrite Hnext. rewrite <- app_assoc. reflexivity.
Qed.

(** [langmuir_consts] in closed form, on the instance's own components. *)
Lemma langmuir_consts_closed (s : Eos) (T P l k an : R) (Rt : Shells) :
  List.length (comps s) = num_comps s ->
  a_norm (eos (Hs s)) = Some an -> R_tab (eos (Hs s)) = Some Rt ->
  sm Rt <> [] -> lg Rt <> [] -> T <> 0 ->
  let s' := scaled_shells s an Rt P l k in
  langmuir_consts quad s (comps s) T P l k
  = Ret (s', (map (langmuir_small quad s' T) (comps s),
              map (langmuir_large quad s' T) (comps s),
              langmuir_calls s' (comps s) 0)).
Proof.
  intros Hlen Han HRt Hsm Hlg HT s'.
  unfold langmuir_consts, compute_integral_constants.
  rewrite Han, HRt. cbn [getattr bind].
  rewrite (Req_b_false _ _ (k_B_T_neq0 T HT)).
  fold (scaled_shells s an Rt P l k). fold s'.
  change (num_comps s') with (num_comps s).
  assert (Hc := langmuir_loop_closed s' T (comps s)).
  specialize (Hc (map_neq_nil _ _ Hsm) (map_neq_nil _ _ Hlg)
                 [] [] (np_zeros (num_comps s)) (np_zeros (num_comps s)) []
                 eq_refl).
  cbn [app List.length] in Hc. rewrite Hc.
  - reflexivity.
  - rewrite np_zeros_length. lia.
  - rewrite np_zeros_length. lia.
Qed.

Lemma langmuir_calls_index (s : Eos) (cs : list Component) :
  forall ii c, In c (langmuir_calls s cs ii) ->
    exists j comp, nth_error cs j = Some comp /\ is_h2o comp = false
                   /\ qc_index c = (ii + j)%nat.
Proof.
  induction cs as [|comp cs IH]; intros ii c Hin; simpl in Hin; [contradiction|].
  apply in_app_or in Hin. destruct Hin as [Hin|Hin].
  - destruct (is_h2o comp) eqn:E; [contradiction|].
    exists O, comp. simpl in Hin.
    destruct Hin as [<-|[<-|[]]]; simpl; repeat split; auto; lia.
  - destruct (IH _ _ Hin) as (j & comp' & Hj & Hg & Hi).
    exists (S j), comp'. simpl. repeat split; auto. lia.
Qed.

Lemma langmuir_calls_guest (s : Eos) (cs : list Component) :
  forall ii j comp, nth_error cs j = Some comp -> is_h2o comp = false ->
    In {| qc_index := (ii + j)%nat; qc_small := true;
          qc_upper := guest_upper (R_sm s) comp |} (langmuir_calls s cs ii)
    /\ In {| qc_index := (ii + j)%nat; qc_small := false;
             qc_upper := guest_upper (R_lg s) comp |} (langmuir_calls s cs ii).
Proof.
  induction cs as [|c0 cs IH]; intros ii j comp Hj Hg; [destruct j; discriminate|].
  destruct j as [|j]; simpl in Hj.
  - injection Hj as ->. simpl. rewrite Hg, Nat.add_0_r.
    split; apply in_or_app; left; simpl; auto.
  - destruct (IH (S ii) j comp Hj Hg) as [H1 H2].
    replace (ii + S j)%nat with (S ii + j)%nat by lia.
    split; simpl; apply in_or_app; right; assumption.
Qed.

End Langmuir.

Lemma C_const_pos (T : R) : 0 < T -> 0 < C_const_of T.
Proof.
  intros HT. unfold C_const_of, k_B. pose proof PI_RGT_0.
  apply Rmult_lt_0_compat; [|lra].
  apply Rdiv_lt_0_compat; [|nra].
  apply Rmult_lt_0_compat; [simpl; lra | assumption].
Qed.

(** C7 (amended): [langmuir_consts] gives water the constant 0 in both
    cages and never calls the integrator for it; for a guest it always
    calls the integrator over [0, min(shell radii) - core radius],
    whatever the sign of that bound, and the constant is C_const times
    the value returned; the constants are non-negative when T > 0 and
    the integrator returns non-negative values. *)
Theorem langmuir_consts_unguarded
    (quad : (R -> R) -> R -> R -> R * R) (s : Eos) (T P l k : R)
    (Hwf : wf s) (HT : T <> 0) :
  exists s' Cs Cl calls,
    langmuir_consts quad s (comps s) T P l k = Ret (s', (Cs, Cl, calls))
    /\ (forall i comp, nth_error (comps s) i = Some comp ->
          is_h2o comp = true ->
          nth_error Cs i = Some 0 /\ nth_error Cl i = Some 0
          /\ forall c, In c calls -> qc_index c <> i)
    /\ (forall i comp, nth_error (comps s) i = Some comp ->
          is_h2o comp = false ->
          nth_error Cs i
          = Some (C_const_of T * guest_int quad (R_sm s') (z_sm s') comp T)
          /\ nth_error Cl i
             = Some (C_const_of T * guest_int quad (R_lg s') (z_lg s') comp T)
          /\ In {| qc_index := i; qc_small := true;
                   qc_upper := guest_upper (R_sm s') comp |} calls
          /\ In {| qc_index := i; qc_small := false;
                   qc_upper := guest_upper (R_lg s') comp |} calls)
    /\ (0 < T -> (forall f a b, 0 <= fst (quad f a b)) ->
        nonneg Cs /\ nonneg Cl).
Proof.
  destruct Hwf as [Hlen (an & Rt & Han & HRt & Hsm & Hlg)].
  pose proof (langmuir_consts_closed quad s T P l k an Rt Hlen Han HRt
                Hsm Hlg HT) as Hc.
  cbv zeta in Hc. set (s' := scaled_shells s an Rt P l k) in *.
  exists s', (map (langmuir_small quad s' T) (comps s)),
    (map (langmuir_large quad s' T) (comps s)),
    (langmuir_calls s' (comps s) 0).
  split; [exact Hc|]. split; [|split].
  - intros i comp Hi Hw.
    rewrite (map_nth_error _ _ _ Hi), (map_nth_error _ _ _ Hi).
    unfold langmuir_small, langmuir_large. rewrite Hw.
    split; [reflexivity|]. split; [reflexivity|].
    intros c Hin Heq.
    destruct (langmuir_calls_index s' (comps s) 0 c Hin)
      as (j & comp' & Hj & Hg & Hidx).
    simpl in Hidx. rewrite Hidx in Heq. subst j. congruence.
  - intros i comp Hi Hg.
    rewrite (map_nth_error _ _ _ Hi), (map_nth_error _ _ _ Hi).
    unfold langmuir_small, langmuir_large. rewrite Hg.
    split; [reflexivity|]. split; [reflexivity|].
    exact (langmuir_calls_guest s' (comps s) 0 i comp Hi Hg).
  - intros HTpos Hq. pose proof (C_const_pos T HTpos) as HC.
    split; apply Forall_forall; intros v Hv; apply in_map_iff in Hv;
      destruct Hv as (comp & <- & _);
      unfold langmuir_small, langmuir_large, guest_int;
      destruct (is_h2o comp); try lra;
      apply Rmult_le_pos; try lra; apply Hq.
Qed.

Lemma langmuir_consts_witness :
  exists self,
    HvdwpmEos_init (quad_const 1) 2 [water; methane] 277.15 30 (PyStr "s1")
    = Some (Ret self)
    /\ exists s' Cs Cl calls,
         langmuir_consts (quad_const 1) self (comps self) 277.15 30 12 3e-5
         = Ret (s', (Cs, Cl, calls))
         /\ (0 < 277.15 -> (forall f a b, 0 <= fst (quad_const 1 f a b)) ->
             nonneg Cs /\ nonneg Cl).
Proof.
  destruct init_water_methane as [self H]. exists self. split; [exact H|].
  pose proof (c_wf _ _ _ _ (HvdwpmEos_init_constructed _ _ _ _ _ _ _ H))
    as Hwf.
  assert (HT : 277.15 <> 0) by lra.
  destruct (langmuir_consts_unguarded (quad_const 1) self 277.15 30 12 3e-5
              Hwf HT) as (s' & Cs & Cl & calls & Hc & _ & _ & Hpos).
  exists s', Cs, Cl, calls. split; [exact Hc | exact Hpos].
Defined.

(** At the reference conditions the size law is the identity. *)
Lemma Hydrate_size_ref (hs : HydrateStructure) (v k : R) (dim : dim_t) :
  Hydrate_size hs T_0 P_0 v k dim = v.
Proof.
  unfold Hydrate_size.
  match goal with
  | |- v * exp ?e = v => replace e with 0 by (destruct dim; simpl; ring)
  end.
  rewrite exp_0. ring.
Qed.

Lemma integrand_pos (r : R) (Rs z : array) (eps_k sigma aj T : R) :
  r <> 0 -> 0 < integrand r Rs z eps_k sigma aj T.
Proof.
  intros Hr. unfold integrand.
  apply Rmult_lt_0_compat; [|apply exp_pos].
  simpl. nra.
Qed.

(** C7, the claim as stated fails: in the first round of the
    reference-state solve of [water; bulky] the integrator is called over
    an interval whose upper bound is negative, and the small-cage
    constant of the guest is negative: neither 0 nor at least 0. *)
Lemma langmuir_consts_negative_bound :
  exists s,
    make_constant_mats
      (init_attrs 0 (structure_of s1) shells_R_s1 shells_z_s1
         [water; bulky] T_0 P_0) [water; bulky] T_0 P_0 = (s, None)
    /\ exists s' Cs Cl calls u c,
         langmuir_consts quad_mid s [water; bulky] T_0 P_0
           (a0_ast table_s1) (kappa table_s1)
         = Ret (s', (Cs, Cl, calls))
         /\ In {| qc_index := 1; qc_small := true; qc_upper := u |} calls
         /\ u < 0
         /\ nth_error Cs 1 = Some c /\ c < 0.
Proof.
  eexists. split; [reflexivity|].
  match goal with
  | |- context [langmuir_consts _ ?s0 _ _ _ _ _] => set (s := s0)
  end.
  assert (HT : T_0 <> 0) by apply T_0_neq0.
  pose proof (langmuir_consts_closed quad_mid s T_0 P_0 (a0_ast table_s1)
                (kappa table_s1) 12.03 shells_R_s1 eq_refl eq_refl eq_refl)
    as Hc.
  specialize (Hc ltac:(discriminate) ltac:(discriminate) HT).
  cbv zeta in Hc.
  set (s' := scaled_shells s 12.03 shells_R_s1 P_0 (a0_ast table_s1)
               (kappa table_s1)) in *.
  change (comps s) with [water; bulky] in Hc.
  assert (Hu : guest_upper (R_sm s') bulky < 0).
  { unfold guest_upper, s', scaled_shells, s.
    cbn [R_sm set_R lattice_Tfactor set_constant_mats Hs init_attrs
         shells_R_s1 sm map arr_min fold_left kih kih_a bulky].
    rewrite !Hydrate_size_ref.
    cbn [a0_ast table_s1].
    pose proof (Rmin_l (3.83 * (11.99245 / 12.03 * 1 * 1))
                       (3.96 * (11.99245 / 12.03 * 1 * 1))).
    lra. }
  do 6 eexists. split; [exact Hc|].
  split; [cbn [langmuir_calls is_h2o compname water bulky String.eqb
               Ascii.eqb Bool.eqb app]; left; reflexivity|].
  split; [exact Hu|].
  split; [reflexivity|].
  unfold langmuir_small.
  cbn [is_h2o compname bulky String.eqb Ascii.eqb Bool.eqb].
  unfold guest_int, quad_mid. cbn [fst].
  pose proof (C_const_pos T_0 ltac:(unfold T_0; lra)) as HC.
  match goal with
  | |- ?C * ((?u - 0) * ?I) < 0 =>
      assert (Hu' : u < 0) by exact Hu;
      assert (HI : 0 < I) by (apply integrand_pos; lra);
      assert (HC' : 0 < C) by exact HC;
      generalize dependent I; generalize dependent u;
      generalize dependent C
  end.
  intros C _ HC' u _ Hu' I HI.
  assert (0 < - u * I) by (apply Rmult_lt_0_compat; lra).
  assert (0 < C * (- u * I)) by (apply Rmult_lt_0_compat; lra).
  lra.
Qed.

(** ** The fugacity vector *)

(** C3 (as the code behaves): a fugacity computation that returns, on an
    [eq_fug] other than the stored one, writes exp(mu_H/RT - gw0/RT) at
    index 0 and copies [eq_fug] from index 1 on, wherever the component
    named h2o stands in the list: the index of water is not consulted. *)
Theorem fugacity_writes_index_0
    (quad : (R -> R) -> R -> R -> R * R) (fuel : nat) (self : Eos)
    (cs : list Component) (T P : R) (x eqf : array) (self' : Eos)
    (fg : array)
    (Hret : fugacity quad fuel self cs T P x eqf = Some (Ret (self', fg)))
    (Hnew : all_eq eqf (eq_fug self) = false) :
  exists vH0 act,
    v_H_0 self' = Some vH0
    /\ activity_func self' T P vH0 = Ret act
    /\ fg = exp (gwbeta_RT self' + act + delta_mu_func self' - gw0_RT self')
            :: tl eqf.
Proof.
  apply fugacity_inv in Hret.
  destruct Hret as (base & s1 & vH0 & act & Hbase & _ & Ev & Hact & Hset & ->).
  rewrite Hnew in Hbase. subst base.
  apply setitem_0 in Hset.
  exists vH0, act. split; [exact Ev|]. split; [exact Hact|].
  rewrite Hset. destruct eqf; reflexivity.
Qed.

Lemma init_methane_water_ethane :
  exists self,
    HvdwpmEos_init (quad_const 1) 2 [methane; water; ethane] 277.15 30
      (PyStr "s1") = Some (Ret self).
Proof.
  apply (HvdwpmEos_init_const 1 _ _ _ _ s1 1%nat water);
    [lra | reflexivity | reflexivity | reflexivity | discriminate].
Qed.

Lemma all_eq_25 (a b : R) : all_eq [25; a; b] (np_zeros 3) = false.
Proof.
  simpl. rewrite (Req_b_false 25 0) by lra. reflexivity.
Qed.

Lemma all_eq_0_25 (b : R) : all_eq [0; 25; b] (np_zeros 3) = false.
Proof.
  simpl. rewrite (Req_b_false 25 0) by lra. rewrite andb_false_r. reflexivity.
Qed.

Lemma fugacity_writes_index_0_witness :
  exists self self' fg,
    HvdwpmEos_init (quad_const 1) 2 [methane; water; ethane] 277.15 30
      (PyStr "s1") = Some (Ret self)
    /\ water_ind self = 1%nat
    /\ fugacity (quad_const 1) 2 self [methane; water; ethane] 277.15 30
         [0.1; 0.8; 0.1] [25; 0; 1] = Some (Ret (self', fg))
    /\ (exists m, fg = [exp m; 0; 1])
    /\ nth_error fg (water_ind self) = Some 0.
Proof.
  destruct init_methane_water_ethane as [self H].
  pose proof (HvdwpmEos_init_constructed _ _ _ _ _ _ _ H) as Hc.
  pose proof (constructed_ready _ _ _ _ Hc ltac:(simpl; lia)) as Hr.
  destruct Hc as [Hwf Ecs En ET EP Ew Ek0 Efug Eeq ECs ECl Ens Ha Hv Hk].
  assert (Hw : water_ind self = 1%nat).
  { change (find_water [methane; water; ethane]) with (@Ret nat 1%nat) in Ew.
    congruence. }
  assert (Hnew : all_eq [25; 0; 1] (eq_fug self) = false)
    by (rewrite Eeq; apply all_eq_25).
  destruct (fugacity_const 1 self 277.15 30 [0.1; 0.8; 0.1] [25; 0; 1] Hr)
    as (self' & fg & Hfg & _);
    [lra | lra | rewrite En; reflexivity | rewrite Hnew; discriminate |].
  rewrite Ecs in Hfg.
  destruct (fugacity_writes_index_0 _ _ _ _ _ _ _ _ _ _ Hfg Hnew)
    as (vH0 & act & _ & _ & Efg).
  exists self, self', fg. rewrite Hw.
  split; [exact H|]. split; [reflexivity|]. split; [exact Hfg|].
  rewrite Efg. split; [eexists|]; reflexivity.
Defined.

(** ** Two calls in a row *)

Lemma fugacity_solves_once
    (quad : (R -> R) -> R -> R -> R * R) (fuel : nat) (self : Eos)
    (cs : list Component) (T P : R) (x eqf : array) (self' : Eos)
    (fg : array) :
  fugacity quad fuel self cs T P x eqf = Some (Ret (self', fg)) ->
  n_solves self' = S (n_solves self) /\ eq_fug self' = eq_fug self
  /\ fug self' = FugArr fg
  /\ exists v base, fg = v :: tl base
       /\ (if all_eq eqf (eq_fug self) then fug self = FugArr base
           else base = zero_head eqf).
Proof.
  intros H. apply fugacity_inv in H.
  destruct H as (base & s1 & vH0 & act & Hbase & Hsolve & _ & _ & Hset & ->).
  apply find_hydrate_properties_inv in Hsolve.
  destruct Hsolve as (Hst & _ & _ & _ & Hn).
  destruct Hst as (_ & _ & _ & _ & _ & _ & _ & _ & _ & _ & _ & _ & _ & _ & _
                   & Eeq & _).
  cbn. repeat split; auto.
  apply setitem_0 in Hset. eauto.
Qed.

(** C2 (amended): when the fugacity computation is invoked twice in a
    row on one instance with the same T, P and eq_fug and both calls
    return, each of them runs the operating-state solve once, the second
    as well as the first, and the two vectors agree from index 1 on;
    the entry at index 0 comes from the solve of each call. *)
Theorem fugacity_twice_solves_twice
    (quad : (R -> R) -> R -> R -> R * R) (fuel fuel' : nat) (self : Eos)
    (cs : list Component) (T P : R) (x eqf : array)
    (s1 s2 : Eos) (fg1 fg2 : array)
    (H1 : fugacity quad fuel self cs T P x eqf = Some (Ret (s1, fg1)))
    (H2 : fugacity quad fuel' s1 cs T P x eqf = Some (Ret (s2, fg2))) :
  n_solves s1 = S (n_solves self)
  /\ n_solves s2 = S (S (n_solves self))
  /\ tl fg2 = tl fg1.
Proof.
  apply fugacity_solves_once in H1.
  destruct H1 as (Hn1 & Eeq1 & Ef1 & v1 & b1 & -> & Hb1).
  apply fugacity_solves_once in H2.
  destruct H2 as (Hn2 & _ & _ & v2 & b2 & -> & Hb2).
  split; [exact Hn1|]. split; [congruence|].
  rewrite Eeq1 in Hb2. simpl.
  destruct (all_eq eqf (eq_fug self)).
  - rewrite Ef1 in Hb2. injection Hb2 as <-. reflexivity.
  - congruence.
Qed.

Lemma init_water_methane_ethane :
  exists self,
    HvdwpmEos_init (quad_const 1) 2 [water; methane; ethane] 277.15 30
      (PyStr "s1") = Some (Ret self).
Proof.
  apply (HvdwpmEos_init_const 1 _ _ _ _ s1 0%nat water);
    [lra | reflexivity | reflexivity | reflexivity | discriminate].
Qed.

(** Two calls in a row on a three-component instance both return. *)
Lemma fugacity_twice_returns :
  exists self s1 fg1 s2 fg2,
    HvdwpmEos_init (quad_const 1) 2 [water; methane; ethane] 277.15 30
      (PyStr "s1") = Some (Ret self)
    /\ n_solves self = O
    /\ fugacity (quad_const 1) 2 self [water; methane; ethane] 277.15 30
         [0.8; 0.1; 0.1] [0; 25; 1] = Some (Ret (s1, fg1))
    /\ fugacity (quad_const 1) 2 s1 [water; methane; ethane] 277.15 30
         [0.8; 0.1; 0.1] [0; 25; 1] = Some (Ret (s2, fg2)).
Proof.
  destruct init_water_methane_ethane as [self H].
  pose proof (HvdwpmEos_init_constructed _ _ _ _ _ _ _ H) as Hc.
  pose proof (constructed_ready _ _ _ _ Hc ltac:(simpl; lia)) as Hr.
  destruct Hc as [Hwf Ecs En ET EP Ew Ek0 Efug Eeq ECs ECl Ens Ha Hv Hk].
  assert (Hnew : all_eq [0; 25; 1] (eq_fug self) = false)
    by (rewrite Eeq; apply all_eq_0_25).
  destruct (fugacity_const 1 self 277.15 30 [0.8; 0.1; 0.1] [0; 25; 1] Hr)
    as (s1 & fg1 & Hfg1 & Hr1);
    [lra | lra | rewrite En; reflexivity | rewrite Hnew; discriminate |].
  destruct (fugacity_solves_once _ _ _ _ _ _ _ _ _ _ Hfg1)
    as (_ & Eeq1 & _).
  pose proof (fugacity_inv _ _ _ _ _ _ _ _ _ _ Hfg1)
    as (_ & s0 & _ & _ & _ & Hsolve & _ & _ & _ & Es1).
  apply find_hydrate_properties_inv in Hsolve.
  destruct Hsolve as ((_ & Ecs0 & En0 & _) & _).
  assert (Ecs1 : comps s1 = comps self) by (rewrite Es1; exact Ecs0).
  assert (En1 : num_comps s1 = num_comps self) by (rewrite Es1; exact En0).
  destruct (fugacity_const 1 s1 277.15 30 [0.8; 0.1; 0.1] [0; 25; 1] Hr1)
    as (s2 & fg2 & Hfg2 & _);
    [lra | lra | rewrite En1, En; reflexivity
    | rewrite Eeq1, Hnew; discriminate |].
  rewrite Ecs1 in Hfg2. rewrite Ecs in Hfg1, Hfg2.
  exists self, s1, fg1, s2, fg2. auto.
Qed.

Lemma fugacity_twice_witness :
  exists self s1 fg1 s2 fg2,
    fugacity (quad_const 1) 2 self [water; methane; ethane] 277.15 30
      [0.8; 0.1; 0.1] [0; 25; 1] = Some (Ret (s1, fg1))
    /\ fugacity (quad_const 1) 2 s1 [water; methane; ethane] 277.15 30
         [0.8; 0.1; 0.1] [0; 25; 1] = Some (Ret (s2, fg2))
    /\ n_solves s1 = S (n_solves self)
    /\ n_solves s2 = S (S (n_solves self))
    /\ tl fg2 = tl fg1.
Proof.
  destruct fugacity_twice_returns
    as (self & s1 & fg1 & s2 & fg2 & _ & _ & H1 & H2).
  exists self, s1, fg1, s2, fg2.
  split; [exact H1|]. split; [exact H2|].
  exact (fugacity_twice_solves_twice _ _ _ _ _ _ _ _ _ _ _ _ _ H1 H2).
Defined.

(** C2, the claim as stated fails: the second of two identical calls in
    a row runs the operating-state solve again. *)
Lemma fugacity_second_call_solves_again :
  exists self s1 fg1 s2 fg2,
    HvdwpmEos_init (quad_const 1) 2 [water; methane; ethane] 277.15 30
      (PyStr "s1") = Some (Ret self)
    /\ fugacity (quad_const 1) 2 self [water; methane; ethane] 277.15 30
         [0.8; 0.1; 0.1] [0; 25; 1] = Some (Ret (s1, fg1))
    /\ fugacity (quad_const 1) 2 s1 [water; methane; ethane] 277.15 30
         [0.8; 0.1; 0.1] [0; 25; 1] = Some (Ret (s2, fg2))
    /\ n_solves s1 = 1%nat /\ n_solves s2 = 2%nat
    /\ n_solves s2 <> n_solves s1.
Proof.
  destruct fugacity_twice_returns
    as (self & s1 & fg1 & s2 & fg2 & H & Hn & H1 & H2).
  exists self, s1, fg1, s2, fg2.
  destruct (fugacity_solves_once _ _ _ _ _ _ _ _ _ _ H1) as (Hn1 & _).
  destruct (fugacity_solves_once _ _ _ _ _ _ _ _ _ _ H2) as (Hn2 & _).
  repeat split; auto; lia.
Qed.

(** ** A reference-state solve that does not end *)














(** ** How the loops end *)

Section LoopEnds.

Variable quad : (R -> R) -> R -> R -> R * R.





End LoopEnds.

(** ** A while loop on the measure, round by round *)

Section WhileLoop.

Context {V O : Type}.
Variables (err : V -> npfloat) (out : V -> O) (round : V -> result V)
  (run : nat -> V -> option (result O)) (after : nat -> V -> option V).

Hypothesis run_O : forall v,
  run 0 v = if np_gt (err v) TOL then None else Some (Ret (out v)).
Hypothesis run_S : forall n v,
  run (S n) v
  = if np_gt (err v) TOL then
      match round v with
      | Raise e => Some (Raise e)
      | Ret v' => run n v'
      end
    else Some (Ret (out v)).
Hypothesis after_O : forall v, after 0 v = Some v.
Hypothesis after_S : forall n v,
  after (S n) v
  = if np_gt (err v) TOL then
      match round v with
      | Ret v' => after n v'
      | Raise _ => None
      end
    else None.





Lemma while_returns fuel :
  forall v r, run fuel v = Some (Ret r) ->
    exists n v', (n <= fuel)%nat /\ after n v = Some v'
                 /\ np_gt (err v') TOL = false /\ r = out v'.
Proof.
  induction fuel as [|fuel IH]; intros v r H.
  - rewrite run_O in H. destruct (np_gt (err v) TOL) eqn:He; [discriminate|].
    injection H as <-. exists 0%nat, v. rewrite after_O. auto.
  - rewrite run_S in H. destruct (np_gt (err v) TOL) eqn:He.
    + destruct (round v) as [v1|] eqn:Hr; [|discriminate].
      destruct (IH _ _ H) as (n & v' & Hn & Ha & He' & Hout).
      exists (S n), v'. rewrite after_S, He, Hr.
      split; [lia|]. auto.
    + injection H as <-. exists 0%nat, v. rewrite after_O.
      split; [lia|]. auto.
Qed.



(** The round before the last. *)
Lemma while_last n :
  forall v v', after (S n) v = Some v' ->
    exists v0, after n v = Some v0 /\ np_gt (err v0) TOL = true
               /\ round v0 = Ret v'.
Proof.
  induction n as [|n IH]; intros v v' H.
  - rewrite after_S in H. destruct (np_gt (err v) TOL) eqn:He; [|discriminate].
    destruct (round v) as [v1|] eqn:Hr; [|discriminate].
    rewrite after_O in H. injection H as <-.
    exists v. rewrite after_O. auto.
  - rewrite after_S in H. destruct (np_gt (err v) TOL) eqn:He; [|discriminate].
    destruct (round v) as [v1|] eqn:Hr; [|discriminate].
    destruct (IH _ _ H) as (v0 & Ha & He0 & Hr0).
    exists v0. rewrite after_S, He, Hr. auto.
Qed.

End WhileLoop.

Section LoopRounds.

Variable quad : (R -> R) -> R -> R -> R * R.



Lemma hyd_run_O cs T P f l v :
  hyd_run quad 0 cs T P f l v
  = if np_gt (hyd_err v) TOL then None else Some (Ret (hyd_out v)).
Proof. destruct v as [[[[s Cs] Cl] k] e]. reflexivity. Qed.

Lemma hyd_run_S cs T P f l n v :
  hyd_run quad (S n) cs T P f l v
  = if np_gt (hyd_err v) TOL then
      match hyd_round quad cs T P f l v with
      | Raise e => Some (Raise e)
      | Ret v' => hyd_run quad n cs T P f l v'
      end
    else Some (Ret (hyd_out v)).
Proof.
  destruct v as [[[[s Cs] Cl] k] e].
  cbn [hyd_run hyd_round hyd_err hyd_out snd hydrate_loop].
  destruct (np_gt e TOL); [|reflexivity].
  destruct (iterate_function quad s cs T P f l (sval k))
    as [[s1 [[[Csn Cln] Ys] Yl]]|]; cbn [bind]; [|reflexivity].
  destruct (conv_error cs 0 Csn Cs Cln Cl (Fin 0)); reflexivity.
Qed.

End LoopRounds.



(** ** Instances of the occupancy and of the measure *)

Lemma calc_langmuir_occupancy_witness :
  exists self Y,
    HvdwpmEos_init (quad_const 1) 2 [water; methane] 277.15 30 (PyStr "s1")
    = Some (Ret self)
    /\ calc_langmuir self [0; 2] [0; 3] = Ret Y
    /\ nth_error Y 1 = Some (2 * 3 / (1 + np_sum (arr_mul [0; 2] [0; 3])))
    /\ nth_error Y 0 = Some 0
    /\ np_sum Y < 1.
Proof.
  destruct init_water_methane as [self H].
  pose proof (c_comps _ _ _ _ (HvdwpmEos_init_constructed _ _ _ _ _ _ _ H))
    as Ecs.
  assert (HC : List.length [0; 2] = List.length (comps self))
    by (rewrite Ecs; reflexivity).
  assert (Hf : List.length [0; 3] = List.length (comps self))
    by (rewrite Ecs; reflexivity).
  assert (HCp : nonneg [0; 2]) by (repeat constructor; lra).
  assert (Hfp : nonneg [0; 3]) by (repeat constructor; lra).
  destruct (calc_langmuir_occupancy self [0; 2] [0; 3] HC Hf HCp Hfp)
    as (Y & HY & _ & Hnth & _ & _ & Hsum).
  exists self, Y. split; [exact H|]. split; [exact HY|].
  rewrite Ecs in Hnth.
  split; [exact (Hnth 1%nat methane 2 3 eq_refl eq_refl eq_refl)|].
  split; [exact (Hnth 0%nat water 0 0 eq_refl eq_refl eq_refl) | exact Hsum].
Defined.

Lemma conv_error_witness :
  exists error,
    conv_error [water; methane] 0 [0; 3] [0; 1] [0; 1] [0; 1] (Fin 0)
    = Ret error
    /\ (is_finite error
        <-> guests_nonzero [water; methane] [0; 3] [0; 1]).
Proof.
  destruct (conv_error_finite_iff_nonzero [water; methane] [0; 3] [0; 1]
              [0; 1] [0; 1] eq_refl eq_refl eq_refl eq_refl)
    as (error & He & _ & Hiff).
  exists error. split; [exact He | exact Hiff].
Defined.

(** The measure at a guest whose new small-cage constant is zero:
    [nan] when the old one is zero too, [+inf] otherwise. *)
Lemma conv_error_zero_constant :
  conv_error [water; methane] 0 [0; 0] [0; 0] [0; 1] [0; 1] (Fin 0) = Ret NaN
  /\ conv_error [water; methane] 0 [0; 0] [0; 2] [0; 1] [0; 1] (Fin 0)
     = Ret PInf.
Proof.
  split; cbn; unfold np_absdiv; rewrite ?Req_b_true;
    rewrite ?(Req_b_false 1 0) by lra.
  - replace (0 - 0) with 0 by ring. rewrite Req_b_true. reflexivity.
  - rewrite (Req_b_false (0 - 2) 0) by lra. reflexivity.
Qed.

Lemma single_guest_witness :
  exists self,
    HvdwpmEos_init (quad_const 1) 2 [water; methane] 277.15 30 (PyStr "s1")
    = Some (Ret self)
    /\ kappa_tmp self = Some (PyFloat (kappa (eos (Hs self))))
    /\ find_hydrate_properties (quad_const 1) 2 self [water; methane]
         277.15 30 [0; 25] = Some (Raise AttributeError)
    /\ fugacity (quad_const 1) 2 self [water; methane] 277.15 30
         [0.9; 0.1] [0; 25] = Some (Raise AttributeError).
Proof.
  destruct init_water_methane as [self H]. exists self. split; [exact H|].
  destruct (single_guest_solve_raises_AttributeError (quad_const 1) 2
              [water; methane] 277.15 30 (PyStr "s1") self H eq_refl)
    as (_ & Hk & Hsolve & Hfug).
  split; [exact Hk|]. split; [apply Hsolve|].
  apply Hfug.
  rewrite (c_num _ _ _ _ (HvdwpmEos_init_constructed _ _ _ _ _ _ _ H)).
  reflexivity.
Defined.

(** * Further properties of the code *)

(** ** The size law *)

Lemma exp_third_cubed (x : R) : exp (1 / 3 * x) ^ 3 = exp (1 * x).
Proof.
  simpl. rewrite Rmult_1_r, <- !exp_plus. f_equal. field.
Qed.

Lemma Hydrate_size_cubed (hs : HydrateStructure) (T P v k : R) :
  Hydrate_size hs T P v k linear ^ 3 = Hydrate_size hs T P (v ^ 3) k volumetric.
Proof.
  unfold Hydrate_size. rewrite Rpow_mult_distr, exp_third_cubed. reflexivity.
Qed.

(** X1: the linear form of the size law is the cube root of the
    volumetric one: a lattice parameter scaled linearly and then cubed is
    the cube scaled volumetrically; at T_0, P_0 the law is the identity;
    a positive size stays positive. *)
Theorem Hydrate_size_linear_volumetric (hs : HydrateStructure)
    (T P v k : R) :
  Hydrate_size hs T P v k linear ^ 3 = Hydrate_size hs T P (v ^ 3) k volumetric
  /\ (forall dim, Hydrate_size hs T_0 P_0 v k dim = v)
  /\ (forall dim, 0 < v -> 0 < Hydrate_size hs T P v k dim).
Proof.
  split; [|split].
  - apply Hydrate_size_cubed.
  - intros dim. apply Hydrate_size_ref.
  - intros dim Hv. unfold Hydrate_size.
    apply Rmult_lt_0_compat; [exact Hv | apply exp_pos].
Qed.

(** X2: on s1 and s2 the conversion of a lattice parameter to a molar
    volume commutes with the size law: the volume of the linearly scaled
    lattice is the volumetrically scaled volume of the lattice; on sH the
    conversion ignores the lattice parameter and returns the tabulated
    volume. *)
Theorem lattice_to_volume_scales (h : hydstruc_t) (T P l k : R) :
  (h <> sH ->
   lattice_to_volume (structure_of h)
     (Hydrate_size (structure_of h) T P l k linear)
   = Hydrate_size (structure_of h) T P
       (lattice_to_volume (structure_of h) l) k volumetric)
  /\ lattice_to_volume (structure_of sH) l = v0 table_sH.
Proof.
  split; [|reflexivity].
  intros Hh.
  pose proof (Hydrate_size_cubed (structure_of h) T P l k) as Hc.
  destruct h; [| |contradiction]; unfold lattice_to_volume.
  - change (hydstruc (structure_of s1)) with s1. cbv iota.
    rewrite Hc. unfold Hydrate_size. ring.
  - change (hydstruc (structure_of s2)) with s2. cbv iota.
    rewrite Hc. unfold Hydrate_size. ring.
Qed.

(** ** The filled lattice *)

Lemma sum_mul_zero_l (a b : array) : all_zero a -> np_sum (arr_mul a b) = 0.
Proof.
  intros Ha. revert b. induction Ha as [|x a Hx Ha IH]; intros b; [reflexivity|].
  destruct b as [|y b]; [reflexivity|]. simpl. subst x.
  unfold arr_mul in IH. rewrite IH. ring.
Qed.

Lemma cage_const_zero (eta Nw : R) (Y : array) :
  all_zero Y -> all_zero (cage_const eta Nw Y).
Proof.
  intros H. unfold cage_const. induction H as [|y Y Hy HY IH]; simpl;
    constructor; [subst y; unfold Rdiv; ring | exact IH].
Qed.

Lemma map2_zero_l (f : R -> R -> R) (a b : array) :
  (forall y, f 0 y = 0) -> all_zero a -> all_zero (map2 f a b).
Proof.
  intros Hf Ha. revert b. induction Ha as [|x a Hx Ha IH]; intros b;
    [constructor|].
  destruct b as [|y b]; simpl; constructor; [subst x; apply Hf | apply IH].
Qed.

Lemma cage_const_nonneg (eta Nw : R) (Y : array) :
  0 <= eta / Nw -> nonneg Y -> nonneg (cage_const eta Nw Y).
Proof.
  intros Hc H. unfold cage_const. induction H as [|y Y Hy HY IH]; simpl;
    constructor; [|exact IH].
  apply Rmult_le_pos; [nra|].
  left. apply Rinv_0_lt_compat. nra.
Qed.

Lemma map2_nonneg (f : R -> R -> R) (a b : array) :
  (forall x y, 0 <= x -> 0 <= f x y) -> nonneg a -> nonneg (map2 f a b).
Proof.
  intros Hf Ha. revert b. induction Ha as [|x a Hx Ha IH]; intros b;
    [constructor|].
  destruct b as [|y b]; simpl; constructor; [apply Hf; exact Hx | apply IH].
Qed.

(** X3: with no guest in the cages (all reference occupancies zero) the
    filled lattice has the nominal size a0_ast of the structure, whatever
    the number of components. *)
Theorem filled_lattice_size_empty (self : Eos)
    (Hs0 : all_zero (Y_small_0 self)) (Hl0 : all_zero (Y_large_0 self)) :
  snd (filled_lattice_size self) = a0_ast (eos (Hs self)).
Proof.
  unfold filled_lattice_size, cage_distortion.
  cbn [snd Hs repulsive_small repulsive_large rep_sm_vec rep_lg_vec
       set_repulsive].
  rewrite (sum_mul_zero_l _ (rep_lg_vec self))
    by (apply cage_const_zero; exact Hl0).
  assert (Hsm : all_zero (cage_const (etam_small (Hs self))
                            (Num_h2o (Hs self)) (Y_small_0 self)))
    by (apply cage_const_zero; exact Hs0).
  destruct (2 <? num_comps self)%nat.
  - rewrite sum_mul_zero_l; [ring|].
    apply map2_zero_l; [intros; ring | exact Hsm].
  - rewrite sum_mul_zero_l by exact Hsm. ring.
Qed.

Lemma filled_lattice_size_empty_witness :
  snd (filled_lattice_size
         (init_attrs 0 (structure_of s1) shells_R_s1 shells_z_s1
            [water; methane] T_0 P_0))
  = a0_ast table_s1.
Proof.
  apply (filled_lattice_size_empty
           (init_attrs 0 (structure_of s1) shells_R_s1 shells_z_s1
              [water; methane] T_0 P_0));
    repeat constructor.
Defined.

Lemma structure_of_positive (h : hydstruc_t) :
  0 < Nm_small (structure_of h) /\ 0 < Nm_large (structure_of h)
  /\ 0 < etam_small (structure_of h) /\ 0 < etam_large (structure_of h)
  /\ 0 < Num_h2o (structure_of h).
Proof. destruct h; cbn; repeat split; lra. Qed.

(** X4: filling the cages never shrinks the lattice: with non-negative
    reference occupancies and non-negative repulsion constants the
    filled lattice size is at least a0_ast, on each of the structures. *)
Theorem filled_lattice_size_lower_bound (self : Eos) (h : hydstruc_t)
    (HHs : Hs self = structure_of h)
    (HYs : nonneg (Y_small_0 self)) (HYl : nonneg (Y_large_0 self))
    (Hrs : nonneg (rep_sm_vec self)) (Hrl : nonneg (rep_lg_vec self)) :
  a0_ast (eos (Hs self)) <= snd (filled_lattice_size self).
Proof.
  destruct (structure_of_positive h) as (Hns & Hnl & Hes & Hel & HN).
  unfold filled_lattice_size, cage_distortion.
  cbn [snd Hs repulsive_small repulsive_large rep_sm_vec rep_lg_vec
       set_repulsive].
  rewrite HHs.
  assert (Hcs : nonneg (cage_const (etam_small (structure_of h))
                          (Num_h2o (structure_of h)) (Y_small_0 self))).
  { apply cage_const_nonneg; [|exact HYs].
    apply Rmult_le_pos; [lra | left; apply Rinv_0_lt_compat; lra]. }
  assert (Hcl : nonneg (cage_const (etam_large (structure_of h))
                          (Num_h2o (structure_of h)) (Y_large_0 self))).
  { apply cage_const_nonneg; [|exact HYl].
    apply Rmult_le_pos; [lra | left; apply Rinv_0_lt_compat; lra]. }
  pose proof (sum_mul_nonneg _ _ Hcl Hrl) as H2.
  assert (H1 : 0 <= np_sum (arr_mul
            (if (2 <? num_comps self)%nat
             then map2 (fun c d =>
                          c * exp (d - np_sum (arr_mul (Y_small_0 self)
                                                       (D_vec self))))
                       (cage_const (etam_small (structure_of h))
                          (Num_h2o (structure_of h)) (Y_small_0 self))
                       (D_vec self)
             else cage_const (etam_small (structure_of h))
                    (Num_h2o (structure_of h)) (Y_small_0 self))
            (rep_sm_vec self))).
  { apply sum_mul_nonneg; [|exact Hrs].
    destruct (2 <? num_comps self)%nat; [|exact Hcs].
    apply map2_nonneg; [|exact Hcs].
    intros x y Hx. apply Rmult_le_pos; [exact Hx | left; apply exp_pos]. }
  nra.
Qed.

Lemma filled_lattice_size_lower_bound_witness :
  a0_ast (eos (Hs filled_sample)) <= snd (filled_lattice_size filled_sample).
Proof.
  apply (filled_lattice_size_lower_bound filled_sample s1);
    [reflexivity | | | | ]; repeat constructor; cbn; lra.
Defined.

(** ** The mixing term *)

Lemma ln_nonpos (x : R) : 0 < x -> x <= 1 -> ln x <= 0.
Proof.
  intros H0 H1. destruct (Req_dec x 1) as [->|Hne].
  - rewrite ln_1. lra.
  - rewrite <- ln_1. left. apply ln_increasing; lra.
Qed.

(** X5: the mixing term of the chemical potential is never positive:
    when the occupancies of each cage type sum to a value in [0, 1), as
    the occupancy function gives them, delta_mu_func is at most 0, and
    it is 0 when both sums are 0 (empty cages). *)
Theorem delta_mu_func_nonpos (self : Eos) (h : hydstruc_t)
    (HHs : Hs self = structure_of h)
    (Hs1 : 0 <= np_sum (Y_small self) < 1)
    (Hl1 : 0 <= np_sum (Y_large self) < 1) :
  delta_mu_func self <= 0
  /\ (np_sum (Y_small self) = 0 -> np_sum (Y_large self) = 0 ->
      delta_mu_func self = 0).
Proof.
  destruct (structure_of_positive h) as (Hns & Hnl & _ & _ & HN).
  unfold delta_mu_func. rewrite HHs. split.
  - pose proof (ln_nonpos (1 - np_sum (Y_small self)) ltac:(lra) ltac:(lra)).
    pose proof (ln_nonpos (1 - np_sum (Y_large self)) ltac:(lra) ltac:(lra)).
    apply Rmult_le_reg_r with (Num_h2o (structure_of h)); [exact HN|].
    unfold Rdiv. rewrite Rmult_assoc, Rinv_l, Rmult_1_r, Rmult_0_l by lra.
    nra.
  - intros E1 E2. rewrite E1, E2, Rminus_0_r, ln_1. unfold Rdiv. ring.
Qed.

Lemma delta_mu_func_nonpos_witness :
  delta_mu_func filled_sample <= 0.
Proof.
  apply (delta_mu_func_nonpos filled_sample s1 eq_refl); cbn; lra.
Defined.

(** ** Hydrate composition *)

Lemma np_sum_setitem (a : array) :
  forall i v a' u,
    setitem a i v = Ret a' -> nth_error a i = Some u ->
    np_sum a' = np_sum a - u + v.
Proof.
  induction a as [|x a IH]; intros i v a' u Hset Hn.
  - destruct i; discriminate.
  - destruct i as [|i]; simpl in *.
    + injection Hset as <-. injection Hn as ->. simpl. ring.
    + destruct (setitem a i v) as [a''|] eqn:E; [|discriminate].
      simpl in Hset. injection Hset as <-.
      simpl. rewrite (IH i v a'' u E Hn). ring.
Qed.

Lemma setitem_in_range (a : array) :
  forall i v u, nth_error a i = Some u -> exists a', setitem a i v = Ret a'.
Proof.
  induction a as [|x a IH]; intros i v u Hn; [destruct i; discriminate|].
  destruct i as [|i]; simpl in *; [eauto|].
  destruct (IH i v u Hn) as [a' ->]. simpl. eauto.
Qed.

Lemma setitem_nonneg (a : array) :
  forall i v a', setitem a i v = Ret a' -> nonneg a -> 0 <= v -> nonneg a'.
Proof.
  induction a as [|x a IH]; intros i v a' Hset Ha Hv; [discriminate|].
  inversion Ha as [|? ? Hx Ha']; subst.
  destruct i as [|i]; simpl in Hset.
  - injection Hset as <-. constructor; assumption.
  - destruct (setitem a i v) as [a''|] eqn:E; [|discriminate].
    simpl in Hset. injection Hset as <-.
    constructor; [assumption | eapply IH; eauto].
Qed.

Lemma np_sum_map_div (a : array) (d : R) :
  np_sum (map (fun v => v / d) a) = np_sum a / d.
Proof.
  unfold np_sum. induction a as [|x a IH]; simpl; [unfold Rdiv; ring|].
  rewrite IH. unfold Rdiv. ring.
Qed.

Lemma np_sum_nonneg (a : array) : nonneg a -> 0 <= np_sum a.
Proof.
  unfold np_sum. induction 1 as [|x a Hx Ha IH]; simpl; lra.
Qed.

Lemma map_div_nonneg (a : array) (d : R) :
  0 < d -> nonneg a -> nonneg (map (fun v => v / d) a).
Proof.
  intros Hd Ha. induction Ha as [|x a Hx Ha IH]; simpl; constructor;
    [|exact IH].
  apply Rmult_le_pos; [exact Hx | left; apply Rinv_0_lt_compat; exact Hd].
Qed.

Lemma map2_nth_error (f : R -> R -> R) (a b : array) :
  forall i x y, nth_error a i = Some x -> nth_error b i = Some y ->
    nth_error (map2 f a b) i = Some (f x y).
Proof.
  revert b. induction a as [|x0 a IH]; intros b i x y Ha Hb;
    [destruct i; discriminate|].
  destruct b as [|y0 b]; [destruct i; discriminate|].
  destruct i as [|i]; simpl in *; [congruence | eauto].
Qed.

(** X6: the composition [hyd_comp] returns is a set of mole fractions:
    when the occupancies are non-negative and water's own occupancy is 0
    in both cage types (as the occupancy function leaves it), the
    entries are non-negative and sum to 1. *)
Theorem hyd_comp_mole_fractions (self : Eos) (h : hydstruc_t)
    (HHs : Hs self = structure_of h)
    (HYs : nonneg (Y_small self)) (HYl : nonneg (Y_large self))
    (Hws : nth_error (Y_small self) (water_ind self) = Some 0)
    (Hwl : nth_error (Y_large self) (water_ind self) = Some 0) :
  exists x, hyd_comp self = Ret x /\ nonneg x /\ np_sum x = 1.
Proof.
  destruct (structure_of_positive h) as (Hns & Hnl & _ & _ & HN).
  unfold hyd_comp. rewrite HHs.
  set (g := fun ys yl => (Nm_small (structure_of h) * ys
                          + Nm_large (structure_of h) * yl)
                         / Num_h2o (structure_of h)).
  set (x_tmp := map2 g (Y_small self) (Y_large self)).
  assert (Htmp : nonneg x_tmp).
  { unfold x_tmp. clear Hws Hwl. revert HYl.
    generalize (Y_large self). induction HYs as [|a Ys Ha HYs IH];
      intros Yl HYl; [constructor|].
    destruct HYl as [|b Yl Hb HYl]; simpl; constructor; [|apply IH; exact HYl].
    unfold g. apply Rmult_le_pos; [nra | left; apply Rinv_0_lt_compat; lra]. }
  pose proof (np_sum_nonneg _ Htmp) as HS.
  set (d := 1 + np_sum x_tmp) in *.
  assert (Hd : 0 < d) by (unfold d; lra).
  assert (Hw : nth_error (map (fun v => v / d) x_tmp) (water_ind self)
               = Some 0).
  { rewrite (map_nth_error _ _ x_tmp (d := g 0 0)).
    - f_equal. unfold g, Rdiv. ring.
    - unfold x_tmp. apply map2_nth_error; assumption. }
  destruct (setitem_in_range _ _ (1 - np_sum (map (fun v => v / d) x_tmp))
              _ Hw) as [x Hx].
  exists x. split; [exact Hx|].
  rewrite np_sum_map_div in Hx.
  assert (Hfrac : 0 <= 1 - np_sum x_tmp / d).
  { assert (np_sum x_tmp / d <= 1); [|lra].
    apply Rmult_le_reg_r with d; [exact Hd|].
    unfold Rdiv. rewrite Rmult_assoc, Rinv_l by lra. unfold d. lra. }
  split.
  - eapply setitem_nonneg; [exact Hx | apply map_div_nonneg; assumption
                           | exact Hfrac].
  - rewrite (np_sum_setitem _ _ _ _ _ Hx Hw), np_sum_map_div. ring.
Qed.

Lemma hyd_comp_mole_fractions_witness :
  exists x, hyd_comp filled_sample = Ret x /\ nonneg x /\ np_sum x = 1.
Proof.
  apply (hyd_comp_mole_fractions filled_sample s1 eq_refl);
    try reflexivity; repeat constructor; cbn; lra.
Defined.

(** An index of water outside the arrays raises IndexError. *)
Lemma hyd_comp_water_out_of_range (self : Eos) :
  (List.length (Y_small self) <= water_ind self)%nat ->
  hyd_comp self = Raise IndexError.
Proof.
  intros Hlen. unfold hyd_comp.
  set (x := map _ _).
  assert (Hx : (List.length x <= water_ind self)%nat).
  { unfold x. rewrite length_map.
    clear x. revert Hlen. generalize (water_ind self) (Y_large self).
    induction (Y_small self) as [|a Ys IH]; intros n Yl Hn; simpl; [lia|].
    destruct Yl as [|b Yl]; simpl; [lia|].
    destruct n as [|n]; simpl in Hn; [lia|].
    specialize (IH n Yl ltac:(lia)). lia. }
  generalize (1 - np_sum x). revert Hx. generalize (water_ind self).
  induction x as [|v x IH]; intros n Hn r; [reflexivity|].
  destruct n as [|n]; simpl in Hn; [lia|].
  simpl. rewrite IH by lia. reflexivity.
Qed.

(** ** calc, for every argument *)

(** X7: [calc] never returns a fugacity vector and never runs a solve,
    whether [x] is a list or an array and whatever the number of rounds
    allowed; when it returns, it returns [None] and the instance as it
    was.  When [x] is longer than the
    component list it raises RuntimeError; when [x] is shorter it raises
    RuntimeError too, except that an array of two or more entries raises
    the ValueError of its truth value and an empty array the error of
    its truth value, if that is one; with [x] of the right length it
    returns [None] when the list differs from the instance's and raises
    NameError otherwise. *)
Theorem calc_outcomes
    (quad : (R -> R) -> R -> R -> R * R) (np_bool_empty : result bool)
    (fuel : nat) (self : Eos)
    (cs : list Component) (T P : R) (x : pyseq) (eqf : array) :
  calc quad np_bool_empty fuel self cs T P x eqf
  = Some (if (List.length cs <? seq_len x)%nat
          then Raise RuntimeError
          else if (seq_len x <? List.length cs)%nat
          then Raise
                 match x with
                 | PyList _ => RuntimeError
                 | NpArray [] =>
                     match np_bool_empty with
                     | Raise e => e
                     | Ret _ => RuntimeError
                     end
                 | NpArray [_] => RuntimeError
                 | NpArray (_ :: _ :: _) => ValueError
                 end
          else if negb (comps_eqb cs (comps self))
               then Ret (self, None)
               else Raise NameError).
Proof.
  unfold calc, own_comps.
  destruct (List.length cs <? seq_len x)%nat eqn:E1.
  - apply Nat.ltb_lt in E1.
    replace (seq_len x =? List.length cs)%nat with false
      by (symmetry; apply Nat.eqb_neq; lia).
    reflexivity.
  - apply Nat.ltb_ge in E1.
    destruct (seq_len x <? List.length cs)%nat eqn:E2.
    + apply Nat.ltb_lt in E2.
      replace (seq_len x =? List.length cs)%nat with false
        by (symmetry; apply Nat.eqb_neq; lia).
      cbn [negb].
      destruct x as [[|v l]|[|v [|v' l]]]; cbn [py_not bind]; try reflexivity.
      destruct np_bool_empty; reflexivity.
    + apply Nat.ltb_ge in E2.
      replace (seq_len x =? List.length cs)%nat with true
        by (symmetry; apply Nat.eqb_eq; lia).
      cbn [negb].
      destruct (negb (comps_eqb cs (comps self))); [reflexivity|].
      rewrite load_compobjs. cbn [bind].
      destruct (negb (Req_b (own_T self) T) || negb (Req_b (own_P self) P));
        reflexivity.
Qed.

(** ** The index of water *)

Lemma h2o_indices_first (cs : list Component) :
  forall k i rest,
    h2o_indices cs k = i :: rest ->
    (k <= i)%nat
    /\ (exists c, nth_error cs (i - k) = Some c /\ is_h2o c = true)
    /\ (forall j c, (j < i - k)%nat -> nth_error cs j = Some c ->
          is_h2o c = false).
Proof.
  induction cs as [|c0 cs IH]; intros k i rest H; [discriminate|].
  simpl in H. destruct (is_h2o c0) eqn:E.
  - injection H as <- _. replace (k - k)%nat with O by lia.
    split; [lia|]. split; [exists c0; auto|]. intros j c Hj. lia.
  - destruct (IH _ _ _ H) as (Hle & (c & Hc & Hw) & Hbefore).
    replace (i - k)%nat with (S (i - S k)) by lia.
    split; [lia|]. split; [exists c; auto|].
    intros j c' Hj Hn. destruct j as [|j]; simpl in Hn.
    + congruence.
    + apply (Hbefore j c'); [lia | exact Hn].
Qed.

Lemma h2o_indices_nil_no_h2o (cs : list Component) :
  forall k, h2o_indices cs k = [] -> no_h2o cs.
Proof.
  induction cs as [|c0 cs IH]; intros k H; [constructor|].
  simpl in H. destruct (is_h2o c0) eqn:E; [discriminate|].
  constructor; [exact E | eapply IH; eauto].
Qed.

Lemma find_water_first_h2o_aux (cs : list Component) (wi : nat) :
  find_water cs = Ret wi ->
  exists c, nth_error cs wi = Some c /\ is_h2o c = true.
Proof.
  unfold find_water. intros H.
  destruct (h2o_indices cs 0) as [|i rest] eqn:E; [discriminate|].
  cbn in H. injection H as <-.
  destruct (h2o_indices_first cs 0 i rest E) as (_ & Hc & _).
  rewrite Nat.sub_0_r in Hc. exact Hc.
Qed.

(** X8: water is found by name, wherever it stands: the constructor's
    lookup returns the index of the first component named h2o, and for a
    list without such a component it raises IndexError; the RuntimeError
    of its [except ValueError] handler is never raised. *)
Theorem find_water_first_h2o (cs : list Component) :
  match find_water cs with
  | Ret i =>
      (exists c, nth_error cs i = Some c /\ is_h2o c = true)
      /\ (forall j c, (j < i)%nat -> nth_error cs j = Some c ->
            is_h2o c = false)
  | Raise e => e = IndexError /\ no_h2o cs
  end.
Proof.
  unfold find_water.
  destruct (h2o_indices cs 0) as [|i rest] eqn:E.
  - cbn. split; [reflexivity|]. eapply h2o_indices_nil_no_h2o; eauto.
  - cbn. destruct (h2o_indices_first cs 0 i rest E) as (_ & Hc & Hb).
    rewrite Nat.sub_0_r in Hc, Hb. auto.
Qed.

(** ** Resolving a structure *)

Lemma py_in_str_cases (t : string) (l : list string) :
  existsb (pyval_eqb (PyStr t)) (map PyStr l) = true -> In t l.
Proof.
  induction l as [|u l IH]; simpl; [discriminate|].
  intros H. apply orb_true_iff in H. destruct H as [H|H].
  - left. symmetry. apply String.eqb_eq. exact H.
  - right. apply IH. exact H.
Qed.

Lemma menu_strings (t : string) (h : hydstruc_t) :
  py_in (PyStr t) (menu h) = true ->
  In t match h with
       | s1 => ["s1"; "1"; "si"; "i"; "one"]
       | s2 => ["s2"; "2"; "sii"; "ii"; "two"]
       | sH => ["sh"; "h"]
       end%string.
Proof.
  intros H. apply py_in_str_cases. destruct h; exact H.
Qed.

(** The alias sets do not overlap. *)
Lemma menu_disjoint (t : string) (h h' : hydstruc_t) :
  py_in (PyStr t) (menu h) = true -> py_in (PyStr t) (menu h') = true ->
  h = h'.
Proof.
  intros H H'. apply menu_strings in H.
  destruct h; simpl in H;
    repeat (destruct H as [<-|H]; [destruct h'; (reflexivity || discriminate)|]);
    contradiction.
Qed.

Lemma structure_of_inj (h h' : hydstruc_t) :
  structure_of h = structure_of h' -> h = h'.
Proof.
  intros H. apply (f_equal hydstruc) in H. destruct h, h'; simpl in H; congruence.
Qed.

(** X9: a string resolves to a structure exactly when its lower-case
    form is in that structure's alias set; the match ignores case, and
    a string in no alias set is refused with RuntimeError. *)
Theorem HydrateStructure_init_resolves (s : string) :
  (forall h, HydrateStructure_init (PyStr s) = Ret (structure_of h)
             <-> py_in (PyStr (lower s)) (menu h) = true)
  /\ HydrateStructure_init (PyStr s) = HydrateStructure_init (PyStr (lower s))
  /\ ((forall h, py_in (PyStr (lower s)) (menu h) = false) ->
      HydrateStructure_init (PyStr s) = Raise RuntimeError).
Proof.
  split; [|split].
  - intros h. unfold HydrateStructure_init. cbn [py_str].
    destruct (py_in (PyStr (lower s)) (menu s1)) eqn:E1.
    { split; intros H.
      - assert (Hh : s1 = h) by (apply structure_of_inj; congruence).
        subst h. exact E1.
      - rewrite (menu_disjoint _ _ _ E1 H). reflexivity. }
    destruct (py_in (PyStr (lower s)) (menu s2)) eqn:E2.
    { split; intros H.
      - assert (Hh : s2 = h) by (apply structure_of_inj; congruence).
        subst h. exact E2.
      - rewrite (menu_disjoint _ _ _ E2 H). reflexivity. }
    destruct (py_in (PyStr (lower s)) (menu sH)) eqn:E3.
    { split; intros H.
      - assert (Hh : sH = h) by (apply structure_of_inj; congruence).
        subst h. exact E3.
      - rewrite (menu_disjoint _ _ _ E3 H). reflexivity. }
    split; intros H; [discriminate|].
    destruct h; congruence.
  - apply HydrateStructure_init_lower.
  - intros H. apply (HydrateStructure_init_unknown (PyStr s)). exact H.
Qed.

(** X10: no instance can be built on structure sH: whenever the list has
    a component named h2o and the identifier resolves to sH, the
    constructor stops with AttributeError, the sH table having no shell
    radii. *)
Theorem init_sH_always_AttributeError
    (quad : (R -> R) -> R -> R -> R * R) (fuel : nat)
    (cs : list Component) (T0 P0 : R) (structure : pyval) (wi : nat)
    (Hw : find_water cs = Ret wi)
    (HsH : HydrateStructure_init structure = Ret (structure_of sH)) :
  HvdwpmEos_init quad fuel cs T0 P0 structure = Some (Raise AttributeError).
Proof.
  unfold HvdwpmEos_init. rewrite Hw, HsH. reflexivity.
Qed.

Lemma init_sH_always_AttributeError_witness :
  HvdwpmEos_init (quad_const 1) 2 [water; methane; ethane] 277.15 30
    (PyStr "H") = Some (Raise AttributeError).
Proof.
  apply (init_sH_always_AttributeError (quad_const 1) 2
           [water; methane; ethane] 277.15 30 (PyStr "H") 0%nat);
    reflexivity.
Defined.

(** ** Edge cases of a fugacity call *)

Lemma all_eq_refl (a : array) : all_eq a a = true.
Proof.
  induction a as [|x a IH]; simpl; [reflexivity|].
  rewrite Req_b_true, IH. reflexivity.
Qed.

(** X11: on an instance no fugacity call has returned on yet, an
    [eq_fug] of zeros only equals the stored vector and takes the branch
    that copies [self.fug], still the integer 0: the call raises
    AttributeError, whatever the number of components, T and P. *)
Theorem fresh_zero_eq_fug_raises_AttributeError
    (quad : (R -> R) -> R -> R -> R * R) (fuel : nat)
    (cs : list Component) (T0 P0 : R) (structure : pyval) (self : Eos)
    (Hinit : HvdwpmEos_init quad fuel cs T0 P0 structure = Some (Ret self)) :
  forall fuel' cs' T P x,
    fugacity quad fuel' self cs' T P x (np_zeros (List.length cs))
    = Some (Raise AttributeError).
Proof.
  apply HvdwpmEos_init_constructed in Hinit.
  destruct Hinit as [Hwf Ecs En ET EP Ew Ek0 Efug Eeq ECs ECl Ens Ha Hv Hk].
  intros fuel' cs' T P x. unfold fugacity.
  rewrite np_zeros_length, En, Nat.eqb_refl. cbn [negb].
  rewrite Eeq, all_eq_refl, Efug. reflexivity.
Qed.

Lemma fresh_zero_eq_fug_witness :
  exists self,
    HvdwpmEos_init (quad_const 1) 2 [water; methane; ethane] 277.15 30
      (PyStr "s1") = Some (Ret self)
    /\ fugacity (quad_const 1) 2 self [water; methane; ethane] 277.15 30
         [0.8; 0.1; 0.1] (np_zeros 3) = Some (Raise AttributeError).
Proof.
  destruct init_water_methane_ethane as [self H]. exists self.
  split; [exact H|].
  exact (fresh_zero_eq_fug_raises_AttributeError _ _ _ _ _ _ _ H 2%nat
           [water; methane; ethane] 277.15 30 [0.8; 0.1; 0.1]).
Defined.

(** X12: a temperature of 0 is not refused up front.  With T the Python
    float 0.0 (the type the docstring gives T), a fugacity call on an
    instance of more than two components reaches the langmuir constants
    of the first round and raises ZeroDivisionError from the division by
    k*T.  (A numpy float64 zero would divide to inf there and is outside
    the model.) *)
Theorem zero_temperature_raises_ZeroDivisionError
    (quad : (R -> R) -> R -> R -> R * R) (fuel : nat)
    (cs : list Component) (T0 P0 : R) (structure : pyval) (self : Eos)
    (eqf : array)
    (Hinit : HvdwpmEos_init quad fuel cs T0 P0 structure = Some (Ret self))
    (Hn : (2 < List.length cs)%nat)
    (Hlen : List.length eqf = List.length cs)
    (Hnew : all_eq eqf (np_zeros (List.length cs)) = false) :
  forall fuel' cs' P x,
    fugacity quad (S fuel') self cs' 0 P x eqf
    = Some (Raise ZeroDivisionError).
Proof.
  apply HvdwpmEos_init_constructed in Hinit.
  destruct Hinit as [Hwf Ecs En ET EP Ew Ek0 Efug Eeq ECs ECl Ens [a Ea]
                       [v Ev] [kt [Ekt [_ Hnp]]]].
  destruct (Hnp Hn) as [kv ->].
  destruct Hwf as [_ (an & Rt & Han & HRt & _)].
  intros fuel' cs' P x. unfold fugacity.
  rewrite Hlen, En, Nat.eqb_refl. cbn [negb].
  rewrite Eeq, Hnew.
  unfold find_hydrate_properties.
  cbn [C_small C_large kappa_tmp a_0 num_comps count_solve].
  rewrite ECs, Ekt, Ea. cbn [getattr scalar_copy bind].
  cbn [hydrate_loop]. rewrite Rgt_b_1e6_TOL.
  unfold iterate_function, langmuir_consts, compute_integral_constants.
  cbn [Hs count_solve]. rewrite Han, HRt. cbn [getattr bind].
  rewrite Rmult_0_r, Req_b_true. reflexivity.
Qed.

Lemma zero_temperature_witness :
  exists self,
    HvdwpmEos_init (quad_const 1) 2 [water; methane; ethane] 277.15 30
      (PyStr "s1") = Some (Ret self)
    /\ fugacity (quad_const 1) 1 self [water; methane; ethane] 0 30
         [0.8; 0.1; 0.1] [0; 25; 1] = Some (Raise ZeroDivisionError).
Proof.
  destruct init_water_methane_ethane as [self H]. exists self.
  split; [exact H|].
  apply (zero_temperature_raises_ZeroDivisionError _ _ _ _ _ _ _ _ H);
    [simpl; lia | reflexivity | apply all_eq_0_25].
Defined.

(** X13: a fugacity call that returns leaves the reference state and
    the constants of T and P as they were: the reference lattice size
    and volume, the stored T and P, gw0_RT and gwbeta_RT and the stored
    eq_fug are not written, also when the call's T or P differ from the
    stored ones; the vector returned is the one stored in [self.fug]. *)
Theorem fugacity_keeps_reference_state
    (quad : (R -> R) -> R -> R -> R * R) (fuel : nat) (self : Eos)
    (cs : list Component) (T' P' : R) (x eqf : array) (self' : Eos)
    (fg : array)
    (Hret : fugacity quad fuel self cs T' P' x eqf = Some (Ret (self', fg))) :
  a_0 self' = a_0 self /\ v_H_0 self' = v_H_0 self
  /\ T self' = T self /\ P self' = P self
  /\ gw0_RT self' = gw0_RT self /\ gwbeta_RT self' = gwbeta_RT self
  /\ eq_fug self' = eq_fug self /\ comps self' = comps self
  /\ fug self' = FugArr fg.
Proof.
  apply fugacity_inv in Hret.
  destruct Hret as (base & s1 & vH0 & act & _ & Hsolve & _ & _ & _ & ->).
  apply find_hydrate_properties_inv in Hsolve.
  destruct Hsolve as (Hst & _ & Ea & Ev & _).
  destruct Hst as (_ & Ecs & _ & ET & EP & Egw & _ & _ & _ & _ & _ & _ & _
                   & _ & _ & Eeq & _ & Egb & _).
  cbn. repeat split; assumption.
Qed.

Lemma fugacity_keeps_reference_state_witness :
  exists self self' fg,
    HvdwpmEos_init (quad_const 1) 2 [water; methane; ethane] 277.15 30
      (PyStr "s1") = Some (Ret self)
    /\ fugacity (quad_const 1) 2 self [water; methane; ethane] 280 35
         [0.8; 0.1; 0.1] [0; 25; 1] = Some (Ret (self', fg))
    /\ T self' = 277.15 /\ P self' = 30
    /\ a_0 self' = a_0 self /\ gw0_RT self' = gw0_RT self.
Proof.
  destruct init_water_methane_ethane as [self H].
  pose proof (HvdwpmEos_init_constructed _ _ _ _ _ _ _ H) as Hc.
  pose proof (constructed_ready _ _ _ _ Hc ltac:(simpl; lia)) as Hr.
  destruct Hc as [Hwf Ecs En ET EP Ew Ek0 Efug Eeq ECs ECl Ens Ha Hv Hk].
  assert (Hnew : all_eq [0; 25; 1] (eq_fug self) = false)
    by (rewrite Eeq; apply all_eq_0_25).
  destruct (fugacity_const 1 self 280 35 [0.8; 0.1; 0.1] [0; 25; 1] Hr)
    as (self' & fg & Hfg & _);
    [lra | lra | rewrite En; reflexivity | rewrite Hnew; discriminate |].
  rewrite Ecs in Hfg.
  exists self, self', fg. split; [exact H|]. split; [exact Hfg|].
  destruct (fugacity_keeps_reference_state _ _ _ _ _ _ _ _ _ _ Hfg)
    as (Ea & _ & ET' & EP' & Eg & _).
  rewrite ET', EP', ET, EP. auto.
Defined.

(** ** The measure at a fixed point and at a zero constant *)

Lemma err_fold_fixed (cs : list Component) :
  forall C L, guests_nonzero cs C L ->
    err_fold cs C C L L (Fin 0) = Fin 0.
Proof.
  induction cs as [|comp cs IH]; intros C L H; [reflexivity|].
  destruct C as [|c C]; [reflexivity|]. destruct L as [|l L]; [reflexivity|].
  cbn [err_fold guests_nonzero] in *. destruct H as [Hg Hrest].
  destruct (is_h2o comp); [apply IH; exact Hrest|].
  destruct (Hg eq_refl) as [Hc Hl].
  unfold np_absdiv. rewrite (Req_b_false c 0 Hc), (Req_b_false l 0 Hl).
  cbn [np_add].
  replace (0 + (Rabs (c - c) / c + Rabs (l - l) / l)) with 0;
    [apply IH; exact Hrest|].
  rewrite !Rminus_diag, Rabs_R0. unfold Rdiv. ring.
Qed.

(** X14: a round that reproduces the langmuir constants ends the loop:
    when the new constants equal the old ones and those of every
    non-water component are non-zero, the convergence measure is 0,
    which is not greater than the tolerance. *)
Theorem conv_error_fixed_point (cs : list Component) (C L : array)
    (LC : List.length C = List.length cs)
    (LL : List.length L = List.length cs)
    (Hnz : guests_nonzero cs C L) :
  conv_error cs 0 C C L L (Fin 0) = Ret (Fin 0)
  /\ np_gt (Fin 0) TOL = false.
Proof.
  split; [|apply np_gt_0_TOL].
  rewrite conv_error_0 by assumption.
  rewrite err_fold_fixed by exact Hnz. reflexivity.
Qed.

Lemma conv_error_fixed_point_witness :
  conv_error [water; methane; ethane] 0 [0; 3; 2] [0; 3; 2] [0; 1; 5]
    [0; 1; 5] (Fin 0) = Ret (Fin 0)
  /\ np_gt (Fin 0) TOL = false.
Proof.
  apply (conv_error_fixed_point [water; methane; ethane] [0; 3; 2]
           [0; 1; 5] eq_refl eq_refl).
  cbn. repeat split; try discriminate; lra.
Defined.

Lemma err_fold_nan_acc (cs : list Component) :
  forall Csn Cs Cln Cl, err_fold cs Csn Cs Cln Cl NaN = NaN.
Proof.
  induction cs as [|comp cs IH]; intros Csn Cs Cln Cl; [reflexivity|].
  destruct Csn, Cs, Cln, Cl; try reflexivity.
  cbn [err_fold]. destruct (is_h2o comp); [apply IH|].
  cbn [np_add]. apply IH.
Qed.

Lemma np_add_nan_inner (acc y : npfloat) : np_add acc (np_add NaN y) = NaN.
Proof. destruct acc; reflexivity. Qed.

Lemma err_fold_nan (cs : list Component) :
  forall Csn Cs Cln Cl acc i comp,
    List.length Csn = List.length cs -> List.length Cs = List.length cs ->
    List.length Cln = List.length cs -> List.length Cl = List.length cs ->
    nth_error cs i = Some comp -> is_h2o comp = false ->
    nth_error Csn i = Some 0 -> nth_error Cs i = Some 0 ->
    err_fold cs Csn Cs Cln Cl acc = NaN.
Proof.
  induction cs as [|c0 cs IH];
    intros Csn Cs Cln Cl acc i comp L1 L2 L3 L4 Hi Hg Hn Ho;
    [destruct i; discriminate|].
  destruct Csn as [|sn Csn]; [discriminate|].
  destruct Cs as [|so Cs]; [discriminate|].
  destruct Cln as [|ln_ Cln]; [discriminate|].
  destruct Cl as [|lo Cl]; [discriminate|].
  simpl in L1, L2, L3, L4. cbn [err_fold].
  destruct i as [|i]; simpl in Hi, Hn, Ho.
  - injection Hi as ->. injection Hn as ->. injection Ho as ->.
    rewrite Hg. unfold np_absdiv at 1.
    replace (0 - 0) with 0 by ring. rewrite Req_b_true.
    rewrite np_add_nan_inner. apply err_fold_nan_acc.
  - eapply IH; eauto.
Qed.

(** X15: a zero constant also ends the loop: when some non-water
    component has a new and an old small-cage constant of 0 (an
    integrator returning 0 in the first round), the unguarded division
    gives a measure of NaN, which no comparison finds greater than the
    tolerance, so the loop stops as if it had converged. *)
Theorem conv_error_nan_ends_loop (cs : list Component)
    (C_small_new C_small C_large_new C_large : array) (i : nat)
    (comp : Component)
    (L1 : List.length C_small_new = List.length cs)
    (L2 : List.length C_small = List.length cs)
    (L3 : List.length C_large_new = List.length cs)
    (L4 : List.length C_large = List.length cs)
    (Hi : nth_error cs i = Some comp) (Hg : is_h2o comp = false)
    (Hn : nth_error C_small_new i = Some 0)
    (Ho : nth_error C_small i = Some 0) :
  conv_error cs 0 C_small_new C_small C_large_new C_large (Fin 0) = Ret NaN
  /\ np_gt NaN TOL = false.
Proof.
  split; [|reflexivity].
  rewrite conv_error_0 by assumption.
  rewrite (err_fold_nan cs _ _ _ _ (Fin 0) i comp) by assumption.
  reflexivity.
Qed.

Lemma conv_error_nan_ends_loop_witness :
  conv_error [water; methane] 0 [0; 0] [0; 0] [0; 1] [0; 0] (Fin 0) = Ret NaN
  /\ np_gt NaN TOL = false.
Proof.
  apply (conv_error_nan_ends_loop [water; methane] [0; 0] [0; 0] [0; 1]
           [0; 0] 1%nat methane); reflexivity.
Defined.

(** ** Occupancy against fugacity *)

Lemma sum_mul_setitem (C : array) :
  forall f i v f' c e,
    setitem f i v = Ret f' -> nth_error C i = Some c ->
    nth_error f i = Some e ->
    np_sum (arr_mul C f') = np_sum (arr_mul C f) + c * (v - e).
Proof.
  unfold np_sum, arr_mul.
  induction C as [|c0 C IH]; intros f i v f' c e Hset HC Hf;
    [destruct i; discriminate|].
  destruct f as [|e0 f]; [destruct i; discriminate|].
  destruct i as [|i]; simpl in *.
  - injection Hset as <-. injection HC as ->. injection Hf as ->.
    simpl. ring.
  - destruct (setitem f i v) as [f''|] eqn:E; [|discriminate].
    simpl in Hset. injection Hset as <-. simpl.
    rewrite (IH f i v f'' c e E HC Hf). ring.
Qed.

Lemma term_le_sum_mul (C : array) :
  forall f i c e, nonneg C -> nonneg f ->
    nth_error C i = Some c -> nth_error f i = Some e ->
    c * e <= np_sum (arr_mul C f).
Proof.
  induction C as [|c0 C IH]; intros f i c e HC Hf Hc He;
    [destruct i; discriminate|].
  destruct f as [|e0 f]; [destruct i; discriminate|].
  inversion HC as [|? ? Hc0 HC']; subst.
  inversion Hf as [|? ? He0 Hf']; subst.
  pose proof (sum_mul_nonneg C f HC' Hf') as Hs.
  unfold np_sum, arr_mul in *.
  destruct i as [|i]; simpl in *.
  - injection Hc as ->. injection He as ->. lra.
  - specialize (IH f i c e HC' Hf' Hc He). nra.
Qed.

Lemma setitem_length (a : array) :
  forall i v a', setitem a i v = Ret a' -> List.length a' = List.length a.
Proof.
  induction a as [|x a IH]; intros i v a' H; [discriminate|].
  destruct i as [|i]; simpl in H.
  - injection H as <-. reflexivity.
  - destruct (setitem a i v) as [a''|] eqn:E; [|discriminate].
    simpl in H. injection H as <-. simpl. f_equal. eapply IH; eauto.
Qed.

Lemma setitem_nth_same (a : array) :
  forall i v a', setitem a i v = Ret a' -> nth_error a' i = Some v.
Proof.
  induction a as [|x a IH]; intros i v a' H; [discriminate|].
  destruct i as [|i]; simpl in H.
  - injection H as <-. reflexivity.
  - destruct (setitem a i v) as [a''|] eqn:E; [|discriminate].
    simpl in H. injection H as <-. simpl. eapply IH; eauto.
Qed.

(** X16: the occupancy of a guest grows with its own fugacity: with
    non-negative constants and fugacities and a positive constant of
    the guest, raising that guest's fugacity alone, all else fixed,
    strictly raises its occupancy. *)
Theorem calc_langmuir_monotone (self : Eos) (C f f' : array) (i : nat)
    (comp : Component) (c e e' : R)
    (HC : List.length C = List.length (comps self))
    (Hf : List.length f = List.length (comps self))
    (HCpos : nonneg C) (Hfpos : nonneg f)
    (Hi : nth_error (comps self) i = Some comp) (Hg : is_h2o comp = false)
    (Hc : nth_error C i = Some c) (Hcpos : 0 < c)
    (He : nth_error f i = Some e) (Hlt : e < e')
    (Hset : setitem f i e' = Ret f') :
  exists Y Y' y y',
    calc_langmuir self C f = Ret Y /\ calc_langmuir self C f' = Ret Y'
    /\ nth_error Y i = Some y /\ nth_error Y' i = Some y' /\ y < y'.
Proof.
  pose proof (setitem_length _ _ _ _ Hset) as Hlen'.
  pose proof (setitem_nth_same _ _ _ _ Hset) as He'.
  rewrite (calc_langmuir_occ self C f HC Hf).
  rewrite (calc_langmuir_occ self C f' HC) by congruence.
  do 4 eexists. split; [reflexivity|]. split; [reflexivity|].
  rewrite (occ_nth _ _ C f i comp c e Hi Hc He).
  rewrite (occ_nth _ _ C f' i comp c e' Hi Hc He').
  rewrite Hg. split; [reflexivity|]. split; [reflexivity|].
  rewrite (sum_mul_setitem C f i e' f' c e Hset Hc He).
  pose proof (term_le_sum_mul C f i c e HCpos Hfpos Hc He) as Hterm.
  assert (He0 : 0 <= e).
  { unfold nonneg in Hfpos. rewrite Forall_forall in Hfpos.
    apply Hfpos. eapply nth_error_In; eauto. }
  set (S := np_sum (arr_mul C f)) in *.
  assert (HD : 0 < 1 + S) by nra.
  assert (HD' : 0 < 1 + (S + c * (e' - e))) by nra.
  apply Rmult_lt_reg_r with (1 + S); [exact HD|].
  apply Rmult_lt_reg_r with (1 + (S + c * (e' - e))); [exact HD'|].
  replace (c * e / (1 + S) * (1 + S) * (1 + (S + c * (e' - e))))
    with (c * e * (1 + (S + c * (e' - e)))) by (field; lra).
  replace (c * e' / (1 + (S + c * (e' - e))) * (1 + S)
           * (1 + (S + c * (e' - e))))
    with (c * e' * (1 + S)) by (field; lra).
  assert (0 < c * (e' - e) * (1 + S - c * e)) by
      (apply Rmult_lt_0_compat; nra).
  nra.
Qed.

Lemma calc_langmuir_monotone_witness :
  exists Y Y' y y',
    calc_langmuir filled_sample [0; 2] [0; 3] = Ret Y
    /\ calc_langmuir filled_sample [0; 2] [0; 4] = Ret Y'
    /\ nth_error Y 1 = Some y /\ nth_error Y' 1 = Some y' /\ y < y'.
Proof.
  apply (calc_langmuir_monotone filled_sample [0; 2] [0; 3] [0; 4] 1%nat
           methane 2 3 4); try reflexivity;
    try (repeat constructor; lra); lra.
Defined.

(** ** Constants of guests that fit the cage *)

Lemma integrand_nonneg (r : R) (Rs z : array) (eps_k sigma aj T : R) :
  0 <= integrand r Rs z eps_k sigma aj T.
Proof.
  unfold integrand. apply Rmult_le_pos; [|left; apply exp_pos].
  simpl. nra.
Qed.

(** The constants of one guest that fits both cages. *)
Lemma langmuir_nonneg_when_guest_fits
    (quad : (R -> R) -> R -> R -> R * R) (s : Eos) (T : R)
    (comp : Component)
    (Hquad : forall f a b, a <= b -> (forall r, 0 <= f r) ->
                           0 <= fst (quad f a b))
    (HT : 0 < T)
    (Hfit_s : 0 <= guest_upper (R_sm s) comp)
    (Hfit_l : 0 <= guest_upper (R_lg s) comp) :
  0 <= langmuir_small quad s T comp /\ 0 <= langmuir_large quad s T comp.
Proof.
  pose proof (C_const_pos T HT) as HC.
  unfold langmuir_small, langmuir_large, guest_int.
  destruct (is_h2o comp); [lra|].
  split; apply Rmult_le_pos; try lra; apply Hquad; try assumption;
    intros r; apply integrand_nonneg.
Qed.

Lemma quad_mid_positive (f : R -> R) (a b : R) :
  a <= b -> (forall r, 0 <= f r) -> 0 <= fst (quad_mid f a b).
Proof.
  intros Hab Hf. unfold quad_mid. cbn [fst].
  apply Rmult_le_pos; [lra | apply Hf].
Qed.

(** X17: the langmuir integrand is never negative, so with an integrator
    that gives a non-negative value for a non-negative function over an
    interval whose bounds are in order, [langmuir_consts] returns
    non-negative constants at T > 0 whenever no guest's core is wider
    than a cage (every upper bound at least 0). *)
Theorem langmuir_consts_nonneg_when_guests_fit
    (quad : (R -> R) -> R -> R -> R * R) (s : Eos) (T P l k an : R)
    (Rt : Shells)
    (Hlen : List.length (comps s) = num_comps s)
    (Han : a_norm (eos (Hs s)) = Some an)
    (HRt : R_tab (eos (Hs s)) = Some Rt)
    (Hsm : sm Rt <> []) (Hlg : lg Rt <> [])
    (HT : 0 < T)
    (Hquad : forall f a b, a <= b -> (forall r, 0 <= f r) ->
                           0 <= fst (quad f a b))
    (Hfit : forall comp, In comp (comps s) -> is_h2o comp = false ->
              0 <= guest_upper (R_sm (scaled_shells s an Rt P l k)) comp
              /\ 0 <= guest_upper (R_lg (scaled_shells s an Rt P l k)) comp) :
  exists s' Cs Cl calls,
    langmuir_consts quad s (comps s) T P l k = Ret (s', (Cs, Cl, calls))
    /\ nonneg Cs /\ nonneg Cl.
Proof.
  assert (HT0 : T <> 0) by lra.
  pose proof (langmuir_consts_closed quad s T P l k an Rt Hlen Han HRt
                Hsm Hlg HT0) as Hc.
  cbv zeta in Hc. do 4 eexists. split; [exact Hc|].
  split; apply Forall_forall; intros v Hv; apply in_map_iff in Hv;
    destruct Hv as (comp & <- & Hin).
  - destruct (is_h2o comp) eqn:E;
      [unfold langmuir_small; rewrite E; lra|].
    destruct (Hfit comp Hin E) as [H1 H2].
    apply (langmuir_nonneg_when_guest_fits quad _ T comp Hquad HT H1 H2).
  - destruct (is_h2o comp) eqn:E;
      [unfold langmuir_large; rewrite E; lra|].
    destruct (Hfit comp Hin E) as [H1 H2].
    apply (langmuir_nonneg_when_guest_fits quad _ T comp Hquad HT H1 H2).
Qed.

Lemma langmuir_consts_nonneg_witness :
  exists s,
    make_constant_mats
      (init_attrs 0 (structure_of s1) shells_R_s1 shells_z_s1
         [water; methane] T_0 P_0) [water; methane] T_0 P_0 = (s, None)
    /\ exists s' Cs Cl calls,
         langmuir_consts quad_mid s (comps s) T_0 P_0 (a0_ast table_s1)
           (kappa table_s1) = Ret (s', (Cs, Cl, calls))
         /\ nonneg Cs /\ nonneg Cl.
Proof.
  eexists. split; [reflexivity|].
  match goal with
  | |- context [langmuir_consts _ ?s0 _ _ _ _ _] => set (s := s0)
  end.
  apply (langmuir_consts_nonneg_when_guests_fit quad_mid s T_0 P_0
           (a0_ast table_s1) (kappa table_s1) 12.03 shells_R_s1);
    try reflexivity; try discriminate.
  - unfold T_0. lra.
  - exact quad_mid_positive.
  - intros comp Hin Hg.
    unfold guest_upper, scaled_shells, s.
    cbn [R_sm R_lg set_R lattice_Tfactor set_constant_mats Hs init_attrs
         shells_R_s1 sm lg map arr_min fold_left].
    rewrite !Hydrate_size_ref. cbn [a0_ast table_s1].
    assert (Ha : kih_a (kih comp) = 0.3834).
    { destruct Hin as [<-|[<-|[]]]; [discriminate Hg | reflexivity]. }
    rewrite Ha.
    set (af := 11.99245 / 12.03 * 1 * 1).
    assert (Haf : 0.99 <= af <= 1) by (unfold af; lra).
    split.
    + assert (3.7 <= Rmin (3.83 * af) (3.96 * af))
        by (apply Rmin_glb; lra).
      lra.
    + assert (4 <= Rmin (Rmin (Rmin (4.47 * af) (4.06 * af)) (4.645 * af))
                        (4.25 * af))
        by (repeat apply Rmin_glb; lra).
      lra.
Defined.

(** ** The constants of T and P *)

(** X18: the constants [make_constant_mats] leaves depend on the last T
    and P only, not on the calls made before: a call after another one
    gives what the call alone gives, so repeating a call changes nothing
    and skipping the call while T and P are unchanged loses nothing.  A
    call with a list too short for the water index is no exception to
    this but leaves the instance inconsistent: it raises IndexError
    after T and P have been overwritten, with the ideal-gas term, the
    empty-lattice term and the thermal factors still those of the
    earlier T and P. *)
Theorem make_constant_mats_last_call_wins (self : Eos) (cs : list Component)
    (T1 P1 T2 P2 : R) :
  let s1 := fst (make_constant_mats self cs T1 P1) in
  make_constant_mats s1 cs T2 P2 = make_constant_mats self cs T2 P2
  /\ make_constant_mats s1 cs T1 P1 = (s1, snd (make_constant_mats self cs T1 P1))
  /\ (nth_error cs (water_ind self) = None ->
      snd (make_constant_mats self cs T1 P1) = Some IndexError
      /\ T s1 = T1 /\ P s1 = P1
      /\ gw0_RT s1 = gw0_RT self /\ gwbeta_RT s1 = gwbeta_RT self
      /\ vol_Tfactor s1 = vol_Tfactor self
      /\ lattice_Tfactor s1 = lattice_Tfactor self)
  /\ (forall w, nth_error cs (water_ind self) = Some w ->
      snd (make_constant_mats self cs T1 P1) = None
      /\ T s1 = T1 /\ P s1 = P1 /\ gw0_RT s1 = gibbs_ideal w T1 P1
      /\ gwbeta_RT s1 = gwbeta_RT_of self T1 P1
      /\ vol_Tfactor s1 = lattice_Tfactor s1 ^ 3).
Proof.
  unfold make_constant_mats, getitem.
  destruct (nth_error cs (water_ind self)) as [w|] eqn:E;
    cbn [fst snd water_ind set_constant_mats]; rewrite E.
  - split; [reflexivity|]. split; [reflexivity|].
    split; [discriminate|]. intros w' Hw. injection Hw as <-.
    repeat split.
    cbn [vol_Tfactor lattice_Tfactor set_constant_mats].
    pose proof (Hydrate_size_cubed (Hs self) T1 P_0 1 (kappa0 self)) as Hc.
    rewrite Hc. replace (1 ^ 3) with 1 by ring. reflexivity.
  - split; [reflexivity|]. split; [reflexivity|].
    split; [|discriminate]. intros _. repeat split.
Qed.

(** ** What an operating-state solve leaves *)

Section SolveResult.

Variable quad : (R -> R) -> R -> R -> R * R.

Lemma hydrate_loop_kappa fuel :
  forall s cs T P f Cs Cl l k e s' Cs' Cl' k',
    hydrate_loop quad fuel s cs T P f Cs Cl l k e
    = Some (Ret (s', Cs', Cl', k')) ->
    np_gt e TOL = true \/ (exists s0 Y, k = kappa_func s0 Y
                                        /\ num_comps s0 = num_comps s) ->
    exists s0 Y, k' = kappa_func s0 Y /\ num_comps s0 = num_comps s.
Proof.
  induction fuel as [|fuel IH];
    intros s cs T P f Cs Cl l k e s' Cs' Cl' k' H Hk;
    cbn [hydrate_loop] in H; destruct (np_gt e TOL) eqn:He.
  - discriminate.
  - injection H as <- <- <- <-.
    destruct Hk as [Hk|Hk]; [discriminate | exact Hk].
  - destruct (iterate_function quad s cs T P f l (sval k))
      as [[s1 [[[Csn Cln] Ys] Yl]]|] eqn:Hit; [|discriminate].
    destruct (conv_error cs 0 Csn Cs Cln Cl (Fin 0)) as [e'|]; [|discriminate].
    apply iterate_function_frame in Hit.
    destruct Hit as [(_ & _ & En & _) _].
    apply IH in H.
    + destruct H as (s0 & Y & Hk' & En0). exists s0, Y.
      split; [exact Hk'|]. cbn in En0. congruence.
    + right. exists (set_Y s1 Ys Yl), (Y_large (set_Y s1 Ys Yl)).
      split; reflexivity.
  - injection H as <- <- <- <-.
    destruct Hk as [Hk|Hk]; [discriminate | exact Hk].
Qed.

Lemma langmuir_loop_length self cs :
  forall ii T C Cs Cl calls Cs' Cl' calls',
    langmuir_loop quad self cs ii T C Cs Cl calls = Ret (Cs', Cl', calls') ->
    List.length Cs' = List.length Cs /\ List.length Cl' = List.length Cl.
Proof.
  induction cs as [|comp cs IH]; intros ii T C Cs Cl calls Cs' Cl' calls' H.
  - cbn [langmuir_loop] in H. injection H as <- <- _. split; reflexivity.
  - cbn [langmuir_loop] in H. destruct (negb (is_h2o comp)).
    + destruct (py_min (R_sm self)) as [ms|]; [|discriminate].
      cbn [bind] in H.
      destruct (py_min (R_lg self)) as [ml|]; [|discriminate].
      cbn [bind] in H.
      destruct (setitem Cs ii _) as [Cs1|] eqn:E1; [|discriminate].
      cbn [bind] in H.
      destruct (setitem Cl ii _) as [Cl1|] eqn:E2; [|discriminate].
      cbn [bind] in H.
      apply IH in H. destruct H as [H1 H2].
      rewrite H1, H2, (setitem_length _ _ _ _ E1), (setitem_length _ _ _ _ E2).
      split; reflexivity.
    + destruct (setitem Cs ii 0) as [Cs1|] eqn:E1; [|discriminate].
      cbn [bind] in H.
      destruct (setitem Cl ii 0) as [Cl1|] eqn:E2; [|discriminate].
      cbn [bind] in H.
      apply IH in H. destruct H as [H1 H2].
      rewrite H1, H2, (setitem_length _ _ _ _ E1), (setitem_length _ _ _ _ E2).
      split; reflexivity.
Qed.

Lemma iterate_function_length s cs T P f l k s' Cs Cl Ys Yl :
  iterate_function quad s cs T P f l k = Ret (s', (Cs, Cl, Ys, Yl)) ->
  List.length Cs = num_comps s /\ List.length Cl = num_comps s.
Proof.
  unfold iterate_function. intros H.
  apply bind_Ret_inv in H. destruct H as [[s1 [[Cs1 Cl1] calls]] [H1 H]].
  apply bind_Ret_inv in H. destruct H as [Ys1 [_ H]].
  apply bind_Ret_inv in H. destruct H as [Yl1 [_ H]].
  injection H as _ <- <- _ _.
  unfold langmuir_consts in H1.
  apply bind_Ret_inv in H1. destruct H1 as [s2 [Hc H1]].
  destruct (Req_b (k_B * T) 0); [discriminate|].
  apply bind_Ret_inv in H1. destruct H1 as [[[Cs2 Cl2] calls2] [Hl H1]].
  injection H1 as _ <- <- _.
  apply langmuir_loop_length in Hl. rewrite !np_zeros_length in Hl.
  unfold compute_integral_constants in Hc.
  apply bind_Ret_inv in Hc. destruct Hc as [an [_ Hc]].
  apply bind_Ret_inv in Hc. destruct Hc as [Rt [_ Hc]].
  injection Hc as <-. exact Hl.
Qed.

(** A run that is entered above [TOL] and returns has run a last round. *)
Lemma hyd_run_last fuel cs T P f l v r :
  hyd_run quad fuel cs T P f l v = Some (Ret r) ->
  np_gt (hyd_err v) TOL = true ->
  exists n v0 v',
    hyd_after quad n cs T P f l v = Some v0
    /\ np_gt (hyd_err v0) TOL = true
    /\ hyd_round quad cs T P f l v0 = Ret v'
    /\ np_gt (hyd_err v') TOL = false /\ r = hyd_out v'.
Proof.
  intros H He.
  assert (HaO : forall v, hyd_after quad 0 cs T P f l v = Some v)
    by reflexivity.
  assert (HaS : forall n v,
             hyd_after quad (S n) cs T P f l v
             = if np_gt (hyd_err v) TOL then
                 match hyd_round quad cs T P f l v with
                 | Ret v' => hyd_after quad n cs T P f l v'
                 | Raise _ => None
                 end
               else None) by reflexivity.
  destruct (while_returns hyd_err hyd_out (hyd_round quad cs T P f l)
              (fun n => hyd_run quad n cs T P f l)
              (fun n => hyd_after quad n cs T P f l)
              (hyd_run_O quad cs T P f l) (hyd_run_S quad cs T P f l)
              HaO HaS fuel v r H) as (n & v' & _ & Ha & He' & Hr).
  destruct n as [|n].
  - cbn [hyd_after] in Ha. injection Ha as <-. congruence.
  - destruct (while_last hyd_err (hyd_round quad cs T P f l)
                (fun n => hyd_after quad n cs T P f l) HaO HaS n v v' Ha)
      as (v0 & Ha0 & He0 & Hr0).
    exists n, v0, v'. auto.
Qed.

End SolveResult.

(** X19: an operating-state solve returns only on an instance of more
    than two components.  What it stores then is what the last round of
    its loop made: the constants C_small and C_large of that round, one
    entry per component, whose measure against the constants of the
    round before is not above 1e-3; the occupancies computed from them;
    the numpy compressibility of these occupancies; and as hydrate
    volume the reference volume scaled by the size law at the call's T
    and P with that compressibility.  The loop starts from the constants
    the instance holds, if any, and zeros otherwise. *)
Theorem find_hydrate_properties_result
    (quad : (R -> R) -> R -> R -> R * R) (fuel : nat) (self : Eos)
    (cs : list Component) (T' P' : R) (eqf : array) (s1 : Eos)
    (Hret : find_hydrate_properties quad fuel self cs T' P' eqf
            = Some (Ret s1)) :
  (2 < num_comps self)%nat
  /\ exists kv vH0 Cs Cl,
       kappa_tmp s1 = Some (NpFloat kv)
       /\ v_H_0 self = Some vH0
       /\ v_H s1 = Some (Hydrate_size (Hs self) T' P' vH0 kv volumetric)
       /\ C_small s1 = Some Cs /\ C_large s1 = Some Cl
       /\ List.length Cs = num_comps self /\ List.length Cl = num_comps self
       /\ kv = 3 * np_sum (arr_mul (kappa_vec self) (Y_large s1))
       /\ exists a0 k0 n v0 s' e',
            a_0 self = Some a0 /\ kappa_tmp self = Some (NpFloat k0)
            /\ hyd_after quad n cs T' P' eqf a0
                 (count_solve self,
                  match C_small self with
                  | Some c => c
                  | None => np_zeros (num_comps self)
                  end,
                  match C_small self, C_large self with
                  | Some _, Some c => c
                  | _, _ => np_zeros (num_comps self)
                  end,
                  NpFloat k0, Fin 1e6) = Some v0
            /\ np_gt (hyd_err v0) TOL = true
            /\ hyd_round quad cs T' P' eqf a0 v0
               = Ret (s', Cs, Cl, NpFloat kv, e')
            /\ np_gt e' TOL = false
            /\ Y_small s1 = Y_small s' /\ Y_large s1 = Y_large s'.
Proof.
  unfold find_hydrate_properties in Hret.
  cbn [C_small C_large kappa_tmp a_0 num_comps count_solve] in Hret.
  set (C0s := match C_small self with
              | Some c => c
              | None => np_zeros (num_comps self)
              end).
  set (C0l := match C_small self, C_large self with
              | Some _, Some c => c
              | _, _ => np_zeros (num_comps self)
              end).
  destruct (kappa_tmp self) as [[pv|k0]|] eqn:Ekt.
  1, 3: destruct (C_small self); [destruct (C_large self)|]; discriminate.
  destruct (a_0 self) as [a0|] eqn:Ea.
  2: destruct (C_small self); [destruct (C_large self)|]; discriminate.
  assert (Hrun : match hyd_run quad fuel cs T' P' eqf a0
                         (count_solve self, C0s, C0l, NpFloat k0, Fin 1e6) with
                 | None => None
                 | Some (Raise e) => Some (Raise e)
                 | Some (Ret (s, Cs, Cl, kap)) =>
                     Some (kcopy <- scalar_copy kap ;;
                           vH0 <- getattr (v_H_0 s) ;;
                           Ret (set_properties s Cs Cl kcopy
                                  (Hydrate_size (Hs s) T' P' vH0 (sval kap)
                                     volumetric)))
                 end = Some (Ret s1)).
  { unfold C0s, C0l.
    destruct (C_small self); [destruct (C_large self)|];
      first [discriminate | exact Hret]. }
  clear Hret.
  destruct (hyd_run quad fuel cs T' P' eqf a0
              (count_solve self, C0s, C0l, NpFloat k0, Fin 1e6))
    as [[[[[s' Cs'] Cl'] k']|]|] eqn:Hloop; try discriminate.
  pose proof Hloop as Hfr.
  cbn [hyd_run] in Hfr.
  apply hydrate_loop_frame in Hfr. destruct Hfr as [Hst Hres].
  destruct Hst as (_ & _ & En & _ & _ & _ & EHs & _ & _ & _ & _ & Ekv & _).
  destruct Hres as (_ & _ & _ & Ev & _).
  cbn in En, EHs, Ev, Ekv.
  destruct (hyd_run_last quad _ _ _ _ _ _ _ _ Hloop Rgt_b_1e6_TOL)
    as (n & v0 & [[[[s2 Cs2] Cl2] k2] e2] & Ha & He0 & Hr & He2 & Hout).
  cbn [hyd_out] in Hout. injection Hout as <- <- <- <-.
  cbn [hyd_err snd] in He2.
  destruct v0 as [[[[s0 Cs0] Cl0] kk0] e0].
  pose proof Hr as Hr'. cbn [hyd_round] in Hr'.
  apply bind_Ret_inv in Hr'.
  destruct Hr' as [[s3 [[[Csn Cln] Ys] Yl]] [Hit Hr']].
  apply bind_Ret_inv in Hr'. destruct Hr' as [e3 [Hce Hr']].
  injection Hr' as Es' ECs' ECl' Ek' _.
  subst s' Cs' Cl'.
  cbn [num_comps kappa_vec Hs v_H_0 set_Y] in En, Ekv, EHs, Ev.
  destruct (iterate_function_length quad _ _ _ _ _ _ _ _ _ _ _ _ Hit)
    as [HlCs HlCl].
  apply iterate_function_frame in Hit.
  destruct Hit as [(_ & _ & En3 & _) _].
  assert (En0 : num_comps s0 = num_comps self) by congruence.
  destruct (scalar_copy k') as [kc|] eqn:Hcopy; [|discriminate].
  cbn [bind] in Hrun.
  destruct (v_H_0 (set_Y s3 Ys Yl)) as [vH0|] eqn:EvH0; [|discriminate].
  cbn [getattr bind] in Hrun. injection Hrun as <-.
  destruct k' as [pv|kv]; [discriminate|].
  injection Hcopy as <-.
  assert (Hn : (2 < num_comps self)%nat).
  { destruct (Nat.ltb_spec 2 (num_comps self)) as [Hlt|Hge]; [exact Hlt|].
    rewrite kappa_func_single in Ek'; [discriminate|].
    cbn [num_comps set_Y]. lia. }
  split; [exact Hn|].
  exists kv, vH0, Csn, Cln.
  cbn [kappa_tmp v_H C_small C_large set_properties].
  split; [reflexivity|].
  split; [rewrite <- Ev; cbn [v_H_0 set_Y] in EvH0; exact EvH0|].
  split; [cbn [Hs set_Y]; rewrite EHs; reflexivity|].
  split; [reflexivity|]. split; [reflexivity|].
  split; [rewrite HlCs; exact En0|].
  split; [rewrite HlCl; exact En0|].
  split.
  { cbn [Y_large set_properties set_Y]. rewrite <- Ekv.
    unfold kappa_func in Ek'. cbn [num_comps kappa_vec Y_large set_Y] in Ek'.
    rewrite En in Ek'.
    apply Nat.ltb_lt in Hn. rewrite Hn in Ek'. injection Ek' as Ek'.
    symmetry. exact Ek'. }
  exists a0, k0, n, (s0, Cs0, Cl0, kk0, e0), (set_Y s3 Ys Yl), e2.
  repeat split; auto.
Qed.

Lemma find_hydrate_properties_result_witness :
  exists self s1,
    find_hydrate_properties (quad_const 1) 2 self [water; methane; ethane]
      277.15 30 [0; 25; 1] = Some (Ret s1)
    /\ (2 < num_comps self)%nat
    /\ exists kv Cs Cl,
         kappa_tmp s1 = Some (NpFloat kv)
         /\ C_small s1 = Some Cs /\ C_large s1 = Some Cl
         /\ List.length Cs = num_comps self
         /\ List.length Cl = num_comps self.
Proof.
  destruct fugacity_twice_returns
    as (self & s & fg & _ & _ & _ & _ & H1 & _).
  destruct (fugacity_inv _ _ _ _ _ _ _ _ _ _ H1)
    as (_ & s1 & _ & _ & _ & Hsolve & _).
  exists self, s1. split; [exact Hsolve|].
  destruct (find_hydrate_properties_result _ _ _ _ _ _ _ _ Hsolve)
    as (Hn & kv & vH0 & Cs & Cl & Hk & _ & _ & HCs & HCl & HlCs & HlCl & _).
  split; [exact Hn|]. exists kv, Cs, Cl. auto.
Defined.

(** ** Integer identifiers *)

Lemma lower_string_of_uint (d : Decimal.uint) :
  lower (NilEmpty.string_of_uint d) = NilEmpty.string_of_uint d.
Proof. induction d; simpl; try reflexivity; f_equal; assumption. Qed.

Lemma lower_string_of_int (d : Decimal.signed_int) :
  lower (NilZero.string_of_int d) = NilZero.string_of_int d.
Proof.
  destruct d as [d|d]; unfold NilZero.string_of_int, NilZero.string_of_uint.
  - destruct d; try reflexivity; apply lower_string_of_uint.
  - destruct d; try reflexivity; cbn [lower]; f_equal;
      apply lower_string_of_uint.
Qed.

Lemma to_int_isi (z : Z) :
  NilZero.int_of_string (NilZero.string_of_int (Z.to_int z))
  = Some (Z.to_int z).
Proof.
  apply NilZero.isi; destruct z; simpl; intros H; try discriminate;
    injection H as H; exact (DecimalPos.Unsigned.to_uint_nonnil _ H).
Qed.

Lemma int_alias (z : Z) (h : hydstruc_t) :
  py_in (PyStr (NilZero.string_of_int (Z.to_int z))) (menu h) = true ->
  (z = 1%Z /\ h = s1) \/ (z = 2%Z /\ h = s2).
Proof.
  intros H. apply menu_strings in H.
  assert (Hkey : forall m,
             NilZero.string_of_int (Z.to_int z) = m ->
             Some (Z.to_int z) = NilZero.int_of_string m).
  { intros m <-. symmetry. apply to_int_isi. }
  destruct h; simpl in H;
    repeat (destruct H as [H|H];
            [symmetry in H; apply Hkey in H; cbn in H;
             try discriminate H;
             injection H as H; apply (f_equal Z.of_int) in H;
             rewrite DecimalZ.of_to in H; cbn in H; auto|]);
    contradiction.
Qed.

(** X20: an integer identifier resolves through its decimal form: 1
    selects s1, 2 selects s2, and every other integer is refused with
    TypeError, raised while the message of the intended RuntimeError is
    built. *)
Theorem HydrateStructure_init_integer (z : Z) :
  HydrateStructure_init (PyInt z)
  = if (z =? 1)%Z then Ret (structure_of s1)
    else if (z =? 2)%Z then Ret (structure_of s2)
    else Raise TypeError.
Proof.
  destruct (z =? 1)%Z eqn:E1; [apply Z.eqb_eq in E1; subst; reflexivity|].
  destruct (z =? 2)%Z eqn:E2; [apply Z.eqb_eq in E2; subst; reflexivity|].
  apply Z.eqb_neq in E1. apply Z.eqb_neq in E2.
  apply (HydrateStructure_init_unknown (PyInt z)).
  intros h. cbn [py_str]. rewrite lower_string_of_int.
  destruct (py_in (PyStr (NilZero.string_of_int (Z.to_int z))) (menu h))
    eqn:E; [|reflexivity].
  destruct (int_alias z h E) as [[? _]|[? _]]; contradiction.
Qed.

(** ** The reference state a constructor stores *)

(** X21: an instance the constructor returns holds the reference state
    of its own solve: a reference lattice size, as reference volume the
    volume of that lattice, the T and P of construction, and water's
    ideal-gas term at them, read from the component at the water index. *)
Theorem init_reference_state
    (quad : (R -> R) -> R -> R -> R * R) (fuel : nat)
    (cs : list Component) (T0 P0 : R) (structure : pyval) (self : Eos)
    (Hinit : HvdwpmEos_init quad fuel cs T0 P0 structure = Some (Ret self)) :
  exists a w,
    a_0 self = Some a
    /\ v_H_0 self = Some (lattice_to_volume (Hs self) a)
    /\ nth_error cs (water_ind self) = Some w /\ is_h2o w = true
    /\ gw0_RT self = gibbs_ideal w T0 P0
    /\ T self = T0 /\ P self = P0
    /\ vol_Tfactor self = lattice_Tfactor self ^ 3.
Proof.
  unfold HvdwpmEos_init in Hinit.
  destruct (find_water cs) as [wi|] eqn:Hw; [|discriminate].
  cbn [bind] in Hinit.
  destruct (HydrateStructure_init structure) as [hs|]; [|discriminate].
  cbn [bind] in Hinit.
  destruct (R_tab (eos hs)) as [Rt|]; [|discriminate].
  cbn [getattr bind] in Hinit.
  destruct (z_tab (eos hs)) as [zt|]; [|discriminate].
  cbn [getattr bind] in Hinit.
  destruct (a_norm (eos hs)) as [an|]; [|discriminate].
  cbn [getattr bind] in Hinit.
  unfold make_constant_mats, getitem in Hinit.
  cbn [water_ind init_attrs] in Hinit.
  destruct (nth_error cs wi) as [w|] eqn:Hnth; [|discriminate].
  cbn [returned] in Hinit.
  unfold find_stdstate_volume in Hinit.
  match type of Hinit with
  | match stdstate_loop _ _ ?s0 _ _ _ _ _ _ with _ => _ end = _ =>
      set (s1 := s0) in *
  end.
  destruct (stdstate_loop quad fuel s1 cs (np_zeros (num_comps s1))
              (np_zeros (num_comps s1)) (a0_ast (eos (Hs s1)))
              (PyFloat (kappa0 s1)) (Fin 1e6))
    as [[[[s' l'] k']|]|] eqn:Hloop; try discriminate.
  injection Hinit as <-.
  pose proof (stdstate_loop_frame _ _ _ _ _ _ _ _ _ _ _ _ Hloop) as [Hst _].
  destruct Hst as (Ewi & _ & _ & ET & EP & Egw & _ & _ & _ & _ & _ & _ & _
                   & _ & _ & _ & _ & _ & Evt & Elt).
  pose proof (find_water_first_h2o_aux cs wi Hw) as Hwater.
  destruct Hwater as (c & Hc & Hh). rewrite Hnth in Hc. injection Hc as <-.
  exists l', w.
  change (water_ind (set_stdstate s' k' l' (lattice_to_volume (Hs s') l')))
    with (water_ind s').
  change (gw0_RT (set_stdstate s' k' l' (lattice_to_volume (Hs s') l')))
    with (gw0_RT s').
  change (T (set_stdstate s' k' l' (lattice_to_volume (Hs s') l')))
    with (T s').
  change (P (set_stdstate s' k' l' (lattice_to_volume (Hs s') l')))
    with (P s').
  change (vol_Tfactor (set_stdstate s' k' l' (lattice_to_volume (Hs s') l')))
    with (vol_Tfactor s').
  change (lattice_Tfactor
            (set_stdstate s' k' l' (lattice_to_volume (Hs s') l')))
    with (lattice_Tfactor s').
  rewrite Ewi, ET, EP, Egw, Evt, Elt.
  split; [reflexivity|]. split; [reflexivity|].
  split; [exact Hnth|]. split; [exact Hh|].
  split; [reflexivity|]. split; [reflexivity|]. split; [reflexivity|].
  unfold s1. cbn [vol_Tfactor lattice_Tfactor set_constant_mats].
  rewrite Hydrate_size_cubed. replace (1 ^ 3) with 1 by ring. reflexivity.
Qed.

Lemma init_reference_state_witness :
  exists self a w,
    HvdwpmEos_init (quad_const 1) 2 [methane; water; ethane] 277.15 30
      (PyStr "s1") = Some (Ret self)
    /\ a_0 self = Some a
    /\ v_H_0 self = Some (lattice_to_volume (Hs self) a)
    /\ nth_error [methane; water; ethane] (water_ind self) = Some w
    /\ is_h2o w = true
    /\ gw0_RT self = gibbs_ideal w 277.15 30.
Proof.
  destruct init_methane_water_ethane as [self H].
  destruct (init_reference_state _ _ _ _ _ _ _ H)
    as (a & w & Ha & Hv & Hn & Hw & Hg & _).
  exists self, a, w. auto 10.
Defined.
